(** * eks-rolling-update: the rolling-update orchestration engine

    A shallow embedding of [eksrollup/cli.py] and [eksrollup/lib/k8s.py]
    and the properties of the orchestration engine: the health validator,
    the capacity controller, the node lifecycle sequencer and the run-mode
    state machine.

    Python code is embedded in a state-and-exception monad.  The state holds
    the log of calls made to the cloud and cluster APIs, a call counter that
    indexes the answers of these APIs, the autoscaling groups as the cloud
    holds them, and the local variables of [update_asgs] that are mutated
    inside [try] blocks (their mutations survive an exception, as in Python).
    Log lines are not modelled. *)

From Stdlib Require Import ZArith List String Ascii Bool Lia DecimalString.
From stdpp Require Import gmap strings list.

Open Scope string_scope.
Open Scope list_scope.
Open Scope Z_scope.

(** ** Python values *)

(** [needle in hay] on Python strings: substring test. *)
Fixpoint str_in (needle hay : string) : bool :=
  if String.prefix needle hay then true
  else match hay with
       | EmptyString => false
       | String _ rest => str_in needle rest
       end.

(** Truthiness of a string, of an optional string ([None] is falsy) and of a number. *)
Definition str_truthy (s : string) : bool :=
  match s with EmptyString => false | _ => true end.

Definition opt_truthy (v : option string) : bool :=
  match v with Some s => str_truthy s | None => false end.

Definition num_truthy (z : Z) : bool := negb (z =? 0).

(** Exceptions.  [SystemExit] is what [exit], [quit] and [sys.exit] raise; it
    is not an [Exception], so [except Exception] lets it through while a bare
    [except:] catches it. *)
Inductive Exn : Type :=
| Exception (msg : string)
| AttributeError
| TypeError
| ValueError
| KeyError (key : string)
| RollingUpdateException (message asg_name : string)
| SystemExit (code : Z).

Definition is_Exception (e : Exn) : bool :=
  match e with SystemExit _ => false | _ => true end.

(** [int(s)] on a string: surrounding whitespace, an optional sign, decimal
    digits, single underscores between digits. *)
Definition is_space (c : ascii) : bool :=
  let n := nat_of_ascii c in
  ((9 <=? n) && (n <=? 13) || (n =? 32))%nat.

Definition digit_of (c : ascii) : option Z :=
  let n := Z.of_nat (nat_of_ascii c) in
  if (48 <=? n) && (n <=? 57) then Some (n - 48) else None.

Fixpoint lstrip (s : string) : string :=
  match s with
  | String c rest => if is_space c then lstrip rest else s
  | EmptyString => EmptyString
  end.

(** Digits after the first one: [after_digit] tells whether the previous
    character was a digit (an underscore must sit between two digits);
    trailing whitespace ends the number. *)
Fixpoint int_digits (s : string) (acc : Z) (after_digit : bool) : option Z :=
  match s with
  | EmptyString => if after_digit then Some acc else None
  | String c rest =>
      match digit_of c with
      | Some d => int_digits rest (10 * acc + d) true
      | None =>
          if Ascii.eqb c "_" then
            if after_digit then int_digits rest acc false else None
          else if is_space c then
            if after_digit then
              match lstrip rest with EmptyString => Some acc | _ => None end
            else None
          else None
      end
  end.

Definition int_unsigned (s : string) : option Z :=
  match s with
  | String c _ => match digit_of c with
                  | Some _ => int_digits s 0 false
                  | None => None
                  end
  | EmptyString => None
  end.

Definition int_of_str (s : string) : option Z :=
  match lstrip s with
  | String "-" rest => Z.opp <$> int_unsigned rest
  | String "+" rest => int_unsigned rest
  | t => int_unsigned t
  end.

(** [str(z)] on an integer. *)
Definition str_of_int (z : Z) : string :=
  NilZero.string_of_int (Z.to_int z).

(** ** Data model *)

(** A tag of an autoscaling group, [{'Key': ..., 'Value': ...}]. *)
Record Tag := mkTag { Key : string; Value : string }.

(** The dictionary [get_asg_tag] returns: a tag, or [{}] when there is none. *)
Definition TagDict := option Tag.

(** [d.get('Value')] *)
Definition get_Value (d : TagDict) : option string := Value <$> d.

(** An instance descriptor of an autoscaling group. *)
Record Instance := mkInstance { InstanceId : string }.

(** The snapshot of an autoscaling group as [describe] returns it. *)
Record Asg := mkAsg {
  AutoScalingGroupName : string;
  DesiredCapacity : Z;
  MaxSize : Z;
  Tags : list Tag;
  Instances : list Instance
}.

(** A cluster node: [metadata.name], [spec.provider_id] (may be [None]),
    the keys of [metadata.labels] and [status.conditions] as (type, status). *)
Record Node := mkNode {
  node_name : string;
  provider_id : option string;
  labels : list string;
  conditions : list (string * string)
}.

(** A pod: name, namespace and the kinds of its owner references. *)
Record Pod := mkPod {
  pod_name : string;
  pod_namespace : string;
  owner_kinds : list string
}.

(** The settings dictionary [app_config] ([config.py] is not part of the
    sources: its entries are parameters). *)
Record Config := mkConfig {
  RUN_MODE : Z;
  DRY_RUN : bool;
  ASG_USE_TERMINATION_POLICY : bool;
  K8S_WORKER_GROUPS_ORDER : list string;      (* after json.loads *)
  K8S_PARALLEL_NODES_COUNT : Z;               (* after int() *)
  CLUSTER_HEALTH_RETRY : Z;
  CLUSTER_HEALTH_WAIT : Z;
  GLOBAL_MAX_RETRY : Z;
  GLOBAL_HEALTH_WAIT : Z;
  BATCH_SIZE : Z;
  BETWEEN_NODES_WAIT : Z;
  TAINT_NODES : bool;
  EXCLUDE_NODE_LABEL_KEYS : option (list string);
  K8S_AUTOSCALER_ENABLED : bool;
  K8S_AUTOSCALER_REPLICAS : Z;
  ASG_DESIRED_STATE_TAG : string;
  ASG_ORIG_CAPACITY_TAG : string;
  ASG_ORIG_MAX_CAPACITY_TAG : string
}.

(** The body of a node patch. *)
Inductive NodePatch := Unschedulable | NoScheduleTaint.

(** Answer of [read_namespaced_deployment] for the autoscaler deployment:
    the deployment with its [status.replicas], a 404, or another API error. *)
Inductive DeploymentAnswer :=
| Deployment (status_replicas : option Z)
| NotFound404
| ApiFailure.

(** Calls made to the cloud and to the cluster, in the order they are made. *)
Inductive Event : Type :=
| EvSleep (seconds : Z)
| EvModifyAutoscaling (asg_name action : string)
| EvIsAsgScaled (asg_name : string) (capacity : Z)
| EvIsAsgHealthy (asg_name : string)
| EvCountInstances (cluster_name : string) (predictive : bool)
| EvSaveTag (asg_name key : string) (value : Z)
| EvDeleteTag (asg_name key : string)
| EvScaleAsg (asg_name : string) (current new_desired new_max : Z)
| EvTerminate (instance_id : string)
| EvGetAsgs (cluster_name : string)
| EvListNode
| EvPatchNode (node : string) (body : NodePatch) (dry_run : bool)
| EvListPods (node : string)
| EvEvict (pod namespace : string)
| EvDeleteNode (node : string) (dry_run : bool)
| EvReadDeployment
| EvPatchDeployment (replicas : Z).

(** The answers of the two control planes.  Every answer may depend on the
    number of calls made before it, so that the same question can be
    answered differently over time.  [lib/aws.py] is not part of the
    sources: what it reads from the cloud is a field here. *)
Record Env := mkEnv {
  e_get_asg_tag : list Tag -> string -> TagDict;
  e_is_asg_scaled : nat -> string -> Z -> bool;
  e_is_asg_healthy : nat -> string -> bool;
  e_count_all_cluster_instances : nat -> string -> bool -> Z;
  e_terminate_instance_in_asg : nat -> string -> bool;
  e_get_asgs : nat -> string -> list Asg;
  e_outdated : Asg -> list Instance;
  e_older : Asg -> list Instance;
  e_list_node : nat -> list Node;
  e_list_pods : nat -> string -> option (list Pod);   (* None: ApiException *)
  e_evict : nat -> string -> string -> bool;          (* false: ApiException *)
  e_read_deployment : nat -> DeploymentAnswer;
  e_patch_deployment : nat -> bool;                   (* false: ApiException *)
  e_kubectl : bool                                    (* shutil.which('kubectl') *)
}.

(** An autoscaling group as the cloud holds it. *)
Record Group := mkGroup {
  g_desired : Z;
  g_max : Z;
  g_tags : gmap string string
}.

(** ** Machine state *)

Record State := mkState {
  clock : nat;
  trace : list Event;                          (* newest call first *)
  groups : gmap string Group;
  (* local variables of update_asgs *)
  instance_to_node_cache : gmap string string;
  asg_state_dict : gmap string (Z * Z * Z);
  desired_asg_capacity : Z;
  running_updates : Z
}.

(** The calls made so far, oldest first. *)
Definition events (s : State) : list Event := rev (trace s).

Definition initial_state (gs : gmap string Group) : State :=
  mkState 0 [] gs ∅ ∅ 0 0.

Definition set_clock (n : nat) (s : State) : State :=
  mkState n (trace s) (groups s) (instance_to_node_cache s) (asg_state_dict s)
          (desired_asg_capacity s) (running_updates s).
Definition set_trace (t : list Event) (s : State) : State :=
  mkState (clock s) t (groups s) (instance_to_node_cache s) (asg_state_dict s)
          (desired_asg_capacity s) (running_updates s).
Definition set_groups (g : gmap string Group) (s : State) : State :=
  mkState (clock s) (trace s) g (instance_to_node_cache s) (asg_state_dict s)
          (desired_asg_capacity s) (running_updates s).
Definition set_cache (c : gmap string string) (s : State) : State :=
  mkState (clock s) (trace s) (groups s) c (asg_state_dict s)
          (desired_asg_capacity s) (running_updates s).
Definition set_asg_state_dict (d : gmap string (Z * Z * Z)) (s : State) : State :=
  mkState (clock s) (trace s) (groups s) (instance_to_node_cache s) d
          (desired_asg_capacity s) (running_updates s).
Definition set_desired_asg_capacity (z : Z) (s : State) : State :=
  mkState (clock s) (trace s) (groups s) (instance_to_node_cache s) (asg_state_dict s)
          z (running_updates s).
Definition set_running_updates (z : Z) (s : State) : State :=
  mkState (clock s) (trace s) (groups s) (instance_to_node_cache s) (asg_state_dict s)
          (desired_asg_capacity s) z.

(** ** The monad *)

(** A computation returns, raises, or is still looping when its fuel is spent. *)
Inductive Outcome (A : Type) : Type :=
| Ret (a : A)
| Raise (e : Exn)
| OutOfFuel.
Arguments Ret {A} a.
Arguments Raise {A} e.
Arguments OutOfFuel {A}.

Definition M (A : Type) : Type := State -> Outcome A * State.

Definition ret {A} (a : A) : M A := fun s => (Ret a, s).
Definition raise {A} (e : Exn) : M A := fun s => (Raise e, s).
Definition out_of_fuel {A} : M A := fun s => (OutOfFuel, s).

Definition bind {A B} (m : M A) (f : A -> M B) : M B :=
  fun s => match m s with
           | (Ret a, s') => f a s'
           | (Raise e, s') => (Raise e, s')
           | (OutOfFuel, s') => (OutOfFuel, s')
           end.

Declare Scope py_scope.
Delimit Scope py_scope with py.
Notation "x <- m ;; k" := (bind m (fun x => k))
  (at level 100, m at next level, right associativity) : py_scope.
Notation "m ;;; k" := (bind m (fun _ => k))
  (at level 100, right associativity) : py_scope.
Open Scope py_scope.

(** [try: m except <catches>: handler] ; [catches] selects the exceptions of
    the [except] clause.  A loop that never ends is not an exception. *)
Definition try_except {A} (m : M A) (catches : Exn -> bool) (handler : Exn -> M A) : M A :=
  fun s => match m s with
           | (Raise e, s') => if catches e then handler e s' else (Raise e, s')
           | r => r
           end.

Definition except_Exception : Exn -> bool := is_Exception.
Definition except_all : Exn -> bool := fun _ => true.

(** [exit(code)], [quit(code)], [sys.exit(code)] *)
Definition sys_exit {A} (code : Z) : M A := raise (SystemExit code).

Definition get_state : M State := fun s => (Ret s, s).
Definition modify (f : State -> State) : M unit := fun s => (Ret tt, f s).

(** One call to an API: it is logged and the call counter advances. *)
Definition emit (e : Event) : M unit :=
  modify (fun s => set_clock (S (clock s)) (set_trace (e :: trace s) s)).

(** A call with an answer: the answer is the one for the current call count. *)
Definition ask {A} (e : Event) (answer : nat -> A) : M A :=
  s <- get_state ;; emit e ;;; ret (answer (clock s)).

(** [when c m]: [if c: m] *)
Definition when (c : bool) (m : M unit) : M unit := if c then m else ret tt.

(** [time.sleep(seconds)] *)
Definition sleep (seconds : Z) : M unit := emit (EvSleep seconds).

(** An ordered dictionary (Python [dict]): [d[k] = v] replaces the value of a
    key that is there, in place, and appends a new key at the end. *)
Fixpoint dict_set {V} (k : string) (v : V) (d : list (string * V)) : list (string * V) :=
  match d with
  | [] => [(k, v)]
  | (k', v') :: rest =>
      if String.eqb k' k then (k', v) :: rest else (k', v') :: dict_set k v rest
  end.

Section Program.

Variable cfg : Config.
Variable env : Env.

(** ** lib/aws.py: the cloud autoscaling client *)

(** Modelled from the spec: [lib/aws.py] is not part of the sources.  The spec
    lists what the cloud client does: read and patch desired capacity and max
    size, suspend and resume scaling processes, create and delete tags,
    terminate an instance, report health.  Reads are answered by [env];
    writes are logged and, for capacity and tags, applied to the group held
    in the state; a write to a group the cloud does not know is an API
    error, which propagates. *)

Definition get_asg_tag (tags : list Tag) (tag_name : string) : TagDict :=
  e_get_asg_tag env tags tag_name.

Definition modify_aws_autoscaling (asg_name action : string) : M unit :=
  emit (EvModifyAutoscaling asg_name action).

Definition is_asg_scaled (asg_name : string) (desired_capacity : Z) : M bool :=
  ask (EvIsAsgScaled asg_name desired_capacity)
      (fun t => e_is_asg_scaled env t asg_name desired_capacity).

Definition is_asg_healthy (asg_name : string) : M bool :=
  ask (EvIsAsgHealthy asg_name) (fun t => e_is_asg_healthy env t asg_name).

Definition count_all_cluster_instances (cluster_name : string) (predictive : bool) : M Z :=
  ask (EvCountInstances cluster_name predictive)
      (fun t => e_count_all_cluster_instances env t cluster_name predictive).

Definition terminate_instance_in_asg (instance_id : string) : M bool :=
  ask (EvTerminate instance_id) (fun t => e_terminate_instance_in_asg env t instance_id).

Definition get_asgs (cluster_name : string) : M (list Asg) :=
  ask (EvGetAsgs cluster_name) (fun t => e_get_asgs env t cluster_name).

(** Patch of one group held by the cloud. *)
Definition update_group (asg_name : string) (f : Group -> Group) : M unit :=
  fun s => match groups s !! asg_name with
           | Some g => (Ret tt, set_groups (<[asg_name := f g]> (groups s)) s)
           | None => (Raise (Exception ("AutoScalingGroup not found: " +:+ asg_name)), s)
           end.

Definition save_asg_tags (asg_name key : string) (value : Z) : M unit :=
  emit (EvSaveTag asg_name key value) ;;;
  update_group asg_name
    (fun g => mkGroup (g_desired g) (g_max g) (<[key := str_of_int value]> (g_tags g))).

Definition delete_asg_tags (asg_name key : string) : M unit :=
  emit (EvDeleteTag asg_name key) ;;;
  update_group asg_name
    (fun g => mkGroup (g_desired g) (g_max g) (delete key (g_tags g))).

Definition scale_asg (asg_name : string) (current_desired_capacity new_desired_capacity new_max_size : Z)
  : M unit :=
  emit (EvScaleAsg asg_name current_desired_capacity new_desired_capacity new_max_size) ;;;
  update_group asg_name (fun g => mkGroup new_desired_capacity new_max_size (g_tags g)).

(** Modelled from the spec: the plan maps the name of every group to the
    list of its outdated instances and the snapshot used to compute it; which
    instances are outdated is decided by [env] (launch configuration mismatch
    for [plan_asgs], age for [plan_asgs_older_nodes]). *)
Definition plan_with (outdated : Asg -> list Instance) (asgs : list Asg)
  : list (string * (list Instance * Asg)) :=
  fold_left (fun d asg => dict_set (AutoScalingGroupName asg) (outdated asg, asg) d) asgs [].

Definition plan_asgs (asgs : list Asg) := plan_with (e_outdated env) asgs.
Definition plan_asgs_older_nodes (asgs : list Asg) := plan_with (e_older env) asgs.

(** ** lib/k8s.py: the cluster client *)

(** [get_k8s_nodes]: the nodes of the cluster, split into those without any
    excluded label key and the excluded ones.  (Loading the kube config is
    taken to succeed.) *)
Definition node_included (keys : list string) (node : Node) : bool :=
  forallb (fun key => negb (existsb (String.eqb key) (labels node))) keys.

Definition get_k8s_nodes : M (list Node * list Node) :=
  items <- ask EvListNode (e_list_node env) ;;
  match EXCLUDE_NODE_LABEL_KEYS cfg with
  | Some keys => ret (List.filter (node_included keys) items,
                      List.filter (fun node => negb (node_included keys node)) items)
  | None => ret (items, [])
  end.

(** What [get_node_by_instance_id] iterates over: the list of nodes it was
    given, or, after a refresh, the pair that [get_k8s_nodes] returned. *)
Inductive NodesArg :=
| NodeList (nodes : list Node)
| NodePair (nodes excluded : list Node).

(** The scan of one attempt: the name of the first node whose provider id
    contains the instance id ([""] when there is none).  A provider id of
    [None] raises inside the [try] of the scan and the node is passed over;
    the two elements of a refreshed pair are lists and are passed over. *)
Fixpoint scan_list (nodes : list Node) (instance_id : string) : string :=
  match nodes with
  | [] => ""
  | k8s_node :: rest =>
      match provider_id k8s_node with
      | Some p => if str_in instance_id p then node_name k8s_node
                  else scan_list rest instance_id
      | None => scan_list rest instance_id
      end
  end.

Definition scan_nodes (k8s_nodes : NodesArg) (instance_id : string) : string :=
  match k8s_nodes with
  | NodeList nodes => scan_list nodes instance_id
  | NodePair _ _ => ""
  end.

(** The warning after a failed attempt reads [node.spec.provider_id] of every
    element: on a refreshed pair the elements are lists and this raises. *)
Definition warn_provider_ids (k8s_nodes : NodesArg) : M unit :=
  match k8s_nodes with
  | NodeList _ => ret tt
  | NodePair _ _ => raise AttributeError
  end.

Fixpoint get_node_by_instance_id_loop (fuel : nat) (k8s_nodes : NodesArg)
    (instance_id : string) (retries delay attempt : Z) : M string :=
  if attempt <? retries then
    match fuel with
    | O => out_of_fuel
    | S fuel' =>
        let node_name := scan_nodes k8s_nodes instance_id in
        if str_truthy node_name then ret node_name
        else
          warn_provider_ids k8s_nodes ;;;
          let attempt := attempt + 1 in
          if attempt <? retries then
            sleep delay ;;;
            refreshed <- get_k8s_nodes ;;
            get_node_by_instance_id_loop fuel' (NodePair (fst refreshed) (snd refreshed))
                                         instance_id retries delay attempt
          else
            get_node_by_instance_id_loop fuel' k8s_nodes instance_id retries delay attempt
    end
  else raise (Exception ("Could not find a k8s node name for instance id " +:+ instance_id)).

Definition get_node_by_instance_id (k8s_nodes : NodesArg) (instance_id : string)
    (retries delay : Z) : M string :=
  get_node_by_instance_id_loop (Z.to_nat retries) k8s_nodes instance_id retries delay 0.

(** [is_autoscaler_running] *)
Definition is_autoscaler_running : M bool :=
  response <- ask EvReadDeployment (e_read_deployment env) ;;
  match response with
  | Deployment (Some replicas) => ret (0 <? replicas)
  | Deployment None => raise TypeError          (* None > 0 *)
  | NotFound404 => ret false
  | ApiFailure => sys_exit 1
  end.

(** [modify_k8s_autoscaler]: pauses or resumes the cluster autoscaler. *)
Definition modify_k8s_autoscaler (action : string) : M unit :=
  running <- is_autoscaler_running ;;
  if negb running then ret tt
  else
    body_replicas <-
      (if String.eqb action "pause" then ret 0
       else if String.eqb action "resume" then ret (K8S_AUTOSCALER_REPLICAS cfg)
       else sys_exit 1) ;;
    ok <- ask (EvPatchDeployment body_replicas) (e_patch_deployment env) ;;
    if ok then ret tt else sys_exit 1.

(** [delete_node], [cordon_node], [taint_node]: one API call each, in its
    dry-run variant when [DRY_RUN] is set; an [ApiException] is logged and
    swallowed. *)
Definition delete_node (node_name : string) : M unit :=
  emit (EvDeleteNode node_name (DRY_RUN cfg)).

Definition cordon_node (node_name : string) : M unit :=
  emit (EvPatchNode node_name Unschedulable (DRY_RUN cfg)).

Definition taint_node (node_name : string) : M unit :=
  emit (EvPatchNode node_name NoScheduleTaint (DRY_RUN cfg)).

(** [drain_node]: evicts every pod of the node that no DaemonSet owns; a
    failed eviction raises, and so does a failed listing of the pods. *)
Definition owned_by_daemonset (pod : Pod) : bool :=
  existsb (String.eqb "DaemonSet") (owner_kinds pod).

Fixpoint evict_pods (pods : list Pod) : M unit :=
  match pods with
  | [] => ret tt
  | pod :: rest =>
      if owned_by_daemonset pod then evict_pods rest
      else
        ok <- ask (EvEvict (pod_name pod) (pod_namespace pod))
                  (fun t => e_evict env t (pod_name pod) (pod_namespace pod)) ;;
        if ok then evict_pods rest
        else raise (Exception ("Failed to evict pod " +:+ pod_name pod +:+
                               " from namespace " +:+ pod_namespace pod))
  end.

Definition drain_node (node_name : string) : M unit :=
  pods <- ask (EvListPods node_name) (fun t => e_list_pods env t node_name) ;;
  match pods with
  | Some items => evict_pods items
  | None => raise (Exception ("Failed to drain node " +:+ node_name))
  end.

(** [k8s_nodes_ready]: all included nodes are free of a [Ready] condition
    with status ["False"]. *)
Definition condition_not_ready (c : string * string) : bool :=
  String.eqb (fst c) "Ready" && String.eqb (snd c) "False".

Definition all_nodes_healthy (nodes : list Node) : bool :=
  forallb (fun node => forallb (fun c => negb (condition_not_ready c)) (conditions node)) nodes.

Fixpoint k8s_nodes_ready_loop (fuel : nat) (max_retry wait retry_count : Z)
    (healthy_nodes : bool) : M bool :=
  if retry_count <? max_retry then
    match fuel with
    | O => out_of_fuel
    | S fuel' =>
        let retry_count := retry_count + 1 in
        listed <- get_k8s_nodes ;;
        let healthy_nodes := all_nodes_healthy (fst listed) in
        if healthy_nodes then ret healthy_nodes
        else sleep wait ;;; k8s_nodes_ready_loop fuel' max_retry wait retry_count healthy_nodes
    end
  else ret healthy_nodes.

Definition k8s_nodes_ready : M bool :=
  let max_retry := GLOBAL_MAX_RETRY cfg in
  k8s_nodes_ready_loop (Z.to_nat (max_retry - 1)) max_retry (GLOBAL_HEALTH_WAIT cfg) 1 false.

(** [k8s_nodes_count]: the number of included nodes has reached
    [desired_node_count]. *)
Fixpoint k8s_nodes_count_loop (fuel : nat) (desired_node_count max_retry wait retry_count : Z)
    (nodes_online : bool) : M bool :=
  if retry_count <? max_retry then
    match fuel with
    | O => out_of_fuel
    | S fuel' =>
        let retry_count := retry_count + 1 in
        listed <- get_k8s_nodes ;;
        if Z.of_nat (length (fst listed)) <? desired_node_count then
          sleep wait ;;;
          k8s_nodes_count_loop fuel' desired_node_count max_retry wait retry_count false
        else ret true
    end
  else ret nodes_online.

Definition k8s_nodes_count (desired_node_count : Z) : M bool :=
  let max_retry := GLOBAL_MAX_RETRY cfg in
  k8s_nodes_count_loop (Z.to_nat (max_retry - 1)) desired_node_count max_retry
                       (GLOBAL_HEALTH_WAIT cfg) 1 false.

(** ** cli.py *)

(** [validate_cluster_health] *)
Fixpoint validate_cluster_health_loop (fuel : nat) (asg_name : string)
    (new_desired_asg_capacity : Z) (cluster_name : string) (predictive : bool)
    (retry_count : Z) : M unit :=
  if retry_count <? CLUSTER_HEALTH_RETRY cfg then
    match fuel with
    | O => out_of_fuel
    | S fuel' =>
        let retry_count := retry_count + 1 in
        let continue :=
          validate_cluster_health_loop fuel' asg_name new_desired_asg_capacity
                                       cluster_name predictive retry_count in
        sleep (CLUSTER_HEALTH_WAIT cfg) ;;;
        scaled <- is_asg_scaled asg_name new_desired_asg_capacity ;;
        if negb scaled then continue
        else
          healthy <- is_asg_healthy asg_name ;;
          if negb healthy then continue
          else
            desired_k8s_node_count <- count_all_cluster_instances cluster_name predictive ;;
            online <- k8s_nodes_count desired_k8s_node_count ;;
            if negb online then continue
            else
              ready <- k8s_nodes_ready ;;
              if negb ready then continue
              else ret tt
    end
  else raise (Exception "ASG healthcheck failed").

(** [health_check_type] only selects the wording of a log line. *)
Definition validate_cluster_health (asg_name : string) (new_desired_asg_capacity : Z)
    (cluster_name : string) (predictive : bool) (health_check_type : string) : M unit :=
  validate_cluster_health_loop (Z.to_nat (CLUSTER_HEALTH_RETRY cfg)) asg_name
                               new_desired_asg_capacity cluster_name predictive 0.

(** [int(d.get('Value'))]: [None] is a [TypeError], a string that is not a
    number a [ValueError]. *)
Definition int_of_Value (d : TagDict) : M Z :=
  match get_Value d with
  | None => raise TypeError
  | Some v => match int_of_str v with
              | Some z => ret z
              | None => raise ValueError
              end
  end.

(** The [while True] loop of a fresh scale-up.  [current_capacity] is [None]
    before the first step. *)
Fixpoint scale_up_loop (fuel : nat) (asg_name cluster_name : string) (predictive : bool)
    (batch_size desired_capacity asg_old_max_size old_desired_capacity : Z)
    (current_capacity : option Z) : M unit :=
  match fuel with
  | O => out_of_fuel
  | S fuel' =>
      let old_desired_capacity :=
        if num_truthy batch_size then
          match current_capacity with
          | None => old_desired_capacity
          | Some c => c
          end
        else old_desired_capacity in
      let current_capacity :=
        if num_truthy batch_size then
          let c := match current_capacity with
                   | None => old_desired_capacity
                   | Some c => c
                   end + batch_size in
          if c >=? desired_capacity then desired_capacity else c
        else desired_capacity in
      (if current_capacity >? asg_old_max_size
       then scale_asg asg_name old_desired_capacity current_capacity current_capacity
       else scale_asg asg_name old_desired_capacity current_capacity asg_old_max_size) ;;;
      validate_cluster_health asg_name current_capacity cluster_name predictive "asg" ;;;
      if current_capacity =? desired_capacity then ret tt
      else scale_up_loop fuel' asg_name cluster_name predictive batch_size desired_capacity
                         asg_old_max_size old_desired_capacity (Some current_capacity)
  end.

(** [scale_up_asg]; [fuel] bounds the steps of the [while True] loop. *)
Definition scale_up_asg (fuel : nat) (cluster_name : string) (asg : Asg) (count : Z)
  : M (Z * Z * Z) :=
  let asg_old_max_size := MaxSize asg in
  let asg_old_desired_capacity := DesiredCapacity asg in
  let desired_capacity := asg_old_desired_capacity + count in
  let asg_tags := Tags asg in
  let asg_name := AutoScalingGroupName asg in
  modify_aws_autoscaling asg_name "resume" ;;;
  let use_asg_termination_policy := ASG_USE_TERMINATION_POLICY cfg in
  let batch_size := BATCH_SIZE cfg in
  let asg_tag_desired_capacity := get_asg_tag asg_tags (ASG_DESIRED_STATE_TAG cfg) in
  let asg_tag_orig_capacity := get_asg_tag asg_tags (ASG_ORIG_CAPACITY_TAG cfg) in
  let asg_tag_orig_max_capacity := get_asg_tag asg_tags (ASG_ORIG_MAX_CAPACITY_TAG cfg) in
  if desired_capacity =? asg_old_desired_capacity then
    if opt_truthy (get_Value asg_tag_desired_capacity)
       && opt_truthy (get_Value asg_tag_orig_capacity)
       && opt_truthy (get_Value asg_tag_orig_max_capacity)
    then
      d <- int_of_Value asg_tag_desired_capacity ;;
      o <- int_of_Value asg_tag_orig_capacity ;;
      m <- int_of_Value asg_tag_orig_max_capacity ;;
      ret (d, o, m)
    else
      save_asg_tags asg_name (ASG_ORIG_CAPACITY_TAG cfg) asg_old_desired_capacity ;;;
      save_asg_tags asg_name (ASG_DESIRED_STATE_TAG cfg) asg_old_desired_capacity ;;;
      save_asg_tags asg_name (ASG_ORIG_MAX_CAPACITY_TAG cfg) asg_old_max_size ;;;
      ret (asg_old_desired_capacity, asg_old_desired_capacity, asg_old_max_size)
  else
    let predictive := if use_asg_termination_policy then true else false in
    if opt_truthy (get_Value asg_tag_desired_capacity) then
      expected <- int_of_Value asg_tag_desired_capacity ;;
      validate_cluster_health asg_name expected cluster_name predictive "regular" ;;;
      d <- int_of_Value asg_tag_desired_capacity ;;
      o <- int_of_Value asg_tag_orig_capacity ;;
      m <- int_of_Value asg_tag_orig_max_capacity ;;
      ret (d, o, m)
    else
      save_asg_tags asg_name (ASG_ORIG_CAPACITY_TAG cfg) asg_old_desired_capacity ;;;
      save_asg_tags asg_name (ASG_DESIRED_STATE_TAG cfg) desired_capacity ;;;
      save_asg_tags asg_name (ASG_ORIG_MAX_CAPACITY_TAG cfg) asg_old_max_size ;;;
      scale_up_loop fuel asg_name cluster_name predictive batch_size desired_capacity
                    asg_old_max_size asg_old_desired_capacity None ;;;
      ret (desired_capacity, asg_old_desired_capacity, asg_old_max_size).

(** *** update_asgs *)

(** The name of the node of an instance: from [instance_to_node_cache] when
    the instance is there, else from [get_node_by_instance_id] over the given
    nodes, the result being cached. *)
Definition resolve_node_name (nodes : list Node) (instance_id : string) : M string :=
  s <- get_state ;;
  match instance_to_node_cache s !! instance_id with
  | Some node_name => ret node_name
  | None =>
      node_name <- get_node_by_instance_id (NodeList nodes) instance_id 3 5 ;;
      modify (fun s => set_cache (<[instance_id := node_name]> (instance_to_node_cache s)) s) ;;;
      ret node_name
  end.

Definition cordon_or_taint (node_name : string) : M unit :=
  if negb (TAINT_NODES cfg) then cordon_node node_name else taint_node node_name.

(** [in_worker_groups_order]: [any(group in asg_name for group in worker_groups_order)] *)
Definition in_worker_groups_order (asg_name : string) : bool :=
  existsb (fun group => str_in group asg_name) (K8S_WORKER_GROUPS_ORDER cfg).

(** Run mode 2: scale-up of every group of the plan. *)
Fixpoint scale_up_all (fuel : nat) (cluster_name : string)
    (items : list (string * (list Instance * Asg))) : M unit :=
  match items with
  | [] => ret tt
  | (asg_name, (outdated_instances, asg)) :: rest =>
      let outdated_instance_count := Z.of_nat (length outdated_instances) in
      state <- scale_up_asg fuel cluster_name asg outdated_instance_count ;;
      modify (fun s => set_asg_state_dict (<[asg_name := state]> (asg_state_dict s)) s) ;;;
      scale_up_all fuel cluster_name rest
  end.

(** Run modes 2 and 3: cordon or taint of the outdated nodes of every group
    in the worker group order; a node that is not found ends the process. *)
Fixpoint cordon_instances (k8s_nodes : list Node) (outdated_instances : list Instance) : M unit :=
  match outdated_instances with
  | [] => ret tt
  | outdated :: rest =>
      try_except
        (node_name <- resolve_node_name k8s_nodes (InstanceId outdated) ;;
         cordon_or_taint node_name)
        except_Exception
        (fun _ => sys_exit 1) ;;;
      cordon_instances k8s_nodes rest
  end.

Fixpoint cordon_all (k8s_nodes : list Node)
    (items : list (string * (list Instance * Asg))) : M unit :=
  match items with
  | [] => ret tt
  | (asg_name, (outdated_instances, asg)) :: rest =>
      (if negb (in_worker_groups_order asg_name) then ret tt
       else cordon_instances k8s_nodes outdated_instances) ;;;
      cordon_all k8s_nodes rest
  end.

(** The plan sorted by worker group order. *)
Definition sort_asgs (plan : list (string * (list Instance * Asg)))
  : list (string * (list Instance * Asg)) :=
  fold_left
    (fun sorted group =>
       fold_left (fun sorted item =>
                    if str_in group (fst item) then dict_set (fst item) (snd item) sorted
                    else sorted)
                 plan sorted)
    (K8S_WORKER_GROUPS_ORDER cfg) [].

(** Run modes 1 and 4: cordon or taint of the outdated nodes of one group; an
    instance found among the excluded nodes is passed over. *)
Fixpoint cordon_group (k8s_nodes k8s_excluded_nodes : list Node)
    (outdated_instances : list Instance) : M unit :=
  match outdated_instances with
  | [] => ret tt
  | outdated :: rest =>
      try_except
        (node_name <- resolve_node_name k8s_nodes (InstanceId outdated) ;;
         cordon_or_taint node_name)
        except_Exception
        (fun _ =>
           try_except
             (resolve_node_name k8s_excluded_nodes (InstanceId outdated) ;;; ret tt)
             except_Exception
             (fun _ => sys_exit 1)) ;;;
      cordon_group k8s_nodes k8s_excluded_nodes rest
  end.

(** [while running_updates >= parallel_nodes_count: time.sleep(10)] *)
Fixpoint wait_for_slot (fuel : nat) : M unit :=
  fun s =>
    if running_updates s >=? K8S_PARALLEL_NODES_COUNT cfg then
      match fuel with
      | O => out_of_fuel s
      | S fuel' => (sleep 10 ;;; wait_for_slot fuel') s
      end
    else ret tt s.

(** The [try] statement of the retirement loop, for one outdated instance. *)
Definition retire_instance (asg_name : string) (k8s_nodes k8s_excluded_nodes : list Node)
    (outdated : Instance) : M unit :=
  let use_asg_termination_policy := ASG_USE_TERMINATION_POLICY cfg in
  try_except
    (node_name <- resolve_node_name k8s_nodes (InstanceId outdated) ;;
     modify (fun s => set_desired_asg_capacity (desired_asg_capacity s - 1) s) ;;;
     drain_node node_name ;;;
     delete_node node_name ;;;
     s <- get_state ;;
     save_asg_tags asg_name (ASG_DESIRED_STATE_TAG cfg) (desired_asg_capacity s) ;;;
     if negb use_asg_termination_policy then
       terminate_instance_in_asg (InstanceId outdated) ;;;
       modify (fun s => set_running_updates (running_updates s + 1) s) ;;;
       let between_nodes_wait := BETWEEN_NODES_WAIT cfg in
       when (num_truthy between_nodes_wait) (sleep between_nodes_wait)
     else ret tt)
    except_Exception
    (fun drain_exception =>
       try_except
         (resolve_node_name k8s_excluded_nodes (InstanceId outdated) ;;; ret tt)
         except_all
         (fun _ => raise (RollingUpdateException "Rolling update on ASG failed" asg_name))).

Fixpoint retire_instances (fuel : nat) (asg_name : string)
    (k8s_nodes k8s_excluded_nodes : list Node) (outdated_instances : list Instance) : M unit :=
  match outdated_instances with
  | [] => ret tt
  | outdated :: rest =>
      wait_for_slot fuel ;;;
      retire_instance asg_name k8s_nodes k8s_excluded_nodes outdated ;;;
      retire_instances fuel asg_name k8s_nodes k8s_excluded_nodes rest
  end.

(** [asg_state_dict[asg_name]] *)
Definition lookup_asg_state (asg_name : string) : M (Z * Z * Z) :=
  s <- get_state ;;
  match asg_state_dict s !! asg_name with
  | Some state => ret state
  | None => raise (KeyError asg_name)
  end.

(** Drain, delete and terminate the outdated nodes of a group and return the
    group to its original state: the statements of the main loop from
    [if outdated_instances:] on. *)
Definition retire_group (fuel : nat) (k8s_nodes k8s_excluded_nodes : list Node)
    (asg_name : string) (outdated_instances : list Instance) : M unit :=
  let use_asg_termination_policy := ASG_USE_TERMINATION_POLICY cfg in
  when (negb (Nat.eqb (length outdated_instances) 0))
       (when (negb use_asg_termination_policy) (modify_aws_autoscaling asg_name "suspend")) ;;;
  state <- lookup_asg_state asg_name ;;
  modify (fun s => set_desired_asg_capacity (fst (fst state)) s) ;;;
  modify (set_running_updates 0) ;;;
  retire_instances fuel asg_name k8s_nodes k8s_excluded_nodes outdated_instances ;;;
  state <- lookup_asg_state asg_name ;;
  let asg_desired_capacity := fst (fst state) in
  let asg_orig_desired_capacity := snd (fst state) in
  let asg_orig_max_capacity := snd state in
  scale_asg asg_name asg_desired_capacity asg_orig_desired_capacity asg_orig_max_capacity ;;;
  when (negb use_asg_termination_policy) (modify_aws_autoscaling asg_name "resume") ;;;
  delete_asg_tags asg_name (ASG_DESIRED_STATE_TAG cfg) ;;;
  delete_asg_tags asg_name (ASG_ORIG_CAPACITY_TAG cfg) ;;;
  delete_asg_tags asg_name (ASG_ORIG_MAX_CAPACITY_TAG cfg).

(** The body of the main loop over the sorted plan. *)
Definition process_group (fuel : nat) (cluster_name : string)
    (k8s_nodes k8s_excluded_nodes : list Node)
    (item : string * (list Instance * Asg)) : M unit :=
  let run_mode := RUN_MODE cfg in
  let asg_name := fst item in
  let outdated_instances := fst (snd item) in
  let asg := snd (snd item) in
  let outdated_instance_count := Z.of_nat (length outdated_instances) in
  when ((run_mode =? 1) || (run_mode =? 3) || (run_mode =? 4))
       (state <- scale_up_asg fuel cluster_name asg outdated_instance_count ;;
        modify (fun s => set_asg_state_dict (<[asg_name := state]> (asg_state_dict s)) s)) ;;;
  when ((run_mode =? 1) || (run_mode =? 4))
       (cordon_group k8s_nodes k8s_excluded_nodes outdated_instances) ;;;
  retire_group fuel k8s_nodes k8s_excluded_nodes asg_name outdated_instances.

Fixpoint process_groups (fuel : nat) (cluster_name : string)
    (k8s_nodes k8s_excluded_nodes : list Node)
    (items : list (string * (list Instance * Asg))) : M unit :=
  match items with
  | [] => ret tt
  | item :: rest =>
      process_group fuel cluster_name k8s_nodes k8s_excluded_nodes item ;;;
      process_groups fuel cluster_name k8s_nodes k8s_excluded_nodes rest
  end.

(** [update_asgs]; [fuel] bounds every unbounded [while] loop. *)
Definition update_asgs (fuel : nat) (asgs : list Asg) (cluster_name : string) : M unit :=
  let run_mode := RUN_MODE cfg in
  modify (set_cache ∅) ;;;
  let asg_outdated_instance_dict :=
    if run_mode =? 4 then plan_asgs_older_nodes asgs else plan_asgs asgs in
  modify (set_asg_state_dict ∅) ;;;
  when (run_mode =? 2) (scale_up_all fuel cluster_name asg_outdated_instance_dict) ;;;
  listed <- get_k8s_nodes ;;
  let k8s_nodes := fst listed in
  let k8s_excluded_nodes := snd listed in
  when ((run_mode =? 2) || (run_mode =? 3)) (cordon_all k8s_nodes asg_outdated_instance_dict) ;;;
  let sorted_asg_outdated_instance_dict := sort_asgs asg_outdated_instance_dict in
  process_groups fuel cluster_name k8s_nodes k8s_excluded_nodes
                 sorted_asg_outdated_instance_dict.

(** [main]; the parsed arguments are [cluster_name] and [plan]. *)
Definition main (fuel : nat) (cluster_name : string) (plan : bool) : M unit :=
  if negb (e_kubectl env) then sys_exit 1
  else
    filtered_asgs <- get_asgs cluster_name ;;
    let run_mode := RUN_MODE cfg in
    if (plan || DRY_RUN cfg) && (run_mode =? 4) then
      let _ := plan_asgs_older_nodes filtered_asgs in ret tt
    else if plan || DRY_RUN cfg then
      let _ := plan_asgs filtered_asgs in ret tt
    else
      when (K8S_AUTOSCALER_ENABLED cfg) (modify_k8s_autoscaler "pause") ;;;
      try_except
        (update_asgs fuel filtered_asgs cluster_name ;;;
         when (K8S_AUTOSCALER_ENABLED cfg) (modify_k8s_autoscaler "resume"))
        except_Exception
        (fun e => sys_exit 1).

End Program.

(** * Specifications *)

(** ** The health validator, as the specification words it

    An attempt evaluates a list of checks in order and stops at the first one
    that fails; up to [attempts] attempts are made, each after a sleep of
    [wait]; the first attempt whose checks all pass ends the validation, and
    when no attempt is left the validation fails. *)
Fixpoint checks_pass (checks : list (M bool)) : M bool :=
  match checks with
  | [] => ret true
  | check :: rest => ok <- check ;; if ok then checks_pass rest else ret false
  end.

Fixpoint spec_validate (attempts : nat) (wait : Z) (checks : list (M bool)) : M unit :=
  match attempts with
  | O => raise (Exception "ASG healthcheck failed")
  | S n =>
      sleep wait ;;;
      ok <- checks_pass checks ;;
      if ok then ret tt else spec_validate n wait checks
  end.

(** A check on the nodes polls the listing of the nodes: it passes as soon
    as the counted nodes of a listing are accepted, and fails when its
    listings are used up; it sleeps [wait] after a listing that is not
    accepted. *)
Fixpoint poll_nodes (cfg : Config) (env : Env) (listings : nat) (wait : Z)
    (accept : list Node -> bool) : M bool :=
  match listings with
  | O => ret false
  | S n =>
      listed <- get_k8s_nodes cfg env ;;
      if accept (fst listed) then ret true
      else sleep wait ;;; poll_nodes cfg env n wait accept
  end.

(** The node reports a [Ready] condition with status ["True"]. *)
Definition reports_ready (node : Node) : bool :=
  existsb (fun c => String.eqb (fst c) "Ready" && String.eqb (snd c) "True") (conditions node).

Definition all_counted_nodes_ready (nodes : list Node) : bool :=
  forallb reports_ready nodes.

(** The four checks: (1) the group has reached the expected capacity, (2)
    all its instances report healthy, (3) the cluster has reached the
    expected node count: a listing has at least that many counted nodes, (4)
    all counted nodes report a [Ready] condition with status ["True"].  The
    specification leaves the number of listings of a node check open: it is
    taken from the settings, [GLOBAL_MAX_RETRY - 1] listings that are
    [GLOBAL_HEALTH_WAIT] apart. *)
Definition health_checks (cfg : Config) (env : Env) (asg_name : string) (expected : Z)
    (cluster_name : string) (predictive : bool) : list (M bool) :=
  let listings := Z.to_nat (GLOBAL_MAX_RETRY cfg - 1) in
  let wait := GLOBAL_HEALTH_WAIT cfg in
  [ is_asg_scaled env asg_name expected;
    is_asg_healthy env asg_name;
    (n <- count_all_cluster_instances env cluster_name predictive ;;
     poll_nodes cfg env listings wait (fun nodes => n <=? Z.of_nat (length nodes)));
    poll_nodes cfg env listings wait all_counted_nodes_ready ].

(** The readiness of the node is definite: it reports [Ready] as ["True"] or
    as ["False"], and not as both. *)
Definition definite_readiness (node : Node) : Prop :=
  reports_ready node = negb (existsb condition_not_ready (conditions node)).

(** ** Batch scaling, as the specification words it

    From capacity [C] to target [T] in batches of [B]: the intermediate
    capacities [C+B, C+2B, ...], the last one clipped to [T]. *)
Definition batch_targets (C B T : Z) : list Z :=
  map (fun k => Z.min (C + Z.of_nat k * B) T)
      (seq 1 (Z.to_nat ((T - C + B - 1) / B))).

(** The capacities that remain after [cur], [m] steps away from [T]. *)
Definition targets_from (B T cur : Z) (m : nat) : list Z :=
  map (fun k => Z.min (cur + Z.of_nat k * B) T) (seq 1 m).

(** Each capacity is set in turn (max size follows the capacity only when
    the capacity exceeds the original max size) and the cluster health is
    validated before the next capacity is set. *)
Fixpoint spec_scale_steps (cfg : Config) (env : Env) (asg_name cluster_name : string)
    (predictive : bool) (original_max current : Z) (targets : list Z) : M unit :=
  match targets with
  | [] => ret tt
  | target :: rest =>
      scale_asg asg_name current target
                (if target >? original_max then target else original_max) ;;;
      validate_cluster_health cfg env asg_name target cluster_name predictive "asg" ;;;
      spec_scale_steps cfg env asg_name cluster_name predictive original_max target rest
  end.

(** ** Kinds of calls *)

Definition is_scale_call (e : Event) : Prop :=
  match e with EvScaleAsg _ _ _ _ => True | _ => False end.

Definition scale_calls (es : list Event) : list Event :=
  List.filter (fun e => match e with EvScaleAsg _ _ _ _ => true | _ => false end) es.

(** The calls of the drain, delete and terminate phase. *)
Definition is_retirement_call (e : Event) : Prop :=
  match e with
  | EvListPods _ | EvEvict _ _ | EvDeleteNode _ _ | EvTerminate _ => True
  | _ => False
  end.

Definition retirement_calls (es : list Event) : list Event :=
  List.filter (fun e => match e with
                        | EvListPods _ | EvEvict _ _ | EvDeleteNode _ _ | EvTerminate _ => true
                        | _ => false
                        end) es.



(** The patch that marks a node unschedulable: a taint when [TAINT_NODES] is
    set, a cordon otherwise. *)
Definition cordon_patch (cfg : Config) : NodePatch :=
  if TAINT_NODES cfg then NoScheduleTaint else Unschedulable.

(** The calls made between two states of a run, oldest first. *)
Definition calls_between (s s' : State) : list Event :=
  rev (take (length (trace s') - length (trace s)) (trace s')).

(** ** The original state of a group

    A group that carries the state tags of an earlier run is resumed: its
    original capacity and max size are the recorded ones.  Otherwise they are
    those of the snapshot. *)
Definition tag_int (env : Env) (asg : Asg) (key : string) : option Z :=
  get_Value (e_get_asg_tag env (Tags asg) key) ≫= int_of_str.

Definition tag_set (env : Env) (asg : Asg) (key : string) : bool :=
  opt_truthy (get_Value (e_get_asg_tag env (Tags asg) key)).

Definition resumed (cfg : Config) (env : Env) (asg : Asg) (outdated_count : Z) : bool :=
  if outdated_count =? 0
  then tag_set env asg (ASG_DESIRED_STATE_TAG cfg)
       && tag_set env asg (ASG_ORIG_CAPACITY_TAG cfg)
       && tag_set env asg (ASG_ORIG_MAX_CAPACITY_TAG cfg)
  else tag_set env asg (ASG_DESIRED_STATE_TAG cfg).

Definition original_state (cfg : Config) (env : Env) (asg : Asg) (outdated_count : Z)
  : option (Z * Z) :=
  if resumed cfg env asg outdated_count then
    o ← tag_int env asg (ASG_ORIG_CAPACITY_TAG cfg);
    m ← tag_int env asg (ASG_ORIG_MAX_CAPACITY_TAG cfg);
    Some (o, m)
  else Some (DesiredCapacity asg, MaxSize asg).

(** * Concrete inputs *)

(** A [get_asg_tag] that returns the first tag with the given key. *)
Definition lookup_tag (tags : list Tag) (tag_name : string) : TagDict :=
  find (fun tag => String.eqb (Key tag) tag_name) tags.

Definition node_a : Node :=
  mkNode "node-a" (Some "aws:///eu-west-1a/i-0a") [] [("Ready", "True")].
Definition node_b : Node :=
  mkNode "node-b" (Some "aws:///eu-west-1a/i-0b") [] [("Ready", "True")].
Definition node_x : Node :=
  mkNode "node-x" (Some "aws:///eu-west-1a/i-0x") ["excluded"] [("Ready", "True")].

(** A node whose readiness is unknown (its kubelet has stopped reporting). *)
Definition node_lost : Node :=
  mkNode "node-b" (Some "aws:///eu-west-1a/i-0b") [] [("Ready", "Unknown")].

Definition example_cfg (run_mode parallel retry batch : Z) (policy : bool) : Config :=
  {| RUN_MODE := run_mode; DRY_RUN := false; ASG_USE_TERMINATION_POLICY := policy;
     K8S_WORKER_GROUPS_ORDER := ["workers"]; K8S_PARALLEL_NODES_COUNT := parallel;
     CLUSTER_HEALTH_RETRY := retry; CLUSTER_HEALTH_WAIT := 1;
     GLOBAL_MAX_RETRY := 2; GLOBAL_HEALTH_WAIT := 1;
     BATCH_SIZE := batch; BETWEEN_NODES_WAIT := 0; TAINT_NODES := false;
     EXCLUDE_NODE_LABEL_KEYS := Some ["excluded"];
     K8S_AUTOSCALER_ENABLED := true; K8S_AUTOSCALER_REPLICAS := 1;
     ASG_DESIRED_STATE_TAG := "desired"; ASG_ORIG_CAPACITY_TAG := "orig";
     ASG_ORIG_MAX_CAPACITY_TAG := "orig_max" |}.

(** A healthy cloud and cluster; [evict_ok] tells which pods can be evicted
    and [asgs] is what [get_asgs] returns. *)
Definition example_env (evict_ok : string -> bool) (asgs : list Asg) : Env :=
  {| e_get_asg_tag := lookup_tag;
     e_is_asg_scaled := fun _ _ _ => true;
     e_is_asg_healthy := fun _ _ => true;
     e_count_all_cluster_instances := fun _ _ _ => 2;
     e_terminate_instance_in_asg := fun _ _ => true;
     e_get_asgs := fun _ _ => asgs;
     e_outdated := Instances;
     e_older := Instances;
     e_list_node := fun _ => [node_a; node_b; node_x];
     e_list_pods := fun _ node => Some [mkPod ("app-on-" +:+ node) "default" ["ReplicaSet"]];
     e_evict := fun _ pod _ => evict_ok pod;
     e_read_deployment := fun _ => Deployment (Some 1);
     e_patch_deployment := fun _ => true;
     e_kubectl := true |}.

Definition all_evictable : string -> bool := fun _ => true.

(** Two outdated instances; without tags, with the tags of an interrupted
    run, and with the desired-capacity tag only. *)
Definition asg_fresh : Asg :=
  mkAsg "workers-a" 2 2 [] [mkInstance "i-0a"; mkInstance "i-0b"].
Definition asg_resumed : Asg :=
  mkAsg "workers-a" 4 4 [mkTag "desired" "4"; mkTag "orig" "2"; mkTag "orig_max" "2"]
        [mkInstance "i-0a"; mkInstance "i-0b"].
Definition asg_partial : Asg :=
  mkAsg "workers-a" 4 4 [mkTag "desired" "4"] [mkInstance "i-0a"; mkInstance "i-0b"].

(** A group whose name is outside the worker group order. *)
Definition asg_system : Asg := mkAsg "system" 2 2 [] [mkInstance "i-0a"].
Definition cloud_system : State := initial_state {[ "system" := mkGroup 2 2 ∅ ]}.

Definition cloud_fresh : State := initial_state {[ "workers-a" := mkGroup 2 2 ∅ ]}.
Definition cloud_resumed : State :=
  initial_state
    {[ "workers-a" :=
         mkGroup 4 4 (<["desired" := "4"]> (<["orig" := "2"]> (<["orig_max" := "2"]> ∅))) ]}.
Definition cloud_partial : State :=
  initial_state {[ "workers-a" := mkGroup 4 4 (<["desired" := "4"]> ∅) ]}.

(** The configuration with another [GLOBAL_MAX_RETRY], and with another worker
    group order. *)
Definition set_global_max_retry (n : Z) (cfg : Config) : Config :=
  {| RUN_MODE := RUN_MODE cfg; DRY_RUN := DRY_RUN cfg;
     ASG_USE_TERMINATION_POLICY := ASG_USE_TERMINATION_POLICY cfg;
     K8S_WORKER_GROUPS_ORDER := K8S_WORKER_GROUPS_ORDER cfg;
     K8S_PARALLEL_NODES_COUNT := K8S_PARALLEL_NODES_COUNT cfg;
     CLUSTER_HEALTH_RETRY := CLUSTER_HEALTH_RETRY cfg;
     CLUSTER_HEALTH_WAIT := CLUSTER_HEALTH_WAIT cfg;
     GLOBAL_MAX_RETRY := n; GLOBAL_HEALTH_WAIT := GLOBAL_HEALTH_WAIT cfg;
     BATCH_SIZE := BATCH_SIZE cfg; BETWEEN_NODES_WAIT := BETWEEN_NODES_WAIT cfg;
     TAINT_NODES := TAINT_NODES cfg;
     EXCLUDE_NODE_LABEL_KEYS := EXCLUDE_NODE_LABEL_KEYS cfg;
     K8S_AUTOSCALER_ENABLED := K8S_AUTOSCALER_ENABLED cfg;
     K8S_AUTOSCALER_REPLICAS := K8S_AUTOSCALER_REPLICAS cfg;
     ASG_DESIRED_STATE_TAG := ASG_DESIRED_STATE_TAG cfg;
     ASG_ORIG_CAPACITY_TAG := ASG_ORIG_CAPACITY_TAG cfg;
     ASG_ORIG_MAX_CAPACITY_TAG := ASG_ORIG_MAX_CAPACITY_TAG cfg |}.

Definition set_worker_groups_order (order : list string) (cfg : Config) : Config :=
  {| RUN_MODE := RUN_MODE cfg; DRY_RUN := DRY_RUN cfg;
     ASG_USE_TERMINATION_POLICY := ASG_USE_TERMINATION_POLICY cfg;
     K8S_WORKER_GROUPS_ORDER := order;
     K8S_PARALLEL_NODES_COUNT := K8S_PARALLEL_NODES_COUNT cfg;
     CLUSTER_HEALTH_RETRY := CLUSTER_HEALTH_RETRY cfg;
     CLUSTER_HEALTH_WAIT := CLUSTER_HEALTH_WAIT cfg;
     GLOBAL_MAX_RETRY := GLOBAL_MAX_RETRY cfg; GLOBAL_HEALTH_WAIT := GLOBAL_HEALTH_WAIT cfg;
     BATCH_SIZE := BATCH_SIZE cfg; BETWEEN_NODES_WAIT := BETWEEN_NODES_WAIT cfg;
     TAINT_NODES := TAINT_NODES cfg;
     EXCLUDE_NODE_LABEL_KEYS := EXCLUDE_NODE_LABEL_KEYS cfg;
     K8S_AUTOSCALER_ENABLED := K8S_AUTOSCALER_ENABLED cfg;
     K8S_AUTOSCALER_REPLICAS := K8S_AUTOSCALER_REPLICAS cfg;
     ASG_DESIRED_STATE_TAG := ASG_DESIRED_STATE_TAG cfg;
     ASG_ORIG_CAPACITY_TAG := ASG_ORIG_CAPACITY_TAG cfg;
     ASG_ORIG_MAX_CAPACITY_TAG := ASG_ORIG_MAX_CAPACITY_TAG cfg |}.

(** The cloud and cluster [env] with another listing of the nodes, and with
    another answer of the autoscaler deployment. *)
Definition with_nodes (nodes : nat -> list Node) (env : Env) : Env :=
  {| e_get_asg_tag := e_get_asg_tag env;
     e_is_asg_scaled := e_is_asg_scaled env;
     e_is_asg_healthy := e_is_asg_healthy env;
     e_count_all_cluster_instances := e_count_all_cluster_instances env;
     e_terminate_instance_in_asg := e_terminate_instance_in_asg env;
     e_get_asgs := e_get_asgs env;
     e_outdated := e_outdated env;
     e_older := e_older env;
     e_list_node := nodes;
     e_list_pods := e_list_pods env;
     e_evict := e_evict env;
     e_read_deployment := e_read_deployment env;
     e_patch_deployment := e_patch_deployment env;
     e_kubectl := e_kubectl env |}.



(** The state after [n] more sleeps of ten seconds. *)
Definition sleeps (n : nat) (s : State) : State :=
  set_clock (n + clock s) (set_trace (repeat (EvSleep 10) n ++ trace s) s).

(** * Reasoning about computations *)

(** One step of symbolic execution: a computation applied to a state is
    replaced by its outcome. *)
Ltac mstep :=
  match goal with
  | H : ?x = _ |- context [let (_, _) := ?x in _] => rewrite H
  | |- context [let (_, _) := ?x in _] =>
      lazymatch x with
      | (let (_, _) := _ in _) => fail
      | _ => destruct x as [[?|?|] ?] eqn:?
      end
  | |- context [if ?b then _ else _] => is_var b; destruct b
  | |- context [if negb ?b then _ else _] => is_var b; destruct b
  end.

Ltac msteps := repeat (mstep; cbn [negb]; cbv beta iota).

Ltac mdone := unfold ret, raise, out_of_fuel in *; simplify_eq; try reflexivity.

(** [frame P T D]: what a computation may do to the state: it logs calls
    that satisfy [P], adds entries to the node-name cache, touches the groups
    of the names in [T] only and the recorded group states of the names in
    [D] only. *)
Record frame (P : Event -> Prop) (T D : string -> Prop) (s s' : State) : Prop := mkFrame {
  fr_trace : exists es, trace s' = es ++ trace s /\ Forall P es;
  fr_cache : forall i n, instance_to_node_cache s !! i = Some n ->
                         instance_to_node_cache s' !! i = Some n;
  fr_groups : forall g, ~ T g -> groups s' !! g = groups s !! g;
  fr_dict : forall g, ~ D g -> asg_state_dict s' !! g = asg_state_dict s !! g
}.

(** [quiet P]: the computation only logs calls that satisfy [P]. *)
Record quiet (P : Event -> Prop) (s s' : State) : Prop := mkQuiet {
  q_trace : exists es, trace s' = es ++ trace s /\ Forall P es;
  q_groups : groups s' = groups s;
  q_cache : instance_to_node_cache s' = instance_to_node_cache s;
  q_dict : asg_state_dict s' = asg_state_dict s;
  q_desired : desired_asg_capacity s' = desired_asg_capacity s;
  q_running : running_updates s' = running_updates s
}.

(** [preserves R m]: every run of [m], whatever its outcome, relates the
    state before to the state after. *)
Definition preserves {A} (R : State -> State -> Prop) (m : M A) : Prop :=
  forall s, R s (snd (m s)).

(** The calls of a health validation. *)
Definition is_health_call (e : Event) : Prop :=
  match e with
  | EvSleep _ | EvIsAsgScaled _ _ | EvIsAsgHealthy _ | EvCountInstances _ _ | EvListNode => True
  | _ => False
  end.

Definition any_call (e : Event) : Prop := True.

(** [extends s s']: the log of [s'] continues the log of [s];
    [emitted s s' e]: the call [e] was made between [s] and [s']. *)
Definition extends (s s' : State) : Prop :=
  exists es, trace s' = es ++ trace s.

Definition emitted (s s' : State) (e : Event) : Prop :=
  exists es, trace s' = es ++ trace s /\ In e es.

(** The group [name] is back at capacity [o] and max size [m], without any
    of the three state tags. *)
Definition group_restored (cfg : Config) (s : State) (name : string) (o m : Z) : Prop :=
  exists g, groups s !! name = Some g
    /\ g_desired g = o /\ g_max g = m
    /\ g_tags g !! ASG_DESIRED_STATE_TAG cfg = None
    /\ g_tags g !! ASG_ORIG_CAPACITY_TAG cfg = None
    /\ g_tags g !! ASG_ORIG_MAX_CAPACITY_TAG cfg = None.

(** The original states recorded in [asg_state_dict] are those of the plan. *)
Definition dict_justified (cfg : Config) (env : Env)
    (plan : list (string * (list Instance * Asg))) (s : State) : Prop :=
  forall name state outs asg,
    asg_state_dict s !! name = Some state ->
    In (name, (outs, asg)) plan ->
    original_state cfg env asg (Z.of_nat (length outs)) = Some (snd (fst state), snd state).

(** The plan of a run. *)
Definition plan_of (cfg : Config) (env : Env) (asgs : list Asg)
  : list (string * (list Instance * Asg)) :=
  if RUN_MODE cfg =? 4 then plan_asgs_older_nodes env asgs else plan_asgs env asgs.

(** [lenient m]: [m] always returns or raises an [Exception]: it neither
    exits the process nor runs out of fuel. *)
Definition lenient {A} (m : M A) : Prop :=
  forall s, match fst (m s) with
            | Ret _ => True
            | Raise e => is_Exception e = true
            | OutOfFuel => False
            end.

(** The included nodes of a listing: those without any excluded label key. *)
Definition included_nodes (cfg : Config) (items : list Node) : list Node :=
  match EXCLUDE_NODE_LABEL_KEYS cfg with
  | Some keys => List.filter (node_included keys) items
  | None => items
  end.

(** [raises_only P m]: every exception that [m] raises satisfies [P]. *)
Definition raises_only {A} (P : Exn -> Prop) (m : M A) : Prop :=
  forall s e, fst (m s) = Raise e -> P e.

(** An [Exception], or the exit of the process with status 1. *)
Definition exception_or_exit_1 (e : Exn) : Prop :=
  is_Exception e = true \/ e = SystemExit 1.

Lemma frame_refl P T D s : frame P T D s s.
Proof. split; auto. exists []. split; [reflexivity | constructor]. Qed.

Lemma frame_trans P T D s1 s2 s3 :
  frame P T D s1 s2 -> frame P T D s2 s3 -> frame P T D s1 s3.
Proof.
  intros [[es1 [E1 F1]] C1 G1 X1] [[es2 [E2 F2]] C2 G2 X2]. split.
  - exists (es2 ++ es1). split.
    + rewrite E2, E1. now rewrite app_assoc.
    + apply Forall_app; auto.
  - auto.
  - intros g Hg. rewrite G2, G1; auto.
  - intros g Hg. rewrite X2, X1; auto.
Qed.

Lemma frame_weaken (P Q : Event -> Prop) (T U D E : string -> Prop) s s' :
  (forall e, P e -> Q e) -> (forall g, T g -> U g) -> (forall g, D g -> E g) ->
  frame P T D s s' -> frame Q U E s s'.
Proof.
  intros HP HT HD [[es [Et F]] C G Dd]. split; auto.
  exists es. split; auto. eapply Forall_impl; eauto.
Qed.

Section Preserves.
Context (R : State -> State -> Prop) (Rrefl : forall s, R s s)
        (Rtrans : forall s1 s2 s3, R s1 s2 -> R s2 s3 -> R s1 s3).

Lemma pres_ret {A} (a : A) : preserves R (ret a).
Proof. intros s. apply Rrefl. Qed.

Lemma pres_raise {A} e : preserves R (@raise A e).
Proof. intros s. apply Rrefl. Qed.

Lemma pres_out_of_fuel {A} : preserves R (@out_of_fuel A).
Proof. intros s. apply Rrefl. Qed.

Lemma pres_get_state : preserves R get_state.
Proof. intros s. apply Rrefl. Qed.

Lemma pres_bind {A B} (m : M A) (f : A -> M B) :
  preserves R m -> (forall a, preserves R (f a)) -> preserves R (bind m f).
Proof.
  intros Hm Hf s. unfold bind. specialize (Hm s).
  destruct (m s) as [[a|e|] s1]; simpl in *; auto.
  eapply Rtrans; [exact Hm | apply Hf].
Qed.

Lemma pres_try {A} (m : M A) c h :
  preserves R m -> (forall e, preserves R (h e)) -> preserves R (try_except m c h).
Proof.
  intros Hm Hh s. unfold try_except. specialize (Hm s).
  destruct (m s) as [[a|e|] s1]; simpl in *; auto.
  destruct (c e); simpl; auto.
  eapply Rtrans; [exact Hm | apply Hh].
Qed.

Lemma pres_when c m : preserves R m -> preserves R (when c m).
Proof. intros Hm. destruct c; simpl; auto using pres_ret. Qed.

End Preserves.

(** ** Frames of the operations *)

Lemma quiet_refl P s : quiet P s s.
Proof. split; auto. exists []. split; [reflexivity | constructor]. Qed.

Lemma quiet_trans P s1 s2 s3 : quiet P s1 s2 -> quiet P s2 s3 -> quiet P s1 s3.
Proof.
  intros [[es1 [E1 F1]] G1 C1 D1 X1 Y1] [[es2 [E2 F2]] G2 C2 D2 X2 Y2].
  split; try congruence.
  exists (es2 ++ es1). split.
  - rewrite E2, E1. now rewrite app_assoc.
  - apply Forall_app; auto.
Qed.

Lemma quiet_frame P T D s s' : quiet P s s' -> frame P T D s s'.
Proof.
  intros [Ht Hg Hc Hd _ _]. split; auto.
  - intros i n. now rewrite Hc.
  - intros g _. now rewrite Hg.
  - intros g _. now rewrite Hd.
Qed.

Lemma quiet_weaken (P Q : Event -> Prop) s s' :
  (forall e, P e -> Q e) -> quiet P s s' -> quiet Q s s'.
Proof.
  intros HP [[es [E F]] G C D X Y]. split; auto.
  exists es. split; auto. eapply Forall_impl; eauto.
Qed.

Lemma pres_impl {A} (R R' : State -> State -> Prop) (m : M A) :
  (forall s s', R s s' -> R' s s') -> preserves R m -> preserves R' m.
Proof. intros H Hm s. apply H, Hm. Qed.

Lemma quiet_emit (P : Event -> Prop) e : P e -> preserves (quiet P) (emit e).
Proof.
  intros He s. split; simpl; auto.
  exists [e]. split; [reflexivity | repeat constructor; exact He].
Qed.

Lemma frame_emit (P : Event -> Prop) T D e : P e -> preserves (frame P T D) (emit e).
Proof. intros He. eapply pres_impl; [apply quiet_frame | apply quiet_emit, He]. Qed.

Lemma frame_update_group P (T D : string -> Prop) asg_name f :
  T asg_name -> preserves (frame P T D) (update_group asg_name f).
Proof.
  intros HT s. unfold update_group.
  destruct (groups s !! asg_name) as [g|] eqn:E; simpl.
  2: apply frame_refl.
  split; simpl; auto.
  - exists []. split; [reflexivity | constructor].
  - intros g' Hg'. apply lookup_insert_ne. intros ->. contradiction.
Qed.

Lemma frame_modify_counter P T D (f : State -> State) :
  (forall s, trace (f s) = trace s /\ groups (f s) = groups s /\
             asg_state_dict (f s) = asg_state_dict s /\
             instance_to_node_cache (f s) = instance_to_node_cache s) ->
  preserves (frame P T D) (modify f).
Proof.
  intros Hf s. destruct (Hf s) as (Ht & Hg & Hd & Hc). split; simpl.
  - exists []. split; [exact Ht | constructor].
  - intros i n. now rewrite Hc.
  - intros g _. now rewrite Hg.
  - intros g _. now rewrite Hd.
Qed.

Create HintDb frames.

Ltac rel_trans :=
  first [ exact (frame_trans _ _ _) | exact (quiet_trans _) ].
Ltac rel_refl :=
  first [ exact (frame_refl _ _ _) | exact (quiet_refl _) ].

(** Proves that a computation built from framed parts is framed. *)
Ltac frame_step :=
  lazymatch goal with
  | |- preserves _ (bind _ _) => apply pres_bind; [rel_trans | | intros ?]
  | |- preserves _ (try_except _ _ _) => apply pres_try; [rel_trans | | intros ?]
  | |- preserves _ (when _ _) => apply pres_when; [rel_refl | ]
  | |- preserves _ (ret _) => apply pres_ret; rel_refl
  | |- preserves _ (raise _) => apply pres_raise; rel_refl
  | |- preserves _ (sys_exit _) => apply pres_raise; rel_refl
  | |- preserves _ out_of_fuel => apply pres_out_of_fuel; rel_refl
  | |- preserves _ get_state => apply pres_get_state; rel_refl
  | |- preserves (quiet _) (emit _) => apply quiet_emit
  | |- preserves (quiet _) (sleep _) => apply quiet_emit
  | |- preserves (frame _ _ _) (emit _) => apply frame_emit
  | |- preserves (frame _ _ _) (sleep _) => apply frame_emit
  | |- preserves _ (ask _ _) => unfold ask
  | |- preserves _ (update_group _ _) => apply frame_update_group
  | |- preserves _ (if ?b then _ else _) => destruct b
  | |- preserves _ (match ?x with _ => _ end) => destruct x
  | |- preserves _ (let _ := _ in _) => cbv zeta
  end.

Ltac frame_auto :=
  repeat first [ frame_step
               | solve [eauto with frames]
               | match goal with
                 | H : forall e, _ -> ?P e |- ?P _ => apply H; exact I
                 end
               | exact I ].

Section Quiet.
Context (cfg : Config) (env : Env).
Context (P : Event -> Prop).

(** *** The health validation only makes health calls *)

Section Health.
Context (HP : forall e, is_health_call e -> P e).

Lemma q_get_k8s_nodes : preserves (quiet P) (get_k8s_nodes cfg env).
Proof. unfold get_k8s_nodes. frame_auto. Qed.
Hint Resolve q_get_k8s_nodes : frames.

Lemma q_k8s_nodes_ready_loop fuel max_retry wait rc h :
  preserves (quiet P) (k8s_nodes_ready_loop cfg env fuel max_retry wait rc h).
Proof.
  revert rc h. induction fuel as [|fuel IH]; intros rc h; simpl; frame_auto.
Qed.

Lemma q_k8s_nodes_ready : preserves (quiet P) (k8s_nodes_ready cfg env).
Proof. apply q_k8s_nodes_ready_loop. Qed.

Lemma q_k8s_nodes_count_loop fuel d max_retry wait rc h :
  preserves (quiet P) (k8s_nodes_count_loop cfg env fuel d max_retry wait rc h).
Proof.
  revert rc h. induction fuel as [|fuel IH]; intros rc h; simpl; frame_auto.
Qed.

Lemma q_k8s_nodes_count d : preserves (quiet P) (k8s_nodes_count cfg env d).
Proof. apply q_k8s_nodes_count_loop. Qed.
Hint Resolve q_k8s_nodes_ready q_k8s_nodes_count : frames.

Lemma q_is_asg_scaled n c : preserves (quiet P) (is_asg_scaled env n c).
Proof. unfold is_asg_scaled. frame_auto. Qed.

Lemma q_is_asg_healthy n : preserves (quiet P) (is_asg_healthy env n).
Proof. unfold is_asg_healthy. frame_auto. Qed.

Lemma q_count_all_cluster_instances c p :
  preserves (quiet P) (count_all_cluster_instances env c p).
Proof. unfold count_all_cluster_instances. frame_auto. Qed.
Hint Resolve q_is_asg_scaled q_is_asg_healthy q_count_all_cluster_instances : frames.

Lemma q_validate_cluster_health_loop fuel n c cl p rc :
  preserves (quiet P) (validate_cluster_health_loop cfg env fuel n c cl p rc).
Proof.
  revert rc. induction fuel as [|fuel IH]; intros rc; simpl; frame_auto.
Qed.

Lemma q_validate_cluster_health n c cl p k :
  preserves (quiet P) (validate_cluster_health cfg env n c cl p k).
Proof. apply q_validate_cluster_health_loop. Qed.

Lemma q_get_node_by_instance_id_loop fuel nodes i retries delay attempt :
  preserves (quiet P) (get_node_by_instance_id_loop cfg env fuel nodes i retries delay attempt).
Proof.
  revert nodes attempt. induction fuel as [|fuel IH]; intros nodes attempt; simpl.
  - frame_auto.
  - unfold warn_provider_ids. frame_auto.
Qed.

Lemma q_get_node_by_instance_id nodes i retries delay :
  preserves (quiet P) (get_node_by_instance_id cfg env nodes i retries delay).
Proof. apply q_get_node_by_instance_id_loop. Qed.

End Health.

End Quiet.

Lemma any_call_holds e : any_call e.
Proof. exact I. Qed.

Lemma health_is_any e : is_health_call e -> any_call e.
Proof. intros _. exact I. Qed.

#[global] Hint Resolve any_call_holds health_is_any : frames.
#[global] Hint Resolve q_get_k8s_nodes q_k8s_nodes_ready q_k8s_nodes_count q_is_asg_scaled
  q_is_asg_healthy q_count_all_cluster_instances q_validate_cluster_health
  q_get_node_by_instance_id : frames.

Lemma quiet_to_frame {A} P T D (m : M A) :
  preserves (quiet P) m -> preserves (frame P T D) m.
Proof. apply pres_impl, quiet_frame. Qed.

Section ProgramFrames.
Context (cfg : Config) (env : Env).

Lemma q_modify_aws_autoscaling n a : preserves (quiet any_call) (modify_aws_autoscaling n a).
Proof. unfold modify_aws_autoscaling. frame_auto. Qed.

Lemma q_terminate_instance_in_asg i :
  preserves (quiet any_call) (terminate_instance_in_asg env i).
Proof. unfold terminate_instance_in_asg. frame_auto. Qed.

Lemma q_delete_node n : preserves (quiet any_call) (delete_node cfg n).
Proof. unfold delete_node. frame_auto. Qed.

Lemma q_cordon_or_taint n : preserves (quiet any_call) (cordon_or_taint cfg n).
Proof. unfold cordon_or_taint, cordon_node, taint_node. frame_auto. Qed.

Lemma q_evict_pods pods : preserves (quiet any_call) (evict_pods env pods).
Proof. induction pods as [|pod pods IH]; simpl; frame_auto. Qed.

Lemma q_drain_node n : preserves (quiet any_call) (drain_node env n).
Proof. unfold drain_node. frame_auto. apply q_evict_pods. Qed.

Lemma q_int_of_Value P d : preserves (quiet P) (int_of_Value d).
Proof. unfold int_of_Value. frame_auto. Qed.

Lemma q_wait_for_slot fuel : preserves (quiet any_call) (wait_for_slot cfg fuel).
Proof.
  induction fuel as [|fuel IH]; intros s; simpl.
  - destruct (_ >=? _); apply quiet_refl.
  - destruct (_ >=? _); [|apply quiet_refl].
    assert (H : preserves (quiet any_call) (sleep 10 ;;; wait_for_slot cfg fuel))
      by frame_auto.
    apply H.
Qed.

Context (T D : string -> Prop).
Local Notation "'framed' m" := (preserves (frame any_call T D) m) (at level 10, m at level 9).

Lemma f_quiet {A} (m : M A) : preserves (quiet any_call) m -> framed m.
Proof. apply quiet_to_frame. Qed.

Lemma f_save_asg_tags n k v : T n -> framed (save_asg_tags n k v).
Proof. intros. unfold save_asg_tags. frame_auto. Qed.

Lemma f_delete_asg_tags n k : T n -> framed (delete_asg_tags n k).
Proof. intros. unfold delete_asg_tags. frame_auto. Qed.

Lemma f_scale_asg n c d m : T n -> framed (scale_asg n c d m).
Proof. intros. unfold scale_asg. frame_auto. Qed.

Hint Resolve f_save_asg_tags f_delete_asg_tags f_scale_asg : frames.

Lemma f_validate n c cl p k : framed (validate_cluster_health cfg env n c cl p k).
Proof. apply f_quiet. auto with frames. Qed.

Lemma f_modify_aws_autoscaling n a : framed (modify_aws_autoscaling n a).
Proof. apply f_quiet, q_modify_aws_autoscaling. Qed.

Lemma f_int_of_Value d : framed (int_of_Value d).
Proof. apply f_quiet, q_int_of_Value. Qed.

Hint Resolve f_validate f_modify_aws_autoscaling f_int_of_Value : frames.

Lemma f_scale_up_loop fuel n cl p b d m o c :
  T n -> framed (scale_up_loop cfg env fuel n cl p b d m o c).
Proof.
  intros HT. revert o c. induction fuel as [|fuel IH]; intros o c; simpl; frame_auto.
Qed.
Hint Resolve f_scale_up_loop : frames.

Lemma f_scale_up_asg fuel cl asg count :
  T (AutoScalingGroupName asg) -> framed (scale_up_asg cfg env fuel cl asg count).
Proof. intros HT. unfold scale_up_asg. frame_auto. Qed.

End ProgramFrames.

(** ** Termination: a computation that never runs out of fuel *)

Lemma returns_bind {A B} (m : M A) (f : A -> M B) s :
  fst (m s) <> OutOfFuel -> (forall a s1, fst (f a s1) <> OutOfFuel) ->
  fst (bind m f s) <> OutOfFuel.
Proof.
  intros Hm Hf. unfold bind. destruct (m s) as [[a|e|] s1]; simpl in *; auto.
Qed.

Section Termination.
Context (cfg : Config) (env : Env).

Lemma get_k8s_nodes_returns s : exists l s', get_k8s_nodes cfg env s = (Ret l, s').
Proof.
  unfold get_k8s_nodes, ask, bind, get_state, emit, modify, ret.
  destruct (EXCLUDE_NODE_LABEL_KEYS cfg); eauto.
Qed.

Lemma k8s_nodes_ready_loop_returns fuel max_retry wait :
  forall rc h s, (Z.to_nat (max_retry - rc) <= fuel)%nat ->
    fst (k8s_nodes_ready_loop cfg env fuel max_retry wait rc h s) <> OutOfFuel.
Proof.
  induction fuel as [|fuel IH]; intros rc h s Hf; simpl.
  - destruct (Z.ltb_spec rc max_retry); [lia | discriminate].
  - destruct (Z.ltb_spec rc max_retry); [|discriminate].
    unfold bind. destruct (get_k8s_nodes_returns s) as (l & s1 & ->).
    destruct (all_nodes_healthy (fst l)); [discriminate|].
    unfold sleep, emit, modify. apply IH. lia.
Qed.

Lemma k8s_nodes_ready_returns s : fst (k8s_nodes_ready cfg env s) <> OutOfFuel.
Proof. apply k8s_nodes_ready_loop_returns. lia. Qed.

Lemma k8s_nodes_count_loop_returns fuel d max_retry wait :
  forall rc h s, (Z.to_nat (max_retry - rc) <= fuel)%nat ->
    fst (k8s_nodes_count_loop cfg env fuel d max_retry wait rc h s) <> OutOfFuel.
Proof.
  induction fuel as [|fuel IH]; intros rc h s Hf; simpl.
  - destruct (Z.ltb_spec rc max_retry); [lia | discriminate].
  - destruct (Z.ltb_spec rc max_retry); [|discriminate].
    unfold bind. destruct (get_k8s_nodes_returns s) as (l & s1 & ->).
    destruct (_ <? d); [|discriminate].
    unfold sleep, emit, modify. apply IH. lia.
Qed.

Lemma k8s_nodes_count_returns d s : fst (k8s_nodes_count cfg env d s) <> OutOfFuel.
Proof. apply k8s_nodes_count_loop_returns. lia. Qed.

Lemma validate_cluster_health_loop_returns n c cl p :
  forall fuel rc s, (Z.to_nat (CLUSTER_HEALTH_RETRY cfg - rc) <= fuel)%nat ->
    fst (validate_cluster_health_loop cfg env fuel n c cl p rc s) <> OutOfFuel.
Proof.
  induction fuel as [|fuel IH]; intros rc s Hf; simpl.
  - destruct (Z.ltb_spec rc (CLUSTER_HEALTH_RETRY cfg)); [lia | discriminate].
  - destruct (Z.ltb_spec rc (CLUSTER_HEALTH_RETRY cfg)); [|discriminate].
    assert (Hrec : forall s', fst (validate_cluster_health_loop cfg env fuel n c cl p (rc + 1) s')
                              <> OutOfFuel) by (intros; apply IH; lia).
    apply returns_bind; [discriminate | intros _ s1].
    apply returns_bind; [discriminate | intros scaled s2].
    destruct scaled; simpl; [|apply Hrec].
    apply returns_bind; [discriminate | intros healthy s3].
    destruct healthy; simpl; [|apply Hrec].
    apply returns_bind; [discriminate | intros d s4].
    apply returns_bind; [apply k8s_nodes_count_returns | intros online s5].
    destruct online; simpl; [|apply Hrec].
    apply returns_bind; [apply k8s_nodes_ready_returns | intros ready s6].
    destruct ready; simpl; [discriminate | apply Hrec].
Qed.

Lemma validate_cluster_health_returns n c cl p k s :
  fst (validate_cluster_health cfg env n c cl p k s) <> OutOfFuel.
Proof. apply validate_cluster_health_loop_returns. lia. Qed.

End Termination.

(** ** Calls made between two states *)

Lemma calls_between_app s s' es :
  trace s' = es ++ trace s -> calls_between s s' = rev es.
Proof.
  intros E. unfold calls_between. rewrite E, length_app.
  replace (length es + length (trace s) - length (trace s))%nat with (length es) by lia.
  now rewrite take_app_length.
Qed.

Lemma events_calls_between s s' es :
  trace s' = es ++ trace s -> events s' = events s ++ calls_between s s'.
Proof.
  intros E. rewrite (calls_between_app _ _ _ E). unfold events. rewrite E. apply rev_app_distr.
Qed.

Lemma quiet_calls_between P s s' : quiet P s s' -> Forall P (calls_between s s').
Proof.
  intros [[es [E F]] _ _ _ _ _]. rewrite (calls_between_app _ _ _ E).
  now apply Forall_rev.
Qed.

Lemma frame_calls_between P T D s s' :
  frame P T D s s' -> Forall P (calls_between s s').
Proof.
  intros [[es [E F]] _ _ _]. rewrite (calls_between_app _ _ _ E).
  now apply Forall_rev.
Qed.

(** ** The capacity controller: resuming *)

Section Resume.
Context (cfg : Config) (env : Env).

Lemma int_of_Value_tag asg key z :
  tag_int env asg key = Some z ->
  int_of_Value (get_asg_tag env (Tags asg) key) = ret z.
Proof.
  unfold tag_int, int_of_Value, get_asg_tag. intros H.
  destruct (get_Value _) as [v|]; simpl in *; [|discriminate].
  now rewrite H.
Qed.


Lemma health_call_not_scale e : is_health_call e -> ~ is_scale_call e.
Proof. destruct e; simpl; tauto. Qed.


End Resume.

(** ** The capacity controller: batches *)

Section Batches.
Context (cfg : Config) (env : Env).

Lemma targets_from_step B T cur m :
  cur + B < T ->
  targets_from B T cur (S m) = (cur + B) :: targets_from B T (cur + B) m.
Proof.
  intros H. unfold targets_from. cbn [seq map]. f_equal; [lia|].
  rewrite <- seq_shift, map_map. apply map_ext. intros k. f_equal. lia.
Qed.

Lemma targets_from_last B T cur :
  T <= cur + B -> targets_from B T cur 1 = [T].
Proof. intros H. unfold targets_from. cbn [seq map]. f_equal. lia. Qed.

Lemma scale_up_loop_spec asg_name cluster_name predictive B T original_max :
  0 < B ->
  forall m fuel cur old s,
    (S m <= fuel)%nat ->
    Z.of_nat m * B < T - cur <= Z.of_nat (S m) * B ->
    scale_up_loop cfg env fuel asg_name cluster_name predictive B T original_max
                  old (Some cur) s
    = spec_scale_steps cfg env asg_name cluster_name predictive original_max cur
                       (targets_from B T cur (S m)) s.
Proof.
  intros HB. induction m as [|m IH]; intros fuel cur old s Hfuel Hm.
  - destruct fuel as [|fuel]; [lia|].
    rewrite targets_from_last by lia.
    cbn [scale_up_loop spec_scale_steps].
    replace (num_truthy B) with true by (unfold num_truthy; now destruct (Z.eqb_spec B 0); [lia|]).
    replace (cur + B >=? T) with true by lia.
    rewrite Z.eqb_refl.
    unfold bind. destruct (T >? original_max); msteps; mdone.
  - destruct fuel as [|fuel]; [lia|].
    rewrite targets_from_step by lia.
    cbn [scale_up_loop spec_scale_steps].
    replace (num_truthy B) with true by (unfold num_truthy; now destruct (Z.eqb_spec B 0); [lia|]).
    replace (cur + B >=? T) with false by lia.
    replace (cur + B =? T) with false by lia.
    unfold bind. destruct (cur + B >? original_max); msteps; mdone; apply IH; lia.
Qed.

Lemma scale_up_loop_first fuel asg_name cluster_name predictive B T original_max C s :
  B <> 0 ->
  scale_up_loop cfg env fuel asg_name cluster_name predictive B T original_max C None s
  = scale_up_loop cfg env fuel asg_name cluster_name predictive B T original_max C (Some C) s.
Proof.
  intros HB. destruct fuel; [reflexivity|]. cbn [scale_up_loop].
  replace (num_truthy B) with true by (unfold num_truthy; now destruct (Z.eqb_spec B 0)).
  reflexivity.
Qed.

Lemma batch_targets_from C B T : 
  batch_targets C B T = targets_from B T C (Z.to_nat ((T - C + B - 1) / B)).
Proof. reflexivity. Qed.

Lemma batch_steps_bounds C B T :
  0 < B -> C < T ->
  let n := (T - C + B - 1) / B in
  (n - 1) * B < T - C <= n * B /\ 1 <= n.
Proof.
  intros HB HT n.
  assert (H1 : (T - C + B - 1) = B * n + (T - C + B - 1) mod B)
    by (apply Z.div_mod; lia).
  assert (H2 : 0 <= (T - C + B - 1) mod B < B) by (apply Z.mod_pos_bound; lia).
  nia.
Qed.

End Batches.

Section BatchScaling.
Context (cfg : Config) (env : Env).

Lemma batch_targets_lookup C B T k :
  (k < length (batch_targets C B T))%nat ->
  batch_targets C B T !! k = Some (Z.min (C + (Z.of_nat k + 1) * B) T).
Proof.
  unfold batch_targets. rewrite length_map, length_seq. intros Hk.
  change (map ?f ?l) with (f <$> l). rewrite list_lookup_fmap, lookup_seq_lt by exact Hk.
  simpl. do 3 f_equal. lia.
Qed.

Lemma batch_targets_length C B T :
  0 < B -> C < T ->
  (Z.of_nat (length (batch_targets C B T)) - 1) * B < T - C
  <= Z.of_nat (length (batch_targets C B T)) * B
  /\ (1 <= length (batch_targets C B T))%nat.
Proof.
  intros HB HT. unfold batch_targets. rewrite length_map, length_seq.
  destruct (batch_steps_bounds C B T HB HT) as [H1 H2]. cbv zeta in *.
  rewrite Z2Nat.id by lia. split; [exact H1 | lia].
Qed.

(** C5.  A fresh rollout with batch size [B], from capacity [C] to target
    [T = C + count] with [0 < B < T - C]: [scale_up_asg] clears the stale
    suspensions, writes the three tags and then sets the capacities
    [C+B, C+2B, ..., T] (the k-th one is [min (C + k*B) T], the last one is
    [T]) one after the other, validating the cluster health after each one
    and before the next; there are at least two steps, the first one to
    [C + B < T]; max size is raised to the capacity of a step only when that
    capacity exceeds the original max size. *)
Theorem scale_up_asg_in_batches fuel cluster_name asg count s :
  tag_set env asg (ASG_DESIRED_STATE_TAG cfg) = false ->
  0 < BATCH_SIZE cfg ->
  BATCH_SIZE cfg < (DesiredCapacity asg + count) - DesiredCapacity asg ->
  (length (batch_targets (DesiredCapacity asg) (BATCH_SIZE cfg) (DesiredCapacity asg + count))
   <= fuel)%nat ->
  let C := DesiredCapacity asg in
  let T := DesiredCapacity asg + count in
  let B := BATCH_SIZE cfg in
  let name := AutoScalingGroupName asg in
  scale_up_asg cfg env fuel cluster_name asg count s
  = (modify_aws_autoscaling name "resume" ;;;
     save_asg_tags name (ASG_ORIG_CAPACITY_TAG cfg) C ;;;
     save_asg_tags name (ASG_DESIRED_STATE_TAG cfg) T ;;;
     save_asg_tags name (ASG_ORIG_MAX_CAPACITY_TAG cfg) (MaxSize asg) ;;;
     spec_scale_steps cfg env name cluster_name (ASG_USE_TERMINATION_POLICY cfg)
                      (MaxSize asg) C (batch_targets C B T) ;;;
     ret (T, C, MaxSize asg)) s
  /\ (2 <= length (batch_targets C B T))%nat
  /\ (forall k, (k < length (batch_targets C B T))%nat ->
        batch_targets C B T !! k = Some (Z.min (C + (Z.of_nat k + 1) * B) T))
  /\ batch_targets C B T !! 0%nat = Some (C + B) /\ C + B < T
  /\ batch_targets C B T !! (length (batch_targets C B T) - 1)%nat = Some T.
Proof.
  intros Hfresh HB Hlt Hfuel C T B name.
  assert (HCT : C < T) by (unfold C, T in *; lia).
  destruct (batch_targets_length C B T HB HCT) as [Hlen Hpos].
  assert (H2 : (2 <= length (batch_targets C B T))%nat) by (unfold C, T, B in *; nia).
  split; [|split; [exact H2 | split; [apply batch_targets_lookup | split; [|split]]]].
  - unfold scale_up_asg.
    replace (DesiredCapacity asg + count =? DesiredCapacity asg) with false by lia.
    unfold tag_set, get_asg_tag in *. rewrite Hfresh.
    destruct (length (batch_targets C B T)) as [|m] eqn:El; [lia|].
    assert (Eloop : forall s',
      scale_up_loop cfg env fuel name cluster_name
        (if ASG_USE_TERMINATION_POLICY cfg then true else false) B T (MaxSize asg) C None s'
      = spec_scale_steps cfg env name cluster_name (ASG_USE_TERMINATION_POLICY cfg)
          (MaxSize asg) C (batch_targets C B T) s').
    { intros s'. rewrite scale_up_loop_first by lia.
      rewrite batch_targets_from.
      replace (Z.to_nat ((T - C + B - 1) / B)) with (S m)
        by (rewrite <- El; unfold batch_targets; now rewrite length_map, length_seq).
      replace (if ASG_USE_TERMINATION_POLICY cfg then true else false)
        with (ASG_USE_TERMINATION_POLICY cfg) by now destruct (ASG_USE_TERMINATION_POLICY cfg).
      apply scale_up_loop_spec; [exact HB | rewrite <- El; exact Hfuel | lia]. }
    subst C T B name. unfold bind. msteps; try rewrite Eloop in *; mdone; congruence.
  - rewrite batch_targets_lookup by lia. f_equal. unfold C, T, B in *. lia.
  - unfold C, T, B in *. lia.
  - rewrite batch_targets_lookup by lia. f_equal. unfold C, T, B in *. nia.
Qed.

End BatchScaling.

(** ** The capacity controller on concrete groups *)


Lemma scale_up_asg_in_batches_witness :
  let cfg := example_cfg 1 5 3 2 false in
  let env := example_env all_evictable [] in
  batch_targets 2 2 7 = [4; 6; 7]
  /\ fst (scale_up_asg cfg env 3 "cluster" asg_fresh 5 cloud_fresh) = Ret (7, 2, 2)
  /\ scale_calls (events (snd (scale_up_asg cfg env 3 "cluster" asg_fresh 5 cloud_fresh)))
     = [EvScaleAsg "workers-a" 2 4 4; EvScaleAsg "workers-a" 4 6 6; EvScaleAsg "workers-a" 6 7 7].
Proof.
  intros cfg env.
  destruct (scale_up_asg_in_batches cfg env 3 "cluster" asg_fresh 5 cloud_fresh)
    as (E & _); [reflexivity | reflexivity | vm_compute; reflexivity | vm_compute; lia |].
  rewrite E. vm_compute. auto.
Defined.

(** ** The exceptions of a run *)

Section RaisesOnly.
Context (P : Exn -> Prop).

Lemma ro_ret {A} (a : A) : raises_only P (ret a).
Proof. intros s e H. discriminate. Qed.

Lemma ro_raise {A} e : P e -> raises_only P (@raise A e).
Proof. intros He s e' H. unfold raise in H. simpl in H. now simplify_eq. Qed.

Lemma ro_out_of_fuel {A} : raises_only P (@out_of_fuel A).
Proof. intros s e H. discriminate. Qed.

Lemma ro_get_state : raises_only P get_state.
Proof. intros s e H. discriminate. Qed.

Lemma ro_modify f : raises_only P (modify f).
Proof. intros s e H. discriminate. Qed.

Lemma ro_emit ev : raises_only P (emit ev).
Proof. intros s e H. discriminate. Qed.

Lemma ro_ask {A} ev (answer : nat -> A) : raises_only P (ask ev answer).
Proof. intros s e H. discriminate. Qed.

Lemma ro_bind {A B} (m : M A) (f : A -> M B) :
  raises_only P m -> (forall a, raises_only P (f a)) -> raises_only P (bind m f).
Proof.
  intros Hm Hf s e. unfold bind. specialize (Hm s).
  destruct (m s) as [[a|e'|] s1]; simpl in *.
  - apply Hf.
  - intros H. apply Hm. now simplify_eq.
  - discriminate.
Qed.

Lemma ro_try {A} (m : M A) c h :
  raises_only P m -> (forall e, raises_only P (h e)) -> raises_only P (try_except m c h).
Proof.
  intros Hm Hh s e. unfold try_except. specialize (Hm s).
  destruct (m s) as [[a|e'|] s1]; simpl in *; try discriminate.
  destruct (c e'); [apply Hh | exact (Hm e)].
Qed.

Lemma ro_when c m : raises_only P m -> raises_only P (when c m).
Proof. intros H. destruct c; simpl; [exact H | apply ro_ret]. Qed.

End RaisesOnly.

Create HintDb raises.

Ltac ro_step :=
  lazymatch goal with
  | |- raises_only _ (bind _ _) => apply ro_bind; [ | intros ?]
  | |- raises_only _ (try_except _ _ _) => apply ro_try; [ | intros ?]
  | |- raises_only _ (when _ _) => apply ro_when
  | |- raises_only _ (ret _) => apply ro_ret
  | |- raises_only _ (raise _) => apply ro_raise
  | |- raises_only _ (sys_exit _) => apply ro_raise
  | |- raises_only _ out_of_fuel => apply ro_out_of_fuel
  | |- raises_only _ get_state => apply ro_get_state
  | |- raises_only _ (modify _) => apply ro_modify
  | |- raises_only _ (emit _) => apply ro_emit
  | |- raises_only _ (sleep _) => apply ro_emit
  | |- raises_only _ (ask _ _) => apply ro_ask
  | |- raises_only _ (if ?b then _ else _) => destruct b
  | |- raises_only _ (match ?x with _ => _ end) => destruct x
  | |- raises_only _ (let _ := _ in _) => cbv zeta
  end.

Ltac ro_auto :=
  repeat first [ ro_step
               | solve [eauto with raises]
               | solve [left; reflexivity]
               | solve [right; reflexivity] ].

Section ProgramRaises.
Context (cfg : Config) (env : Env).

Local Notation "'plain' m" := (raises_only exception_or_exit_1 m) (at level 10, m at level 9).

Lemma ro_update_group n f : plain (update_group n f).
Proof.
  intros s e. unfold update_group. destruct (groups s !! n); simpl; [discriminate|].
  intros H. simplify_eq. now left.
Qed.
Hint Resolve ro_update_group : raises.

Lemma ro_get_k8s_nodes : plain (get_k8s_nodes cfg env).
Proof. unfold get_k8s_nodes. ro_auto. Qed.
Hint Resolve ro_get_k8s_nodes : raises.

Lemma ro_k8s_nodes_ready_loop fuel max_retry wait rc h :
  plain (k8s_nodes_ready_loop cfg env fuel max_retry wait rc h).
Proof. revert rc h. induction fuel as [|fuel IH]; intros rc h; simpl; ro_auto. Qed.

Lemma ro_k8s_nodes_count_loop fuel d max_retry wait rc h :
  plain (k8s_nodes_count_loop cfg env fuel d max_retry wait rc h).
Proof. revert rc h. induction fuel as [|fuel IH]; intros rc h; simpl; ro_auto. Qed.

Lemma ro_k8s_nodes_ready : plain (k8s_nodes_ready cfg env).
Proof. apply ro_k8s_nodes_ready_loop. Qed.

Lemma ro_k8s_nodes_count d : plain (k8s_nodes_count cfg env d).
Proof. apply ro_k8s_nodes_count_loop. Qed.
Hint Resolve ro_k8s_nodes_ready ro_k8s_nodes_count : raises.

Lemma ro_validate_cluster_health_loop fuel n c cl p rc :
  plain (validate_cluster_health_loop cfg env fuel n c cl p rc).
Proof.
  revert rc. induction fuel as [|fuel IH]; intros rc; simpl;
    unfold is_asg_scaled, is_asg_healthy, count_all_cluster_instances; ro_auto.
Qed.

Lemma ro_validate_cluster_health n c cl p k :
  plain (validate_cluster_health cfg env n c cl p k).
Proof. apply ro_validate_cluster_health_loop. Qed.
Hint Resolve ro_validate_cluster_health : raises.

Lemma ro_int_of_Value d : plain (int_of_Value d).
Proof. unfold int_of_Value. ro_auto. Qed.

Lemma ro_save_asg_tags n k v : plain (save_asg_tags n k v).
Proof. unfold save_asg_tags. ro_auto. Qed.

Lemma ro_delete_asg_tags n k : plain (delete_asg_tags n k).
Proof. unfold delete_asg_tags. ro_auto. Qed.

Lemma ro_scale_asg n c d m : plain (scale_asg n c d m).
Proof. unfold scale_asg. ro_auto. Qed.
Hint Resolve ro_int_of_Value ro_save_asg_tags ro_delete_asg_tags ro_scale_asg : raises.

Lemma ro_scale_up_loop fuel n cl p b d m o c :
  plain (scale_up_loop cfg env fuel n cl p b d m o c).
Proof. revert o c. induction fuel as [|fuel IH]; intros o c; simpl; ro_auto. Qed.
Hint Resolve ro_scale_up_loop : raises.

Lemma ro_scale_up_asg fuel cl asg count : plain (scale_up_asg cfg env fuel cl asg count).
Proof. unfold scale_up_asg, modify_aws_autoscaling. ro_auto. Qed.
Hint Resolve ro_scale_up_asg : raises.

Lemma ro_get_node_by_instance_id_loop fuel nodes i retries delay attempt :
  plain (get_node_by_instance_id_loop cfg env fuel nodes i retries delay attempt).
Proof.
  revert nodes attempt. induction fuel as [|fuel IH]; intros nodes attempt; simpl.
  - ro_auto.
  - unfold warn_provider_ids. ro_auto.
Qed.

Lemma ro_resolve_node_name nodes i : plain (resolve_node_name cfg env nodes i).
Proof.
  unfold resolve_node_name, get_node_by_instance_id. ro_auto.
  apply ro_get_node_by_instance_id_loop.
Qed.
Hint Resolve ro_resolve_node_name : raises.

Lemma ro_cordon_or_taint n : plain (cordon_or_taint cfg n).
Proof. unfold cordon_or_taint, cordon_node, taint_node. ro_auto. Qed.
Hint Resolve ro_cordon_or_taint : raises.

Lemma ro_evict_pods pods : plain (evict_pods env pods).
Proof. induction pods as [|pod pods IH]; simpl; ro_auto. Qed.

Lemma ro_drain_node n : plain (drain_node env n).
Proof. unfold drain_node. ro_auto. apply ro_evict_pods. Qed.
Hint Resolve ro_drain_node : raises.


Lemma ro_cordon_instances nodes outs : plain (cordon_instances cfg env nodes outs).
Proof. induction outs as [|o outs IH]; simpl; ro_auto. Qed.
Hint Resolve ro_cordon_instances : raises.










End ProgramRaises.

(** ** The process boundary: the cluster autoscaler *)

Section Main.
Context (cfg : Config) (env : Env).



End Main.



(** ** Runs of [update_asgs] on concrete clusters *)

(** C2, at the failing input.  No pod can be evicted.  Both evictions fail,
    and both instances are passed over as if they were excluded: the run
    completes, no node is deleted, no instance is terminated, and the group
    is scaled back down. *)
Theorem eviction_failure_is_passed_over :
  let cfg := example_cfg 1 5 3 0 false in
  let env := example_env (fun _ => false) [] in
  let run := update_asgs cfg env 1 [asg_fresh] "cluster" cloud_fresh in
  fst run = Ret tt
  /\ scan_list [node_a; node_b] "i-0a" = "node-a"
  /\ e_evict env 0 "app-on-node-a" "default" = false
  /\ retirement_calls (events (snd run))
     = [EvListPods "node-a"; EvEvict "app-on-node-a" "default";
        EvListPods "node-b"; EvEvict "app-on-node-b" "default"]
  /\ scale_calls (events (snd run))
     = [EvScaleAsg "workers-a" 2 4 4; EvScaleAsg "workers-a" 4 2 2].
Proof. vm_compute. auto 10. Qed.

(** C3, at the failing input.  The pod of the first instance cannot be
    evicted, the second instance is retired.  From the target 4 the counter
    is written back as 2 after a single retirement: the instance whose
    retirement failed has decremented it too. *)
Theorem failed_retirement_decrements_counter :
  let cfg := example_cfg 1 5 3 0 false in
  let env := example_env (fun pod => negb (String.eqb pod "app-on-node-a")) [] in
  let run := update_asgs cfg env 1 [asg_fresh] "cluster" cloud_fresh in
  fst run = Ret tt
  /\ retirement_calls (events (snd run))
     = [EvListPods "node-a"; EvEvict "app-on-node-a" "default";
        EvListPods "node-b"; EvEvict "app-on-node-b" "default";
        EvDeleteNode "node-b" false; EvTerminate "i-0b"]
  /\ List.filter (fun e => match e with EvSaveTag _ "desired" _ => true | _ => false end)
                 (events (snd run))
     = [EvSaveTag "workers-a" "desired" 4; EvSaveTag "workers-a" "desired" 2]
  /\ desired_asg_capacity (snd run) = 2.
Proof. vm_compute. auto 10. Qed.

(** C1, counterexample.  In run mode 2 the outdated instances of a group in
    the worker group order are drained, deleted and terminated. *)
Lemma run_mode_2_retires_instances :
  let cfg := example_cfg 2 5 3 0 false in
  let env := example_env all_evictable [] in
  let run := update_asgs cfg env 1 [asg_fresh] "cluster" cloud_fresh in
  RUN_MODE cfg = 2
  /\ fst run = Ret tt
  /\ retirement_calls (events (snd run))
     = [EvListPods "node-a"; EvEvict "app-on-node-a" "default";
        EvDeleteNode "node-a" false; EvTerminate "i-0a";
        EvListPods "node-b"; EvEvict "app-on-node-b" "default";
        EvDeleteNode "node-b" false; EvTerminate "i-0b"]
  /\ ~ Forall (fun e => ~ is_retirement_call e) (events (snd run)).
Proof.
  vm_compute. repeat split; auto.
  intros H. rewrite Forall_forall in H.
  apply (H (EvTerminate "i-0a")); [|exact I].
  apply list_elem_of_In. vm_compute. tauto.
Qed.

(** C7, at the failing input.  In run mode 2 a group whose name is outside
    the worker group order is scaled up with the others and never returned:
    the run completes, the only scaling call is the one that raises the
    group, the capacity and max size stay raised and the three tags stay on
    the group. *)
Theorem run_mode_2_leaves_unordered_group_scaled_up :
  let cfg := example_cfg 2 5 3 0 false in
  let env := example_env all_evictable [] in
  let run := update_asgs cfg env 1 [asg_system] "cluster" cloud_system in
  fst run = Ret tt
  /\ in_worker_groups_order cfg "system" = false
  /\ scale_calls (events (snd run)) = [EvScaleAsg "system" 2 3 3]
  /\ DesiredCapacity asg_system = 2 /\ MaxSize asg_system = 2
  /\ (g_desired <$> groups (snd run) !! "system") = Some 3
  /\ (g_max <$> groups (snd run) !! "system") = Some 3
  /\ (groups (snd run) !! "system" ≫= fun g => g_tags g !! "desired") = Some "3"
  /\ (groups (snd run) !! "system" ≫= fun g => g_tags g !! "orig") = Some "2"
  /\ (groups (snd run) !! "system" ≫= fun g => g_tags g !! "orig_max") = Some "2".
Proof. vm_compute. repeat split. Qed.

(** ** The throttle of the retirement loop *)

Lemma bind_run {A B} (m : M A) (f : A -> M B) s r s' :
  m s = (r, s') ->
  bind m f s = match r with
               | Ret a => f a s'
               | Raise e => (Raise e, s')
               | OutOfFuel => (OutOfFuel, s')
               end.
Proof. intros H. unfold bind. now rewrite H. Qed.

Lemma bind_assoc {A B C} (m : M A) (f : A -> M B) (g : B -> M C) s :
  bind (bind m f) g s = bind m (fun a => bind (f a) g) s.
Proof. unfold bind. destruct (m s) as [[a|e|] s1]; reflexivity. Qed.

Lemma bind_ret_step {A B} (m : M A) (f : A -> M B) s a s1 R :
  m s = (Ret a, s1) -> f a s1 = R -> bind m f s = R.
Proof. intros H1 H2. unfold bind. now rewrite H1. Qed.

Lemma bind_stop_step {A B} (m : M A) (f : A -> M B) s s1 :
  m s = (OutOfFuel, s1) -> bind m f s = (OutOfFuel, s1).
Proof. intros H1. unfold bind. now rewrite H1. Qed.

Lemma bind_assoc_step {A B C} (m : M A) (f : A -> M B) (g : B -> M C) s R :
  bind m (fun a => bind (f a) g) s = R -> bind (bind m f) g s = R.
Proof. intros <-. apply bind_assoc. Qed.

(** Runs the first statement of a sequence on a concrete state. *)
Ltac run_step :=
  lazymatch goal with
  | |- bind (bind _ _) _ _ = _ => apply bind_assoc_step
  | |- bind ?m ?f ?s = _ =>
      lazymatch m with
      | context [wait_for_slot] => fail
      | context [retire_instances] => fail
      | context [retire_group] => fail
      | context [process_groups] => fail
      | _ => idtac
      end;
      let v := eval vm_compute in (m s) in
      lazymatch v with
      | (Ret ?a, ?s1) =>
          refine (bind_ret_step m f s a s1 _ _ _); [vm_compute; reflexivity | cbv beta]
      end
  end.

Section Throttle.
Context (cfg : Config) (env : Env).

Lemma wait_for_slot_free fuel s :
  running_updates s < K8S_PARALLEL_NODES_COUNT cfg ->
  wait_for_slot cfg fuel s = (Ret tt, s).
Proof.
  intros H. destruct fuel; simpl;
    replace (running_updates s >=? K8S_PARALLEL_NODES_COUNT cfg) with false by lia;
    reflexivity.
Qed.

(** Once the counter has reached the cap, the wait never ends: whatever the
    fuel, it is spent in sleeps. *)
Lemma wait_for_slot_blocked fuel s :
  K8S_PARALLEL_NODES_COUNT cfg <= running_updates s ->
  wait_for_slot cfg fuel s = (OutOfFuel, sleeps fuel s).
Proof.
  revert s. induction fuel as [|fuel IH]; intros s H; simpl.
  - replace (running_updates s >=? K8S_PARALLEL_NODES_COUNT cfg) with true by lia.
    destruct s; reflexivity.
  - replace (running_updates s >=? K8S_PARALLEL_NODES_COUNT cfg) with true by lia.
    unfold bind, sleep, emit, modify. rewrite IH by (simpl; lia).
    destruct s as [c t g i d x r]. unfold sleeps, set_clock, set_trace. simpl. do 2 f_equal.
    + lia.
    + change (EvSleep 10 :: t) with ([EvSleep 10] ++ t).
      now rewrite app_assoc, <- repeat_cons.
Qed.

End Throttle.

Lemma events_sleeps n s : events (sleeps n s) = events s ++ repeat (EvSleep 10) n.
Proof.
  unfold events, sleeps. simpl. rewrite rev_app_distr. f_equal.
  induction n as [|n IH]; [reflexivity|]. simpl. rewrite IH. now rewrite <- repeat_cons.
Qed.

(** C8, at the failing input.  Two outdated instances, a cap of one parallel
    node, instances terminated by the tool.  The first instance is retired;
    then the wait before the second one never ends: whatever the fuel, the
    run is still sleeping, and the second instance is never drained. *)
Theorem throttle_never_releases fuel :
  let cfg := example_cfg 1 1 3 0 false in
  let env := example_env all_evictable [] in
  let run := update_asgs cfg env fuel [asg_resumed] "cluster" cloud_resumed in
  fst run = OutOfFuel
  /\ events (snd run)
     = [EvListNode; EvModifyAutoscaling "workers-a" "resume";
        EvSleep 1; EvIsAsgScaled "workers-a" 4; EvIsAsgHealthy "workers-a";
        EvCountInstances "cluster" false; EvListNode; EvListNode;
        EvPatchNode "node-a" Unschedulable false;
        EvPatchNode "node-b" Unschedulable false;
        EvModifyAutoscaling "workers-a" "suspend";
        EvListPods "node-a"; EvEvict "app-on-node-a" "default";
        EvDeleteNode "node-a" false; EvSaveTag "workers-a" "desired" 3;
        EvTerminate "i-0a"]
       ++ repeat (EvSleep 10) fuel.
Proof.
  intros cfg env run.
  assert (H : exists s, run = (OutOfFuel, sleeps fuel s)
    /\ events s
       = [EvListNode; EvModifyAutoscaling "workers-a" "resume";
          EvSleep 1; EvIsAsgScaled "workers-a" 4; EvIsAsgHealthy "workers-a";
          EvCountInstances "cluster" false; EvListNode; EvListNode;
          EvPatchNode "node-a" Unschedulable false;
          EvPatchNode "node-b" Unschedulable false;
          EvModifyAutoscaling "workers-a" "suspend";
          EvListPods "node-a"; EvEvict "app-on-node-a" "default";
          EvDeleteNode "node-a" false; EvSaveTag "workers-a" "desired" 3;
          EvTerminate "i-0a"]).
  { subst run cfg env. eexists. split.
    - unfold update_asgs. cbv zeta.
      repeat run_step.
      match goal with
      | |- process_groups ?c ?e ?f ?cl ?n ?x ?items ?s = ?R =>
          let n' := eval vm_compute in n in
          let x' := eval vm_compute in x in
          let l := eval vm_compute in items in
          change (process_groups c e f cl n' x' l s = R)
      end.
      cbn [process_groups]. unfold process_group. cbv zeta. cbn [fst snd].
      repeat run_step.
      unfold retire_group. cbv zeta.
      repeat run_step.
      cbn [retire_instances].
      repeat run_step.
      refine (bind_ret_step _ _ _ tt _ _ (wait_for_slot_free _ fuel _ _) _);
        [vm_compute; reflexivity | cbv beta].
      repeat run_step.
      apply bind_stop_step. apply wait_for_slot_blocked. vm_compute. discriminate.
    - vm_compute. reflexivity. }
  destruct H as (s & -> & Hs). split; [reflexivity|].
  cbn [snd]. now rewrite events_sleeps, Hs.
Qed.

(** * The orchestrator: what a run that completes has done *)
(** ** Runs that return *)

Lemma bind_Ret {A B} (m : M A) (f : A -> M B) s b s' :
  bind m f s = (Ret b, s') ->
  exists a s1, m s = (Ret a, s1) /\ f a s1 = (Ret b, s').
Proof.
  unfold bind. destruct (m s) as [[a|e|] s1]; intros H; try discriminate. eauto.
Qed.

Lemma try_except_Ret {A} (m : M A) c h s a s' :
  try_except m c h s = (Ret a, s') ->
  m s = (Ret a, s')
  \/ exists e s1, m s = (Raise e, s1) /\ c e = true /\ h e s1 = (Ret a, s').
Proof.
  unfold try_except. destruct (m s) as [[x|e|] s1]; intros H; try discriminate.
  - now left.
  - destruct (c e) eqn:E; [|discriminate]. right. eauto.
Qed.

Lemma when_Ret c m s s' :
  when c m s = (Ret tt, s') -> if c then m s = (Ret tt, s') else s' = s.
Proof. destruct c; simpl; [auto|]. unfold ret. congruence. Qed.

(** ** Logs *)

Lemma extends_refl s : extends s s.
Proof. now exists []. Qed.

Lemma extends_trans s1 s2 s3 : extends s1 s2 -> extends s2 s3 -> extends s1 s3.
Proof.
  intros [es1 E1] [es2 E2]. exists (es2 ++ es1). rewrite E2, E1. now rewrite app_assoc.
Qed.

Lemma frame_extends P T D s s' : frame P T D s s' -> extends s s'.
Proof. intros [[es [E _]] _ _ _]. now exists es. Qed.

Lemma quiet_extends P s s' : quiet P s s' -> extends s s'.
Proof. intros [[es [E _]] _ _ _ _ _]. now exists es. Qed.

Lemma emitted_widen s0 s s' s1 e :
  extends s0 s -> emitted s s' e -> extends s' s1 -> emitted s0 s1 e.
Proof.
  intros [es0 E0] [es [E Hin]] [es1 E1].
  exists (es1 ++ es ++ es0). split.
  - rewrite E1, E, E0. now rewrite !app_assoc.
  - apply in_or_app. right. apply in_or_app. now left.
Qed.

Lemma emitted_calls_between s s' e : emitted s s' e -> In e (calls_between s s').
Proof.
  intros [es [E Hin]]. rewrite (calls_between_app _ _ _ E). now apply in_rev in Hin.
Qed.

Lemma emit_emitted e s : emitted s (snd (emit e s)) e.
Proof. exists [e]. split; [reflexivity | now left]. Qed.

Lemma calls_between_split s1 s2 s3 :
  extends s1 s2 -> extends s2 s3 ->
  calls_between s1 s3 = calls_between s1 s2 ++ calls_between s2 s3.
Proof.
  intros [es1 E1] [es2 E2].
  rewrite (calls_between_app _ _ _ E1), (calls_between_app _ _ _ E2).
  rewrite (calls_between_app s1 s3 (es2 ++ es1)) by (rewrite E2, E1; now rewrite app_assoc).
  apply rev_app_distr.
Qed.


(** ** Frames of the orchestrator *)

Section OrchestratorFrames.
Context (cfg : Config) (env : Env).

(** A lookup that finds the instance in the cache leaves the state as it is. *)
Lemma resolve_node_name_hit nodes i node s :
  instance_to_node_cache s !! i = Some node ->
  resolve_node_name cfg env nodes i s = (Ret node, s).
Proof. intros H. unfold resolve_node_name, bind, get_state. now rewrite H. Qed.

(** A lookup that returns leaves the instance in the cache, with the name
    it returned. *)
Lemma resolve_node_name_Ret nodes i node s s' :
  resolve_node_name cfg env nodes i s = (Ret node, s') ->
  instance_to_node_cache s' !! i = Some node.
Proof.
  unfold resolve_node_name, bind, get_state.
  destruct (instance_to_node_cache s !! i) as [n|] eqn:E.
  - unfold ret. intros H. now simplify_eq.
  - destruct (get_node_by_instance_id cfg env (NodeList nodes) i 3 5 s) as [[n|e|] s1];
      intros H; try discriminate.
    unfold modify, ret in H. simplify_eq. simpl. apply lookup_insert_eq.
Qed.

Lemma f_resolve_node_name T D nodes i :
  preserves (frame any_call T D) (resolve_node_name cfg env nodes i).
Proof.
  intros s. unfold resolve_node_name, bind, get_state.
  destruct (instance_to_node_cache s !! i) as [n|] eqn:E; [apply frame_refl|].
  pose proof (q_get_node_by_instance_id cfg env any_call health_is_any (NodeList nodes) i 3 5 s)
    as Hq.
  destruct (get_node_by_instance_id cfg env (NodeList nodes) i 3 5 s) as [[n|e|] s1];
    simpl in *; try (now apply quiet_frame).
  destruct Hq as [Ht Hg Hc Hd _ _]. split; simpl; auto.
  - intros j m Hj. rewrite Hc. destruct (decide (i = j)) as [->|Hne]; [congruence|].
    now rewrite lookup_insert_ne.
  - intros g _. now rewrite Hg.
  - intros g _. now rewrite Hd.
Qed.

Hint Resolve f_resolve_node_name : frames.

Lemma f_quiet_any T D {A} (m : M A) :
  preserves (quiet any_call) m -> preserves (frame any_call T D) m.
Proof. apply quiet_to_frame. Qed.

Lemma f_cordon_or_taint T D n : preserves (frame any_call T D) (cordon_or_taint cfg n).
Proof. apply f_quiet_any, q_cordon_or_taint. Qed.

Lemma f_drain_node T D n : preserves (frame any_call T D) (drain_node env n).
Proof. apply f_quiet_any, q_drain_node. Qed.

Lemma f_delete_node T D n : preserves (frame any_call T D) (delete_node cfg n).
Proof. apply f_quiet_any, q_delete_node. Qed.

Lemma f_terminate T D i : preserves (frame any_call T D) (terminate_instance_in_asg env i).
Proof. apply f_quiet_any, q_terminate_instance_in_asg. Qed.

Lemma f_wait_for_slot T D fuel : preserves (frame any_call T D) (wait_for_slot cfg fuel).
Proof. apply f_quiet_any, q_wait_for_slot. Qed.

Lemma f_set_desired T D (f : State -> Z) :
  preserves (frame any_call T D) (modify (fun s => set_desired_asg_capacity (f s) s)).
Proof. apply frame_modify_counter. intros s. simpl. auto. Qed.

Lemma f_set_running T D (f : State -> Z) :
  preserves (frame any_call T D) (modify (fun s => set_running_updates (f s) s)).
Proof. apply frame_modify_counter. intros s. simpl. auto. Qed.

Lemma f_set_dict T (D : string -> Prop) name state :
  D name ->
  preserves (frame any_call T D)
    (modify (fun s => set_asg_state_dict (<[name := state]> (asg_state_dict s)) s)).
Proof.
  intros HD s. split; simpl; auto.
  - exists []. split; [reflexivity | constructor].
  - intros g Hg. apply lookup_insert_ne. intros ->. contradiction.
Qed.

Lemma f_lookup_asg_state T D name : preserves (frame any_call T D) (lookup_asg_state name).
Proof. unfold lookup_asg_state. frame_auto. Qed.

Hint Resolve f_cordon_or_taint f_drain_node f_delete_node f_terminate f_wait_for_slot
  f_set_desired f_set_running f_set_dict f_lookup_asg_state
  f_save_asg_tags f_delete_asg_tags f_scale_asg f_modify_aws_autoscaling f_scale_up_asg : frames.

Lemma f_cordon_instances T D nodes outs :
  preserves (frame any_call T D) (cordon_instances cfg env nodes outs).
Proof. induction outs as [|o outs IH]; simpl; frame_auto. Qed.

Lemma f_cordon_all T D nodes items :
  preserves (frame any_call T D) (cordon_all cfg env nodes items).
Proof.
  induction items as [|[name [outs asg]] items IH]; simpl; frame_auto.
  apply f_cordon_instances.
Qed.

Lemma f_cordon_group T D nodes excluded outs :
  preserves (frame any_call T D) (cordon_group cfg env nodes excluded outs).
Proof. induction outs as [|o outs IH]; simpl; frame_auto. Qed.

Lemma f_retire_instance (T D : string -> Prop) name nodes excluded o :
  T name -> preserves (frame any_call T D) (retire_instance cfg env name nodes excluded o).
Proof.
  intros HT. unfold retire_instance. frame_auto.
Qed.
Hint Resolve f_retire_instance : frames.

Lemma f_retire_instances (T D : string -> Prop) fuel name nodes excluded outs :
  T name ->
  preserves (frame any_call T D) (retire_instances cfg env fuel name nodes excluded outs).
Proof. intros HT. induction outs as [|o outs IH]; simpl; frame_auto. Qed.
Hint Resolve f_retire_instances : frames.

Lemma f_retire_group (T D : string -> Prop) fuel nodes excluded name outs :
  T name -> preserves (frame any_call T D) (retire_group cfg env fuel nodes excluded name outs).
Proof.
  intros HT. unfold retire_group. frame_auto.
Qed.

Lemma f_process_group (T D : string -> Prop) fuel cl nodes excluded item :
  T (fst item) -> T (AutoScalingGroupName (snd (snd item))) -> D (fst item) ->
  preserves (frame any_call T D) (process_group cfg env fuel cl nodes excluded item).
Proof.
  intros HT HT' HD. unfold process_group. frame_auto.
  - apply f_cordon_group.
  - apply f_retire_group, HT.
Qed.

Lemma f_process_groups (T D : string -> Prop) fuel cl nodes excluded items :
  (forall item, In item items ->
     T (fst item) /\ T (AutoScalingGroupName (snd (snd item))) /\ D (fst item)) ->
  preserves (frame any_call T D) (process_groups cfg env fuel cl nodes excluded items).
Proof.
  induction items as [|item items IH]; intros H; simpl; frame_auto.
  - destruct (H item) as (H1 & H2 & H3); [now left|]. now apply f_process_group.
  - apply IH. intros i Hi. apply H. now right.
Qed.

Lemma f_scale_up_all (T D : string -> Prop) fuel cl items :
  (forall item, In item items ->
     T (AutoScalingGroupName (snd (snd item))) /\ D (fst item)) ->
  preserves (frame any_call T D) (scale_up_all cfg env fuel cl items).
Proof.
  induction items as [|[name [outs asg]] items IH]; intros H; simpl; frame_auto.
  - destruct (H (name, (outs, asg))) as [H1 H2]; [now left|]. now apply f_scale_up_asg.
  - destruct (H (name, (outs, asg))) as [H1 H2]; [now left|]. now apply f_set_dict.
  - apply IH. intros i Hi. apply H. now right.
Qed.

End OrchestratorFrames.

#[global] Hint Resolve f_resolve_node_name f_cordon_or_taint f_drain_node f_delete_node
  f_terminate f_wait_for_slot f_set_desired f_set_running f_set_dict f_lookup_asg_state
  f_save_asg_tags f_delete_asg_tags f_scale_asg f_modify_aws_autoscaling f_scale_up_asg
  f_cordon_instances f_cordon_all f_cordon_group f_retire_instance f_retire_instances
  f_retire_group : frames.

(** ** The drain phase *)

Lemma preserves_run {A} (R : State -> State -> Prop) (m : M A) s r s' :
  preserves R m -> m s = (r, s') -> R s s'.
Proof. intros H E. specialize (H s). now rewrite E in H. Qed.

Lemma frame_run_extends {A} P T D (m : M A) s r s' :
  preserves (frame P T D) m -> m s = (r, s') -> extends s s'.
Proof. intros H E. eapply frame_extends, preserves_run; eauto. Qed.

Lemma try_except_emitted {A} (m : M A) c h s r s' e :
  (forall r1 s1, m s = (r1, s1) -> emitted s s1 e) ->
  (forall x s1 r2 s2, h x s1 = (r2, s2) -> extends s1 s2) ->
  try_except m c h s = (r, s') -> emitted s s' e.
Proof.
  intros Hm Hh. unfold try_except. destruct (m s) as [[a|x|] s1] eqn:E; intros H.
  - simplify_eq. eauto.
  - destruct (c x).
    + eapply emitted_widen; [apply extends_refl | eapply Hm; eauto | eapply Hh; eauto].
    + simplify_eq. eauto.
  - simplify_eq. eauto.
Qed.

Lemma bind_emitted_l {A B} (m : M A) (f : A -> M B) s r s' e :
  (forall r1 s1, m s = (r1, s1) -> emitted s s1 e) ->
  (forall a s1 r2 s2, f a s1 = (r2, s2) -> extends s1 s2) ->
  bind m f s = (r, s') -> emitted s s' e.
Proof.
  intros Hm Hf. unfold bind. destruct (m s) as [[a|x|] s1] eqn:E; intros H.
  - eapply emitted_widen; [apply extends_refl | eapply Hm; eauto | eapply Hf; eauto].
  - simplify_eq. eauto.
  - simplify_eq. eauto.
Qed.

Lemma bind_modify {B} (f : State -> State) (k : unit -> M B) s :
  bind (modify f) k s = k tt (f s).
Proof. reflexivity. Qed.

Lemma dict_set_In {V} k (v : V) d x : In x (dict_set k v d) -> x = (k, v) \/ In x d.
Proof.
  induction d as [|[k' v'] d IH]; simpl.
  - intros [<-|[]]. now left.
  - destruct (String.eqb k' k) eqn:E.
    + apply String.eqb_eq in E. subst k'. intros [<-|H]; [now left | right; now right].
    + intros [<-|H]; [right; now left|]. destruct (IH H); auto.
Qed.

Lemma sort_inner_In {V} (P : string * V -> Prop) group l sorted :
  (forall x, In x sorted -> P x) ->
  (forall x, In x l -> str_in group (fst x) = true -> P x) ->
  forall x, In x (fold_left (fun sorted item =>
                     if str_in group (fst item) then dict_set (fst item) (snd item) sorted
                     else sorted) l sorted) -> P x.
Proof.
  revert sorted. induction l as [|i l IH]; intros sorted Hs Hl x; simpl; [apply Hs|].
  apply IH; [|intros y Hy; apply Hl; now right].
  intros y Hy. destruct (str_in group (fst i)) eqn:E; [|now apply Hs].
  destruct (dict_set_In _ _ _ _ Hy) as [->|Hy']; [|now apply Hs].
  rewrite <- surjective_pairing. apply Hl; [now left | exact E].
Qed.

Lemma sort_outer_In {V} (order gs : list string) (plan sorted : list (string * V)) item :
  incl gs order ->
  (forall x, In x sorted ->
     In x plan /\ existsb (fun group => str_in group (fst x)) order = true) ->
  In item (fold_left
             (fun sorted group =>
                fold_left (fun sorted item =>
                             if str_in group (fst item) then dict_set (fst item) (snd item) sorted
                             else sorted)
                          plan sorted)
             gs sorted) ->
  In item plan /\ existsb (fun group => str_in group (fst item)) order = true.
Proof.
  revert sorted. induction gs as [|g gs IH]; intros sorted Hincl Hs; simpl; [apply Hs|].
  apply IH; [intros y Hy; apply Hincl; now right|].
  apply sort_inner_In; [exact Hs|].
  intros x Hx E. split; [exact Hx|]. apply existsb_exists. exists g. split; [|exact E].
  apply Hincl. now left.
Qed.

Section DrainPhase.
Context (cfg : Config) (env : Env).

Local Notation "'everywhere'" := (fun _ : string => True).
Local Hint Extern 1 => exact I : frames.

(** Every group of the sorted plan is a group of the plan, with its list of
    outdated instances, and its name contains an entry of the worker group
    order. *)
Lemma sort_asgs_In plan item :
  In item (sort_asgs cfg plan) ->
  In item plan /\ in_worker_groups_order cfg (fst item) = true.
Proof.
  unfold sort_asgs, in_worker_groups_order.
  apply sort_outer_In; [apply incl_refl | intros x []].
Qed.

Lemma cordon_instances_Ret nodes outs s s' :
  cordon_instances cfg env nodes outs s = (Ret tt, s') ->
  forall o, In o outs -> exists node, instance_to_node_cache s' !! InstanceId o = Some node.
Proof.
  revert s. induction outs as [|o outs IH]; intros s H x Hx; [destruct Hx|].
  cbn [cordon_instances] in H.
  apply bind_Ret in H as ([] & s1 & H1 & H2).
  destruct Hx as [<-|Hx]; [|eauto].
  apply try_except_Ret in H1 as [H1|(e & s0 & _ & _ & H1)]; [|discriminate].
  apply bind_Ret in H1 as (node & s0 & H0 & H1).
  exists node.
  eapply fr_cache;
    [exact (preserves_run _ _ _ _ _ (f_cordon_instances cfg env everywhere everywhere nodes outs) H2)|].
  eapply fr_cache;
    [exact (preserves_run _ _ _ _ _ (f_cordon_or_taint cfg everywhere everywhere node) H1)|].
  eapply resolve_node_name_Ret; eauto.
Qed.

Lemma cordon_all_Ret nodes items s s' :
  cordon_all cfg env nodes items s = (Ret tt, s') ->
  forall item o, In item items -> in_worker_groups_order cfg (fst item) = true ->
    In o (fst (snd item)) ->
    exists node, instance_to_node_cache s' !! InstanceId o = Some node.
Proof.
  revert s. induction items as [|[name [outs asg]] items IH]; intros s H item o Hi Ho Hin;
    [destruct Hi|].
  cbn [cordon_all] in H.
  apply bind_Ret in H as ([] & s1 & H1 & H2).
  destruct Hi as [<-|Hi]; [|eauto].
  simpl in Ho, Hin. rewrite Ho in H1. cbn [negb] in H1.
  destruct (cordon_instances_Ret _ _ _ _ H1 o Hin) as [node Hn]. exists node.
  eapply fr_cache;
    [exact (preserves_run _ _ _ _ _ (f_cordon_all cfg env everywhere everywhere nodes items) H2)|].
  exact Hn.
Qed.

(** The upfront cordon marks the node of every outdated instance. *)
Lemma cordon_or_taint_emitted node s r s' :
  cordon_or_taint cfg node s = (r, s') ->
  emitted s s' (EvPatchNode node (cordon_patch cfg) (DRY_RUN cfg)).
Proof.
  unfold cordon_or_taint, cordon_patch, cordon_node, taint_node.
  destruct (TAINT_NODES cfg); cbn [negb]; intros H.
  - pose proof (emit_emitted (EvPatchNode node NoScheduleTaint (DRY_RUN cfg)) s) as He.
    now rewrite H in He.
  - pose proof (emit_emitted (EvPatchNode node Unschedulable (DRY_RUN cfg)) s) as He.
    now rewrite H in He.
Qed.

Lemma cordon_instances_cordons nodes outs s s' :
  cordon_instances cfg env nodes outs s = (Ret tt, s') ->
  forall o, In o outs ->
    exists node, instance_to_node_cache s' !! InstanceId o = Some node
                 /\ emitted s s' (EvPatchNode node (cordon_patch cfg) (DRY_RUN cfg)).
Proof.
  revert s. induction outs as [|o outs IH]; intros s H x Hx; [destruct Hx|].
  cbn [cordon_instances] in H.
  apply bind_Ret in H as ([] & s1 & H1 & H2).
  assert (F2 : frame any_call everywhere everywhere s1 s').
  { eapply preserves_run; [|exact H2]. apply f_cordon_instances. }
  assert (F1 : frame any_call everywhere everywhere s s1).
  { eapply preserves_run; [|exact H1]. frame_auto. }
  destruct Hx as [<-|Hx].
  - apply try_except_Ret in H1 as [H1|(e & s0 & _ & _ & H1)]; [|discriminate].
    apply bind_Ret in H1 as (node & s0 & H0 & H1).
    exists node. split.
    + eapply fr_cache; [exact F2|].
      eapply fr_cache;
        [exact (preserves_run _ _ _ _ _ (f_cordon_or_taint cfg everywhere everywhere node) H1)|].
      eapply resolve_node_name_Ret; eauto.
    + eapply emitted_widen; [| exact (cordon_or_taint_emitted _ _ _ _ H1)
                             | exact (frame_extends _ _ _ _ _ F2)].
      exact (frame_run_extends _ _ _ _ _ _ _
               (f_resolve_node_name cfg env everywhere everywhere nodes _) H0).
  - destruct (IH _ H2 x Hx) as (node & Hc & He). exists node. split; [exact Hc|].
    eapply emitted_widen; [exact (frame_extends _ _ _ _ _ F1) | exact He | apply extends_refl].
Qed.

Lemma cordon_all_cordons nodes items s s' :
  cordon_all cfg env nodes items s = (Ret tt, s') ->
  forall item o, In item items -> in_worker_groups_order cfg (fst item) = true ->
    In o (fst (snd item)) ->
    exists node, instance_to_node_cache s' !! InstanceId o = Some node
                 /\ emitted s s' (EvPatchNode node (cordon_patch cfg) (DRY_RUN cfg)).
Proof.
  revert s. induction items as [|[name [outs asg]] items IH]; intros s H item o Hi Ho Hin;
    [destruct Hi|].
  cbn [cordon_all] in H.
  apply bind_Ret in H as ([] & s1 & H1 & H2).
  assert (F2 : frame any_call everywhere everywhere s1 s').
  { eapply preserves_run; [|exact H2]. apply f_cordon_all. }
  assert (F1 : frame any_call everywhere everywhere s s1).
  { eapply preserves_run; [|exact H1]. destruct (negb _); [frame_auto | apply f_cordon_instances]. }
  destruct Hi as [<-|Hi].
  - simpl in Ho, Hin. rewrite Ho in H1. cbn [negb] in H1.
    destruct (cordon_instances_cordons _ _ _ _ H1 o Hin) as (node & Hn & He). exists node.
    split; [eapply fr_cache; [exact F2 | exact Hn]|].
    eapply emitted_widen; [apply extends_refl | exact He | exact (frame_extends _ _ _ _ _ F2)].
  - destruct (IH _ H2 item o Hi Ho Hin) as (node & Hc & He). exists node. split; [exact Hc|].
    eapply emitted_widen; [exact (frame_extends _ _ _ _ _ F1) | exact He | apply extends_refl].
Qed.

(** The drain of a node begins with the listing of its pods. *)
Lemma drain_node_lists_pods node s r s' :
  drain_node env node s = (r, s') -> emitted s s' (EvListPods node).
Proof.
  unfold drain_node. apply bind_emitted_l.
  - intros r1 s1 H. unfold ask, bind, get_state in H. simpl in H. unfold ret in H.
    simplify_eq. apply (emit_emitted (EvListPods node) s).
  - intros [items|] s1 r2 s2 H.
    + eapply quiet_extends, preserves_run; [apply (q_evict_pods env items) | exact H].
    + unfold raise in H. simplify_eq. apply extends_refl.
Qed.

(** The retirement of an instance whose node name is in the cache begins the
    drain of that node, whatever follows. *)
Lemma retire_instance_drains name nodes excluded o node s r s' :
  instance_to_node_cache s !! InstanceId o = Some node ->
  retire_instance cfg env name nodes excluded o s = (r, s') ->
  emitted s s' (EvListPods node).
Proof.
  intros Hc. unfold retire_instance. apply try_except_emitted.
  - intros r1 s1. rewrite (bind_run _ _ _ _ _ (resolve_node_name_hit cfg env nodes _ node s Hc)).
    rewrite bind_modify. intros H.
    set (s0 := set_desired_asg_capacity (desired_asg_capacity s - 1) s) in H.
    assert (E0 : extends s s0) by (exists []; reflexivity).
    apply (emitted_widen s s0 s1 s1 _ E0); [|apply extends_refl].
    revert H. apply bind_emitted_l.
    + intros r2 s2. apply drain_node_lists_pods.
    + intros [] s2 r2 s3. apply frame_run_extends with (P := any_call) (T := everywhere)
        (D := everywhere). frame_auto.
  - intros x s1 r2 s2. apply frame_run_extends with (P := any_call) (T := everywhere)
      (D := everywhere). frame_auto.
Qed.

Lemma retire_instances_drain fuel name nodes excluded outs s r s' :
  retire_instances cfg env fuel name nodes excluded outs s = (r, s') ->
  r = Ret tt ->
  forall o node, In o outs -> instance_to_node_cache s !! InstanceId o = Some node ->
    emitted s s' (EvListPods node).
Proof.
  revert s. induction outs as [|x outs IH]; intros s H -> o node Ho Hc; [destruct Ho|].
  cbn [retire_instances] in H.
  apply bind_Ret in H as ([] & s1 & H1 & H).
  apply bind_Ret in H as ([] & s2 & H2 & H3).
  pose proof (frame_run_extends _ _ _ _ _ _ _
                (f_wait_for_slot cfg everywhere everywhere fuel) H1) as E1.
  pose proof (preserves_run _ _ _ _ _ (f_wait_for_slot cfg everywhere everywhere fuel) H1) as F1.
  pose proof (preserves_run _ _ _ _ _
                (f_retire_instance cfg env everywhere everywhere name nodes excluded x I) H2) as F2.
  pose proof (preserves_run _ _ _ _ _
                (f_retire_instances cfg env everywhere everywhere fuel name nodes excluded outs I)
                H3) as F3.
  destruct Ho as [<-|Ho].
  - eapply emitted_widen; [exact E1 | | exact (frame_extends _ _ _ _ _ F3)].
    eapply retire_instance_drains; [|exact H2]. eapply fr_cache; eauto.
  - eapply emitted_widen; [| |apply extends_refl].
    2: { eapply (IH s2 H3 eq_refl o node Ho). eapply fr_cache; [exact F2|].
         eapply fr_cache; eauto. }
    eapply extends_trans; [exact E1 | exact (frame_extends _ _ _ _ _ F2)].
Qed.

Lemma retire_group_drains fuel nodes excluded name outs s s' :
  retire_group cfg env fuel nodes excluded name outs s = (Ret tt, s') ->
  forall o node, In o outs -> instance_to_node_cache s !! InstanceId o = Some node ->
    emitted s s' (EvListPods node).
Proof.
  intros H o node Ho Hc. unfold retire_group in H.
  apply bind_Ret in H as ([] & s1 & H1 & H).
  apply bind_Ret in H as (st & s2 & H2 & H).
  rewrite bind_modify in H. rewrite bind_modify in H.
  apply bind_Ret in H as ([] & s3 & H3 & H4).
  assert (E1 : frame any_call everywhere everywhere s s1).
  { eapply preserves_run; [|exact H1]. frame_auto. }
  assert (E2 : frame any_call everywhere everywhere s1 s2).
  { eapply preserves_run; [|exact H2]. frame_auto. }
  assert (E4 : extends s3 s').
  { eapply frame_run_extends with (P := any_call) (T := everywhere) (D := everywhere);
      [|exact H4]. frame_auto. }
  eapply emitted_widen; [| |exact E4].
  2: { eapply (retire_instances_drain _ _ _ _ _ _ _ _ H3 eq_refl o node Ho).
       simpl. eapply fr_cache; [exact E2|]. eapply fr_cache; eauto. }
  simpl. destruct (frame_extends _ _ _ _ _ (frame_trans _ _ _ _ _ _ E1 E2)) as [es Ees].
  exists es. exact Ees.
Qed.

Lemma process_group_drains fuel cl nodes excluded item s s' :
  process_group cfg env fuel cl nodes excluded item s = (Ret tt, s') ->
  forall o node, In o (fst (snd item)) ->
    instance_to_node_cache s !! InstanceId o = Some node ->
    emitted s s' (EvListPods node).
Proof.
  intros H o node Ho Hc. unfold process_group in H.
  apply bind_Ret in H as ([] & s1 & H1 & H).
  apply bind_Ret in H as ([] & s2 & H2 & H3).
  assert (F1 : frame any_call everywhere everywhere s s1)
    by (eapply preserves_run; [|exact H1]; frame_auto).
  assert (F2 : frame any_call everywhere everywhere s1 s2)
    by (eapply preserves_run; [|exact H2]; frame_auto).
  eapply emitted_widen;
    [exact (frame_extends _ _ _ _ _ (frame_trans _ _ _ _ _ _ F1 F2)) | | apply extends_refl].
  eapply retire_group_drains; eauto. eapply fr_cache; [exact F2|]. eapply fr_cache; eauto.
Qed.

Lemma process_groups_drain fuel cl nodes excluded items s s' :
  process_groups cfg env fuel cl nodes excluded items s = (Ret tt, s') ->
  forall item o node, In item items -> In o (fst (snd item)) ->
    instance_to_node_cache s !! InstanceId o = Some node ->
    emitted s s' (EvListPods node).
Proof.
  revert s. induction items as [|i items IH]; intros s H item o node Hi Ho Hc; [destruct Hi|].
  cbn [process_groups] in H.
  apply bind_Ret in H as ([] & s1 & H1 & H2).
  assert (F1 : frame any_call everywhere everywhere s s1).
  { eapply preserves_run; [|exact H1]. apply f_process_group; exact I. }
  assert (F2 : frame any_call everywhere everywhere s1 s').
  { eapply preserves_run; [|exact H2]. apply f_process_groups. intros; repeat split. }
  destruct Hi as [<-|Hi].
  - eapply emitted_widen; [apply extends_refl | | exact (frame_extends _ _ _ _ _ F2)].
    eapply process_group_drains; eauto.
  - eapply emitted_widen; [exact (frame_extends _ _ _ _ _ F1) | | apply extends_refl].
    eapply IH; eauto. eapply fr_cache; eauto.
Qed.

(** In run mode 2 a run that completes has three phases: the scale-up of
    every group of the plan, the cordon of the groups in the worker group
    order (after one listing of the nodes), and the main loop over the sorted
    plan.  Every outdated instance of a group of the sorted plan is cordoned
    in the second phase and drained in the third. *)
Lemma update_asgs_mode_2_phases fuel asgs cluster s s' :
  RUN_MODE cfg = 2 ->
  update_asgs cfg env fuel asgs cluster s = (Ret tt, s') ->
  exists s1 listed s2 s3,
    scale_up_all cfg env fuel cluster (plan_asgs env asgs)
                 (set_asg_state_dict ∅ (set_cache ∅ s)) = (Ret tt, s1)
    /\ get_k8s_nodes cfg env s1 = (Ret listed, s2)
    /\ cordon_all cfg env (fst listed) (plan_asgs env asgs) s2 = (Ret tt, s3)
    /\ process_groups cfg env fuel cluster (fst listed) (snd listed)
                      (sort_asgs cfg (plan_asgs env asgs)) s3 = (Ret tt, s')
    /\ calls_between s s' = calls_between s s3 ++ calls_between s3 s'
    /\ forall item outdated,
         In item (sort_asgs cfg (plan_asgs env asgs)) ->
         In outdated (fst (snd item)) ->
         exists node,
           instance_to_node_cache s' !! InstanceId outdated = Some node
           /\ In (EvPatchNode node (cordon_patch cfg) (DRY_RUN cfg)) (calls_between s s3)
           /\ In (EvListPods node) (calls_between s3 s').
Proof.
  intros Hmode H.
  unfold update_asgs in H. cbv zeta in H. rewrite Hmode in H.
  change (2 =? 4) with false in H. change (2 =? 2) with true in H.
  change (2 =? 3) with false in H. cbn [orb when] in H.
  rewrite !bind_modify in H.
  set (s0 := set_asg_state_dict ∅ (set_cache ∅ s)) in *.
  apply bind_Ret in H as ([] & s1 & H1 & H).
  apply bind_Ret in H as (listed & s2 & H2 & H).
  apply bind_Ret in H as ([] & s3 & H3 & H4).
  assert (F1 : frame any_call everywhere everywhere s0 s1).
  { eapply preserves_run; [|exact H1]. apply f_scale_up_all. intros; split; exact I. }
  assert (F2 : frame any_call everywhere everywhere s1 s2).
  { eapply preserves_run; [|exact H2].
    apply quiet_to_frame, (q_get_k8s_nodes cfg env any_call health_is_any). }
  assert (F3 : frame any_call everywhere everywhere s2 s3).
  { eapply preserves_run; [|exact H3]. apply f_cordon_all. }
  assert (F4 : frame any_call everywhere everywhere s3 s').
  { eapply preserves_run; [|exact H4]. apply f_process_groups. intros; repeat split. }
  assert (E02 : extends s s2).
  { apply extends_trans with s0; [exists []; reflexivity|].
    exact (frame_extends _ _ _ _ _ (frame_trans _ _ _ _ _ _ F1 F2)). }
  assert (E03 : extends s s3).
  { apply extends_trans with s2; [exact E02 | exact (frame_extends _ _ _ _ _ F3)]. }
  exists s1, listed, s2, s3.
  split; [exact H1|]. split; [exact H2|]. split; [exact H3|]. split; [exact H4|].
  split; [apply calls_between_split; [exact E03 | exact (frame_extends _ _ _ _ _ F4)]|].
  intros item o Hin Ho.
  destruct (sort_asgs_In _ _ Hin) as [Hplan Horder].
  destruct (cordon_all_cordons _ _ _ _ H3 _ o Hplan Horder Ho) as (node & Hnode & Hcordon).
  exists node.
  split; [eapply fr_cache; eauto|].
  split.
  - apply emitted_calls_between.
    eapply emitted_widen; [exact E02 | exact Hcordon | apply extends_refl].
  - apply emitted_calls_between.
    destruct item as [name [outs asg]].
    exact (process_groups_drain _ _ _ _ _ _ _ H4 _ o node Hin Ho Hnode).
Qed.

End DrainPhase.

(** ** Ordered dictionaries *)

Lemma fold_left_invariant {A B} (P : A -> Prop) (f : A -> B -> A) l a :
  P a -> (forall a b, P a -> P (f a b)) -> P (fold_left f l a).
Proof. revert a. induction l; simpl; auto. Qed.

Lemma dict_set_keys_In {V} k (v : V) d k' :
  In k' (map fst (dict_set k v d)) -> k' = k \/ In k' (map fst d).
Proof.
  intros H. apply in_map_iff in H as [[k0 v0] [E H]]. simpl in E. subst k0.
  destruct (dict_set_In _ _ _ _ H) as [E|H']; [left; congruence|right].
  apply in_map_iff. exists (k', v0). auto.
Qed.

(** An assignment keeps the keys of a dictionary distinct. *)
Lemma dict_set_NoDup {V} k (v : V) d :
  NoDup (map fst d) -> NoDup (map fst (dict_set k v d)).
Proof.
  induction d as [|[k' v'] d IH]; simpl; intros H.
  - constructor; [intros Hx; inversion Hx | constructor].
  - inversion H as [|? ? Hn Hd]; subst. destruct (String.eqb k' k) eqn:E; simpl.
    + constructor; assumption.
    + constructor; [|auto]. intros Hin. apply list_elem_of_In in Hin.
      destruct (dict_set_keys_In _ _ _ _ Hin) as [->|Hin'].
      * now rewrite String.eqb_refl in E.
      * apply Hn. now apply list_elem_of_In.
Qed.

Lemma NoDup_keys_eq {V} (d : list (string * V)) k v v' :
  NoDup (map fst d) -> In (k, v) d -> In (k, v') d -> v = v'.
Proof.
  induction d as [|[k0 v0] d IH]; simpl; intros H H1 H2; [destruct H1|].
  inversion H as [|? ? Hn Hd]; subst.
  assert (Hk : forall w, In (k0, w) d -> False).
  { intros w Hw. apply Hn. apply list_elem_of_In, in_map_iff. exists (k0, w). auto. }
  destruct H1 as [E1|H1], H2 as [E2|H2]; simplify_eq; eauto; exfalso; eauto.
Qed.

Lemma plan_with_NoDup outdated asgs : NoDup (map fst (plan_with outdated asgs)).
Proof.
  unfold plan_with. apply fold_left_invariant; [constructor|].
  intros d asg. apply dict_set_NoDup.
Qed.

Lemma plan_with_key outdated asgs item :
  In item (plan_with outdated asgs) -> fst item = AutoScalingGroupName (snd (snd item)).
Proof.
  unfold plan_with. revert item.
  apply (fold_left_invariant
           (fun d => forall item, In item d -> fst item = AutoScalingGroupName (snd (snd item)))).
  - intros item [].
  - intros d asg Hd item Hi. destruct (dict_set_In _ _ _ _ Hi) as [->|Hi']; auto.
Qed.

Section Restoring.
Context (cfg : Config) (env : Env).

Local Notation "'everywhere'" := (fun _ : string => True).
Local Notation "'nowhere'" := (fun _ : string => False).
Local Hint Extern 1 => exact I : frames.

Lemma sort_asgs_NoDup plan : NoDup (map fst (sort_asgs cfg plan)).
Proof.
  unfold sort_asgs. apply fold_left_invariant; [constructor|].
  intros sorted group Hs. apply fold_left_invariant; [exact Hs|].
  intros d item Hd. destruct (str_in group (fst item)); [now apply dict_set_NoDup | exact Hd].
Qed.

Lemma plan_of_NoDup asgs : NoDup (map fst (plan_of cfg env asgs)).
Proof. unfold plan_of. destruct (RUN_MODE cfg =? 4); apply plan_with_NoDup. Qed.

Lemma plan_of_key asgs item :
  In item (plan_of cfg env asgs) -> fst item = AutoScalingGroupName (snd (snd item)).
Proof. unfold plan_of. destruct (RUN_MODE cfg =? 4); apply plan_with_key. Qed.

(** *** What the steps that return leave behind *)

Lemma int_of_Value_Ret d z s s' :
  int_of_Value d s = (Ret z, s') -> get_Value d ≫= int_of_str = Some z /\ s' = s.
Proof.
  unfold int_of_Value, raise, ret. destruct (get_Value d) as [v|]; simpl; [|discriminate].
  destruct (int_of_str v); intros H; simplify_eq. auto.
Qed.

(** The triple that [scale_up_asg] returns ends with the original state of
    the group. *)
Lemma scale_up_asg_Ret fuel cl asg count d o m s s' :
  scale_up_asg cfg env fuel cl asg count s = (Ret (d, o, m), s') ->
  original_state cfg env asg count = Some (o, m).
Proof.
  unfold scale_up_asg, original_state, resumed, tag_set, tag_int, get_asg_tag. cbv zeta.
  intros H. apply bind_Ret in H as ([] & s1 & _ & H).
  replace (DesiredCapacity asg + count =? DesiredCapacity asg) with (count =? 0) in H
    by (destruct (Z.eqb_spec count 0),
          (Z.eqb_spec (DesiredCapacity asg + count) (DesiredCapacity asg)); lia || reflexivity).
  set (td := e_get_asg_tag env (Tags asg) (ASG_DESIRED_STATE_TAG cfg)) in *.
  set (to := e_get_asg_tag env (Tags asg) (ASG_ORIG_CAPACITY_TAG cfg)) in *.
  set (tm := e_get_asg_tag env (Tags asg) (ASG_ORIG_MAX_CAPACITY_TAG cfg)) in *.
  destruct (count =? 0).
  - destruct (opt_truthy (get_Value td) && opt_truthy (get_Value to)
              && opt_truthy (get_Value tm)).
    + apply bind_Ret in H as (d' & s2 & _ & H).
      apply bind_Ret in H as (o' & s3 & Ho & H).
      apply bind_Ret in H as (m' & s4 & Hm & H).
      unfold ret in H. simplify_eq.
      apply int_of_Value_Ret in Ho as [-> _]. apply int_of_Value_Ret in Hm as [-> _].
      reflexivity.
    + apply bind_Ret in H as ([] & s2 & _ & H).
      apply bind_Ret in H as ([] & s3 & _ & H).
      apply bind_Ret in H as ([] & s4 & _ & H).
      unfold ret in H. simplify_eq. reflexivity.
  - destruct (opt_truthy (get_Value td)).
    + apply bind_Ret in H as (e' & s2 & _ & H).
      apply bind_Ret in H as ([] & s2' & _ & H).
      apply bind_Ret in H as (d' & s3' & _ & H).
      apply bind_Ret in H as (o' & s3 & Ho & H).
      apply bind_Ret in H as (m' & s4 & Hm & H).
      unfold ret in H. simplify_eq.
      apply int_of_Value_Ret in Ho as [-> _]. apply int_of_Value_Ret in Hm as [-> _].
      reflexivity.
    + apply bind_Ret in H as ([] & s2 & _ & H).
      apply bind_Ret in H as ([] & s3 & _ & H).
      apply bind_Ret in H as ([] & s4 & _ & H).
      apply bind_Ret in H as ([] & s5 & _ & H).
      unfold ret in H. simplify_eq. reflexivity.
Qed.

Lemma update_group_Ret name f s s' :
  update_group name f s = (Ret tt, s') ->
  exists g, groups s !! name = Some g /\ groups s' = <[name := f g]> (groups s).
Proof.
  unfold update_group. destruct (groups s !! name) as [g|]; intros H; simplify_eq.
  exists g. auto.
Qed.

Lemma scale_asg_Ret name c d m s s' :
  scale_asg name c d m s = (Ret tt, s') ->
  exists g, groups s' !! name = Some (mkGroup d m (g_tags g)).
Proof.
  unfold scale_asg. intros H. apply bind_Ret in H as ([] & s1 & H1 & H).
  apply update_group_Ret in H as (g & _ & ->). exists g. apply lookup_insert_eq.
Qed.

Lemma delete_asg_tags_Ret name key s s' g :
  groups s !! name = Some g ->
  delete_asg_tags name key s = (Ret tt, s') ->
  groups s' !! name = Some (mkGroup (g_desired g) (g_max g) (delete key (g_tags g))).
Proof.
  unfold delete_asg_tags. intros Hg H. apply bind_Ret in H as ([] & s1 & H1 & H).
  unfold emit, modify in H1. simplify_eq.
  apply update_group_Ret in H as (g' & Hg' & ->). simpl in Hg'.
  rewrite Hg in Hg'. simplify_eq. apply lookup_insert_eq.
Qed.

Lemma lookup_asg_state_Ret name state s s' :
  lookup_asg_state name s = (Ret state, s') ->
  asg_state_dict s !! name = Some state /\ s' = s.
Proof.
  unfold lookup_asg_state, bind, get_state, ret, raise.
  destruct (asg_state_dict s !! name); intros H; simplify_eq. auto.
Qed.

Lemma q_when_modify_aws_autoscaling c n a :
  preserves (quiet any_call) (when c (modify_aws_autoscaling n a)).
Proof. destruct c; simpl; [apply q_modify_aws_autoscaling|]. frame_auto. Qed.

(** The retirement of a group that returns has read the recorded state of the
    group and has returned the group to it, without its three tags. *)
Lemma retire_group_restores fuel nodes excluded name outs s s' :
  retire_group cfg env fuel nodes excluded name outs s = (Ret tt, s') ->
  exists state, asg_state_dict s !! name = Some state
    /\ group_restored cfg s' name (snd (fst state)) (snd state).
Proof.
  intros H. unfold retire_group in H. cbv zeta in H.
  apply bind_Ret in H as ([] & s1 & H1 & H).
  apply bind_Ret in H as (st & s2 & H2 & H).
  rewrite !bind_modify in H.
  apply bind_Ret in H as ([] & s3 & H3 & H).
  apply bind_Ret in H as (st' & s4 & H4 & H).
  apply bind_Ret in H as ([] & s5 & H5 & H).
  apply bind_Ret in H as ([] & s6 & H6 & H).
  apply bind_Ret in H as ([] & s7 & H7 & H).
  apply bind_Ret in H as ([] & s8 & H8 & H9).
  assert (Q1 : quiet any_call s s1).
  { eapply preserves_run; [|exact H1]. frame_auto. apply q_modify_aws_autoscaling. }
  apply lookup_asg_state_Ret in H2 as [Hst ->].
  apply lookup_asg_state_Ret in H4 as [Hst' ->].
  assert (F3 : frame any_call everywhere nowhere
                 (set_running_updates 0 (set_desired_asg_capacity (fst (fst st)) s1)) s3).
  { eapply preserves_run; [|exact H3]. apply f_retire_instances. exact I. }
  rewrite (fr_dict _ _ _ _ _ F3) in Hst' by tauto. simpl in Hst'.
  rewrite Hst in Hst'. simplify_eq.
  exists st'. split; [now rewrite <- (q_dict _ _ _ Q1)|].
  apply scale_asg_Ret in H5 as [g Hg].
  assert (Q6 : quiet any_call s5 s6).
  { eapply preserves_run; [|exact H6]. apply q_when_modify_aws_autoscaling. }
  rewrite <- (q_groups _ _ _ Q6) in Hg.
  pose proof (delete_asg_tags_Ret _ _ _ _ _ Hg H7) as Hg7.
  pose proof (delete_asg_tags_Ret _ _ _ _ _ Hg7 H8) as Hg8.
  pose proof (delete_asg_tags_Ret _ _ _ _ _ Hg8 H9) as Hg9.
  simpl in Hg9. eexists. split; [exact Hg9|]. simpl.
  repeat split; rewrite ?lookup_delete_None; auto.
Qed.

(** The processing of one group of the sorted plan, when it returns, leaves
    the group in its original state. *)
Lemma process_group_restores fuel cl nodes excluded item s s' :
  (forall state, asg_state_dict s !! fst item = Some state ->
     original_state cfg env (snd (snd item)) (Z.of_nat (length (fst (snd item))))
     = Some (snd (fst state), snd state)) ->
  process_group cfg env fuel cl nodes excluded item s = (Ret tt, s') ->
  exists o m,
    original_state cfg env (snd (snd item)) (Z.of_nat (length (fst (snd item)))) = Some (o, m)
    /\ group_restored cfg s' (fst item) o m.
Proof.
  intros Hj H. unfold process_group in H. cbv zeta in H.
  apply bind_Ret in H as ([] & s1 & H1 & H).
  apply bind_Ret in H as ([] & s2 & H2 & H3).
  destruct (retire_group_restores _ _ _ _ _ _ _ H3) as (st & Hst & Hr).
  exists (snd (fst st)), (snd st). split; [|exact Hr].
  assert (F2 : frame any_call everywhere nowhere s1 s2).
  { eapply preserves_run; [|exact H2]. frame_auto. }
  rewrite (fr_dict _ _ _ _ _ F2) in Hst by tauto.
  destruct ((RUN_MODE cfg =? 1) || (RUN_MODE cfg =? 3) || (RUN_MODE cfg =? 4)); cbn [when] in H1.
  - apply bind_Ret in H1 as (state & s0 & Hs & Hm). unfold modify in Hm. simplify_eq.
    simpl in Hst. rewrite lookup_insert_eq in Hst. simplify_eq.
    destruct st as [[d o] m]. eapply scale_up_asg_Ret; eauto.
  - unfold ret in H1. simplify_eq. now apply Hj.
Qed.

Lemma group_restored_frame (T D : string -> Prop) s s' name o m :
  frame any_call T D s s' -> ~ T name ->
  group_restored cfg s name o m -> group_restored cfg s' name o m.
Proof.
  intros F HT (g & Hg & H). exists g. split; [|exact H].
  now rewrite (fr_groups _ _ _ _ _ F name HT).
Qed.

Lemma process_groups_restore fuel cl nodes excluded items s s' :
  NoDup (map fst items) ->
  (forall item, In item items -> fst item = AutoScalingGroupName (snd (snd item))) ->
  dict_justified cfg env items s ->
  process_groups cfg env fuel cl nodes excluded items s = (Ret tt, s') ->
  forall name outs asg, In (name, (outs, asg)) items ->
    exists o m, original_state cfg env asg (Z.of_nat (length outs)) = Some (o, m)
      /\ group_restored cfg s' name o m.
Proof.
  revert s. induction items as [|i items IH]; intros s Hnd Hkey Hj H name outs asg Hi;
    [destruct Hi|].
  cbn [process_groups] in H.
  apply bind_Ret in H as ([] & s1 & H1 & H2).
  inversion Hnd as [|? ? Hn Hd]; subst.
  assert (Hne : forall item, In item items -> fst item <> fst i).
  { intros item Hin E. apply Hn. rewrite <- E. apply list_elem_of_In. now apply in_map. }
  destruct Hi as [->|Hi].
  - edestruct (process_group_restores fuel cl nodes excluded (name, (outs, asg)) s s1)
      as (o & m & Ho & Hr); [|exact H1|].
    { intros state Hs. simpl. apply (Hj name state outs asg Hs). now left. }
    exists o, m. split; [exact Ho|]. simpl in Hr.
    eapply (group_restored_frame (fun g => g <> name) everywhere); [|tauto|exact Hr].
    eapply preserves_run; [|exact H2]. apply f_process_groups.
    intros item Hin. pose proof (Hne item Hin) as Hx. simpl in Hx.
    repeat split; [exact Hx|]. rewrite <- (Hkey item) by now right. exact Hx.
  - apply (IH s1); auto.
    + intros item Hin. apply Hkey. now right.
    + intros n st os a Hs Hin.
      apply (Hj n st os a); [|now right].
      assert (F1 : frame any_call everywhere (fun g => g = fst i) s s1).
      { eapply preserves_run; [|exact H1]. apply f_process_group; auto. }
      rewrite <- (fr_dict _ _ _ _ _ F1); [exact Hs|].
      apply (Hne (n, (os, a)) Hin).
Qed.

(** The upfront scale-up of run mode 2 records, for every group of the plan,
    a state that ends with the original state of the group. *)
Lemma scale_up_all_justified fuel cl plan items s s' :
  NoDup (map fst plan) -> incl items plan ->
  dict_justified cfg env plan s ->
  scale_up_all cfg env fuel cl items s = (Ret tt, s') ->
  dict_justified cfg env plan s'.
Proof.
  intros Hnd. revert s. induction items as [|[name [outs asg]] items IH];
    intros s Hincl Hj H.
  - unfold scale_up_all, ret in H. now simplify_eq.
  - cbn [scale_up_all] in H. cbv zeta in H.
    apply bind_Ret in H as (state & s1 & H1 & H).
    rewrite bind_modify in H.
    apply IH in H; auto; [intros x Hx; apply Hincl; now right|].
    assert (F1 : frame any_call everywhere nowhere s s1).
    { eapply preserves_run; [|exact H1]. apply f_scale_up_asg. exact I. }
    intros n st os a Hs Hin. simpl in Hs.
    destruct (decide (n = name)) as [->|Hne].
    + rewrite lookup_insert_eq in Hs. simplify_eq.
      assert (E : (os, a) = (outs, asg)).
      { eapply NoDup_keys_eq; [exact Hnd | exact Hin | apply Hincl; now left]. }
      simplify_eq. destruct st as [[d o] m]. eapply scale_up_asg_Ret; eauto.
    + rewrite lookup_insert_ne in Hs by congruence.
      rewrite (fr_dict _ _ _ _ _ F1) in Hs by tauto. eauto.
Qed.

(** In a run that completes, every group of the sorted plan ends with its
    original desired capacity and max size and without the three state
    tags. *)
Lemma update_asgs_restores_sorted_groups fuel asgs cluster s s' :
  update_asgs cfg env fuel asgs cluster s = (Ret tt, s') ->
  forall name outs asg,
    In (name, (outs, asg)) (sort_asgs cfg (plan_of cfg env asgs)) ->
    exists o m,
      original_state cfg env asg (Z.of_nat (length outs)) = Some (o, m)
      /\ group_restored cfg s' name o m.
Proof.
  intros H. unfold update_asgs in H. cbv zeta in H.
  change (if RUN_MODE cfg =? 4 then plan_asgs_older_nodes env asgs else plan_asgs env asgs)
    with (plan_of cfg env asgs) in H.
  rewrite !bind_modify in H.
  set (s0 := set_asg_state_dict ∅ (set_cache ∅ s)) in H.
  apply bind_Ret in H as ([] & s1 & H1 & H).
  apply bind_Ret in H as (listed & s2 & H2 & H).
  apply bind_Ret in H as ([] & s3 & H3 & H4).
  assert (J1 : dict_justified cfg env (plan_of cfg env asgs) s1).
  { destruct (RUN_MODE cfg =? 2); cbn [when] in H1.
    - eapply scale_up_all_justified; [apply plan_of_NoDup | apply incl_refl | | exact H1].
      intros n st os a Hs. simpl in Hs. now rewrite lookup_empty in Hs.
    - unfold ret in H1. simplify_eq.
      intros n st os a Hs. simpl in Hs. now rewrite lookup_empty in Hs. }
  assert (Q2 : quiet any_call s1 s2).
  { eapply preserves_run; [|exact H2]. apply (q_get_k8s_nodes cfg env any_call health_is_any). }
  assert (F3 : frame any_call everywhere nowhere s2 s3).
  { eapply preserves_run; [|exact H3]. frame_auto. }
  apply (process_groups_restore fuel cluster (fst listed) (snd listed) _ s3 s'
           (sort_asgs_NoDup _)); [| |exact H4].
  - intros item Hin. apply (plan_of_key asgs), (sort_asgs_In cfg). exact Hin.
  - intros n st os a Hs Hin. apply (J1 n st os a).
    + rewrite <- (q_dict _ _ _ Q2). rewrite <- (fr_dict _ _ _ _ _ F3) by tauto. exact Hs.
    + apply (sort_asgs_In cfg _ _ Hin).
Qed.

End Restoring.

(** * Further properties of the cluster client *)

Section ClusterClient.
Context (cfg : Config) (env : Env).

Lemma node_included_spec keys node :
  node_included keys node = true <->
  forall key, In key keys -> ~ In key (labels node).
Proof.
  unfold node_included. rewrite forallb_forall. split; intros H key Hk.
  - specialize (H key Hk). apply negb_true_iff in H. intros Hin.
    assert (existsb (String.eqb key) (labels node) = true); [|congruence].
    apply existsb_exists. exists key. split; [exact Hin | apply String.eqb_refl].
  - apply negb_true_iff. destruct (existsb _ _) eqn:E; [|reflexivity].
    apply existsb_exists in E as (l & Hl & El). apply String.eqb_eq in El. subst l.
    now destruct (H key Hk).
Qed.

Lemma node_excluded_spec keys node :
  node_included keys node = false ->
  exists key, In key keys /\ In key (labels node).
Proof.
  unfold node_included. induction keys as [|k keys IH]; simpl; [discriminate|].
  destruct (existsb (String.eqb k) (labels node)) eqn:E; simpl.
  - intros _. apply existsb_exists in E as (l & Hl & El). apply String.eqb_eq in El.
    subst l. exists k. auto.
  - intros H. destruct (IH H) as (key & Hk & Hl). exists key. auto.
Qed.

(** X1.  [get_k8s_nodes] makes one listing call and splits the listed nodes
    in two: every listed node is in exactly one of the two lists, no node of
    the first list carries an excluded label key, every node of the second
    one carries one; without excluded label keys every node is in the first
    list. *)
Theorem get_k8s_nodes_splits_the_listing s :
  exists nodes excluded,
    get_k8s_nodes cfg env s = (Ret (nodes, excluded), snd (emit EvListNode s))
    /\ (forall node, In node (e_list_node env (clock s)) <-> In node nodes \/ In node excluded)
    /\ (forall node, In node nodes -> ~ In node excluded)
    /\ match EXCLUDE_NODE_LABEL_KEYS cfg with
       | Some keys =>
           (forall node, In node nodes -> forall key, In key keys -> ~ In key (labels node))
           /\ (forall node, In node excluded ->
                 exists key, In key keys /\ In key (labels node))
       | None => nodes = e_list_node env (clock s) /\ excluded = []
       end.
Proof.
  unfold get_k8s_nodes, ask, bind, get_state. simpl.
  destruct (EXCLUDE_NODE_LABEL_KEYS cfg) as [keys|]; unfold ret; do 2 eexists;
    (split; [reflexivity|]).
  - repeat split.
    + intros Hin. destruct (node_included keys node) eqn:E.
      * left. apply filter_In. auto.
      * right. apply filter_In. rewrite E. auto.
    + intros [H|H]; apply filter_In in H; tauto.
    + intros node H1 H2. apply filter_In in H1 as [_ H1]. apply filter_In in H2 as [_ H2].
      rewrite H1 in H2. discriminate.
    + intros node H. apply filter_In in H as [_ H]. now apply node_included_spec.
    + intros node H. apply filter_In in H as [_ H]. apply negb_true_iff in H.
      now apply node_excluded_spec.
  - repeat split; auto; intros; simpl in *; tauto.
Qed.

Lemma loop_on_pair_never_returns fuel a b id retries delay attempt s :
  forall name s', get_node_by_instance_id_loop cfg env fuel (NodePair a b) id retries delay
                    attempt s <> (Ret name, s').
Proof.
  intros name s'. destruct fuel; simpl; destruct (attempt <? retries); discriminate.
Qed.

Lemma get_node_by_instance_id_Ret nodes id retries delay s name s' :
  get_node_by_instance_id cfg env (NodeList nodes) id retries delay s = (Ret name, s') ->
  name = scan_list nodes id /\ name <> "" /\ s' = s.
Proof.
  unfold get_node_by_instance_id.
  destruct (Z.to_nat retries) as [|fuel] eqn:Ef; simpl.
  - destruct (0 <? retries); discriminate.
  - destruct (0 <? retries); [|discriminate].
    destruct (str_truthy (scan_list nodes id)) eqn:Et.
    + unfold ret. intros H. simplify_eq. repeat split.
      intros E. rewrite E in Et. discriminate.
    + unfold bind, ret. simpl. change (0 + 1) with 1. destruct (1 <? retries) eqn:E1.
      * intros H. exfalso. revert H. unfold sleep, emit, modify.
        match goal with
        | |- context [get_k8s_nodes cfg env ?x] =>
            destruct (get_k8s_nodes cfg env x) as [[l|e|] s1]; try discriminate
        end.
        apply loop_on_pair_never_returns.
      * destruct fuel; simpl; rewrite E1; discriminate.
Qed.

Lemma get_node_by_instance_id_miss nodes id retries delay s :
  scan_list nodes id = "" ->
  if 1 <? retries
  then fst (get_node_by_instance_id cfg env (NodeList nodes) id retries delay s)
       = Raise AttributeError
       /\ calls_between s (snd (get_node_by_instance_id cfg env (NodeList nodes) id retries
                                  delay s))
          = [EvSleep delay; EvListNode]
  else get_node_by_instance_id cfg env (NodeList nodes) id retries delay s
       = (Raise (Exception ("Could not find a k8s node name for instance id " +:+ id)), s).
Proof.
  intros Hmiss. unfold get_node_by_instance_id.
  destruct (Z.ltb_spec 1 retries) as [H1|H1].
  - destruct (Z.to_nat retries) as [|[|fuel]] eqn:Ef; try lia.
    cbn [get_node_by_instance_id_loop].
    replace (0 <? retries) with true by lia.
    cbn [scan_nodes warn_provider_ids]. rewrite Hmiss. cbn [str_truthy].
    replace (0 + 1 <? retries) with true by lia.
    destruct (get_k8s_nodes_returns cfg env (snd (sleep delay s))) as (l & s1 & El).
    unfold bind at 1 2. cbn [ret]. unfold bind at 1. simpl (sleep delay s).
    unfold get_k8s_nodes, ask, bind, get_state, emit, modify, sleep in *. simpl in *.
    destruct (EXCLUDE_NODE_LABEL_KEYS cfg); unfold ret; simpl; split; try reflexivity;
      apply (calls_between_app _ _ [EvListNode; EvSleep delay]); reflexivity.
  - destruct (Z.to_nat retries) as [|fuel] eqn:Ef; simpl.
    + replace (0 <? retries) with false by lia. reflexivity.
    + replace (0 <? retries) with true by lia. rewrite Hmiss. simpl.
      unfold bind, ret. simpl. change (0 + 1) with 1.
      replace (1 <? retries) with false by lia.
      destruct fuel; simpl; replace (1 <? retries) with false by lia; reflexivity.
Qed.

(** X2.  [get_node_by_instance_id] finds a node on its first scan or never:
    the name it returns is the one of the first node of the list it was
    given whose provider id contains the instance id, and it is returned
    without a sleep and without a new listing. *)
Theorem get_node_by_instance_id_returns_the_first_scan nodes id retries delay s name s' :
  get_node_by_instance_id cfg env (NodeList nodes) id retries delay s = (Ret name, s') ->
  name = scan_list nodes id /\ name <> "" /\ s' = s.
Proof. apply get_node_by_instance_id_Ret. Qed.

(** X3.  When the scan of the given list finds nothing, the lookup fails
    whatever the cluster answers: with more than one attempt configured it
    sleeps once, lists the nodes again and then stops on the attribute error
    that iterating over the refreshed pair raises; otherwise it raises its
    own exception at once, without a call. *)
Theorem get_node_by_instance_id_never_finds_after_refresh nodes id retries delay s :
  scan_list nodes id = "" ->
  if 1 <? retries
  then fst (get_node_by_instance_id cfg env (NodeList nodes) id retries delay s)
       = Raise AttributeError
       /\ calls_between s (snd (get_node_by_instance_id cfg env (NodeList nodes) id retries
                                  delay s))
          = [EvSleep delay; EvListNode]
  else exists msg,
         get_node_by_instance_id cfg env (NodeList nodes) id retries delay s
         = (Raise (Exception msg), s).
Proof.
  intros H. pose proof (get_node_by_instance_id_miss nodes id retries delay s H) as L.
  destruct (1 <? retries); [exact L | eauto].
Qed.

Lemma get_node_by_instance_id_hit nodes id retries delay s :
  0 < retries -> scan_list nodes id <> "" ->
  get_node_by_instance_id cfg env (NodeList nodes) id retries delay s
  = (Ret (scan_list nodes id), s).
Proof.
  intros Hr Hs. unfold get_node_by_instance_id.
  destruct (Z.to_nat retries) as [|fuel] eqn:Ef; [lia|]. simpl.
  replace (0 <? retries) with true by lia.
  destruct (scan_list nodes id) eqn:E; [congruence|]. reflexivity.
Qed.

Lemma node_checks_no_retry d s :
  GLOBAL_MAX_RETRY cfg <= 1 ->
  k8s_nodes_count cfg env d s = (Ret false, s) /\ k8s_nodes_ready cfg env s = (Ret false, s).
Proof.
  intros H. unfold k8s_nodes_count, k8s_nodes_ready.
  replace (Z.to_nat (GLOBAL_MAX_RETRY cfg - 1)) with O by lia. simpl.
  replace (1 <? GLOBAL_MAX_RETRY cfg) with false by lia. split; reflexivity.
Qed.

(** X4.  With [GLOBAL_MAX_RETRY] at most 1 the two node checks do not look at
    the cluster at all: both answer [False] without a call. *)
Theorem node_checks_fail_without_retries d s :
  GLOBAL_MAX_RETRY cfg <= 1 ->
  k8s_nodes_count cfg env d s = (Ret false, s) /\ k8s_nodes_ready cfg env s = (Ret false, s).
Proof. apply node_checks_no_retry. Qed.

Lemma evict_pods_Ret pods s s' :
  evict_pods env pods s = (Ret tt, s') ->
  trace s'
  = rev (map (fun pod => EvEvict (pod_name pod) (pod_namespace pod))
             (List.filter (fun pod => negb (owned_by_daemonset pod)) pods)) ++ trace s.
Proof.
  revert s. induction pods as [|pod pods IH]; intros s; simpl.
  - unfold ret. intros H. now simplify_eq.
  - destruct (owned_by_daemonset pod); simpl; [apply IH|].
    unfold bind, ask, get_state, emit, modify, ret. simpl.
    destruct (e_evict env (clock s) (pod_name pod) (pod_namespace pod)); [|discriminate].
    intros H. rewrite (IH _ H). simpl. now rewrite <- app_assoc.
Qed.

Lemma evict_pods_Raise pods s e s' :
  evict_pods env pods s = (Raise e, s') ->
  exists before pod after,
    List.filter (fun pod => negb (owned_by_daemonset pod)) pods = before ++ pod :: after
    /\ trace s'
       = rev (map (fun pod => EvEvict (pod_name pod) (pod_namespace pod)) (before ++ [pod]))
         ++ trace s
    /\ e = Exception ("Failed to evict pod " +:+ pod_name pod +:+
                      " from namespace " +:+ pod_namespace pod).
Proof.
  revert s. induction pods as [|pod pods IH]; intros s; simpl.
  - discriminate.
  - destruct (owned_by_daemonset pod); simpl; [apply IH|].
    unfold bind, ask, get_state, emit, modify, ret. simpl.
    destruct (e_evict env (clock s) (pod_name pod) (pod_namespace pod)).
    + intros H. destruct (IH _ H) as (before & p & after & Hf & Ht & He).
      exists (pod :: before), p, after. rewrite Hf, Ht. repeat split; auto.
      simpl. now rewrite <- app_assoc.
    + unfold raise. intros H. simplify_eq.
      exists [], pod, (List.filter (fun pod => negb (owned_by_daemonset pod)) pods).
      repeat split.
Qed.

(** X5.  A drain that succeeds has listed the pods of the node and has
    evicted, in the order of the listing, every pod that no DaemonSet owns,
    and no other pod. *)
Theorem drain_node_evicts_all_but_daemonset_pods node s s' :
  drain_node env node s = (Ret tt, s') ->
  exists items,
    e_list_pods env (clock s) node = Some items
    /\ calls_between s s'
       = EvListPods node
         :: map (fun pod => EvEvict (pod_name pod) (pod_namespace pod))
                (List.filter (fun pod => negb (owned_by_daemonset pod)) items).
Proof.
  unfold drain_node, bind, ask, get_state, emit, modify, ret. simpl.
  destruct (e_list_pods env (clock s) node) as [items|]; [|discriminate].
  intros H. exists items. split; [reflexivity|].
  apply evict_pods_Ret in H. simpl in H.
  rewrite (calls_between_app s s' (rev (map (fun pod => EvEvict (pod_name pod) (pod_namespace pod))
             (List.filter (fun pod => negb (owned_by_daemonset pod)) items)) ++ [EvListPods node])).
  - rewrite rev_app_distr, rev_involutive. reflexivity.
  - rewrite H. now rewrite <- app_assoc.
Qed.

(** X6.  A drain that fails stops where it fails: either the listing of the
    pods failed and nothing was evicted, or the last call is the eviction
    that failed, the pods before it were evicted and the pods after it were
    not touched.  What it raises is a plain [Exception]. *)
Theorem drain_node_stops_at_the_first_failure node s e s' :
  drain_node env node s = (Raise e, s') ->
  (e_list_pods env (clock s) node = None
   /\ e = Exception ("Failed to drain node " +:+ node)
   /\ calls_between s s' = [EvListPods node])
  \/ exists items before pod after,
       e_list_pods env (clock s) node = Some items
       /\ List.filter (fun pod => negb (owned_by_daemonset pod)) items = before ++ pod :: after
       /\ (exists msg, e = Exception msg)
       /\ calls_between s s'
          = EvListPods node
            :: map (fun pod => EvEvict (pod_name pod) (pod_namespace pod)) (before ++ [pod]).
Proof.
  unfold drain_node, bind, ask, get_state, emit, modify, ret. simpl.
  destruct (e_list_pods env (clock s) node) as [items|].
  - intros H. right. apply evict_pods_Raise in H as (before & pod & after & Hf & Ht & He).
    exists items, before, pod, after. repeat split; eauto. simpl in Ht.
    rewrite (calls_between_app s s'
               (rev (map (fun pod => EvEvict (pod_name pod) (pod_namespace pod))
                         (before ++ [pod])) ++ [EvListPods node])).
    + rewrite rev_app_distr, rev_involutive. reflexivity.
    + rewrite Ht. now rewrite <- app_assoc.
  - unfold raise. intros H. simplify_eq. left. repeat split.
    apply (calls_between_app _ _ [EvListPods node]). reflexivity.
Qed.

(** X7.  [modify_k8s_autoscaler] reads the deployment once and patches it at
    most once, with 0 replicas to pause and [K8S_AUTOSCALER_REPLICAS] to
    resume; for any other action, and when the deployment is missing or has
    no replica, it patches nothing. *)
Theorem modify_k8s_autoscaler_patches_as_asked action s :
  calls_between s (snd (modify_k8s_autoscaler cfg env action s)) = [EvReadDeployment]
  \/ exists r,
       calls_between s (snd (modify_k8s_autoscaler cfg env action s))
       = [EvReadDeployment; EvPatchDeployment r]
       /\ (exists n, e_read_deployment env (clock s) = Deployment (Some n) /\ 0 < n)
       /\ ((action = "pause" /\ r = 0)
           \/ (action = "resume" /\ r = K8S_AUTOSCALER_REPLICAS cfg)).
Proof.
  unfold modify_k8s_autoscaler, is_autoscaler_running, bind, ask, get_state, emit, modify.
  simpl.
  destruct (e_read_deployment env (clock s)) as [[n|]| |] eqn:Er; simpl;
    try (left; apply (calls_between_app _ _ [EvReadDeployment]); reflexivity).
  destruct (Z.ltb_spec 0 n); simpl;
    [|left; apply (calls_between_app _ _ [EvReadDeployment]); reflexivity].
  destruct (String.eqb_spec action "pause") as [->|Hp]; simpl.
  - right. exists 0. split; [|split; [eauto | auto]].
    destruct (e_patch_deployment env _);
      apply (calls_between_app _ _ [EvPatchDeployment 0; EvReadDeployment]); reflexivity.
  - destruct (String.eqb_spec action "resume") as [->|Hr]; simpl.
    + right. exists (K8S_AUTOSCALER_REPLICAS cfg). split; [|split; [eauto | auto]].
      destruct (e_patch_deployment env _);
        apply (calls_between_app _ _ [EvPatchDeployment _; EvReadDeployment]); reflexivity.
    + left. apply (calls_between_app _ _ [EvReadDeployment]). reflexivity.
Qed.

End ClusterClient.

(** * Further properties of the orchestrator *)

Section Orchestrator.
Context (cfg : Config) (env : Env).

Local Notation "'everywhere'" := (fun _ : string => True).
Local Hint Extern 1 => exact I : frames.

(** X8.  The health validation only observes: whatever its outcome, the calls
    it makes are sleeps, reads of the group and listings of the nodes, and it
    leaves the groups, the recorded states and the node-name cache as they
    were. *)
Theorem validate_cluster_health_only_observes n c cl p k s :
  Forall is_health_call (calls_between s (snd (validate_cluster_health cfg env n c cl p k s)))
  /\ groups (snd (validate_cluster_health cfg env n c cl p k s)) = groups s
  /\ asg_state_dict (snd (validate_cluster_health cfg env n c cl p k s)) = asg_state_dict s
  /\ instance_to_node_cache (snd (validate_cluster_health cfg env n c cl p k s))
     = instance_to_node_cache s.
Proof.
  pose proof (q_validate_cluster_health cfg env is_health_call (fun e H => H) n c cl p k s) as Q.
  split; [eapply quiet_calls_between; exact Q|]. destruct Q; auto.
Qed.

Lemma validate_loop_without_node_retry n c cl p :
  GLOBAL_MAX_RETRY cfg <= 1 ->
  forall fuel rc s, (Z.to_nat (CLUSTER_HEALTH_RETRY cfg - rc) <= fuel)%nat ->
    fst (validate_cluster_health_loop cfg env fuel n c cl p rc s)
    = Raise (Exception "ASG healthcheck failed").
Proof.
  intros Hg. induction fuel as [|fuel IH]; intros rc s Hf; simpl.
  - destruct (Z.ltb_spec rc (CLUSTER_HEALTH_RETRY cfg)); [lia | reflexivity].
  - destruct (Z.ltb_spec rc (CLUSTER_HEALTH_RETRY cfg)); [|reflexivity].
    unfold bind, sleep, is_asg_scaled, is_asg_healthy, count_all_cluster_instances, ask,
      get_state, emit, modify, ret. simpl.
    destruct (e_is_asg_scaled env _ n c); simpl; [|apply IH; lia].
    destruct (e_is_asg_healthy env _ n); simpl; [|apply IH; lia].
    rewrite (proj1 (node_checks_no_retry cfg env _ _ Hg)). simpl. apply IH. lia.
Qed.

(** X9.  With [GLOBAL_MAX_RETRY] at most 1 no health validation can succeed:
    the node count check answers [False] in every attempt, so the validation
    uses up its attempts and raises, whatever the cloud and the cluster
    answer. *)
Theorem validate_cluster_health_fails_without_node_retries n c cl p k s :
  GLOBAL_MAX_RETRY cfg <= 1 ->
  fst (validate_cluster_health cfg env n c cl p k s)
  = Raise (Exception "ASG healthcheck failed").
Proof.
  intros Hg. unfold validate_cluster_health.
  apply validate_loop_without_node_retry; [exact Hg | lia].
Qed.

(** *** Computations that never exit and never hang *)

Lemma lenient_ret {A} (a : A) : lenient (ret a).
Proof. intros s. exact I. Qed.

Lemma lenient_raise {A} e : is_Exception e = true -> lenient (@raise A e).
Proof. intros H s. exact H. Qed.

Lemma lenient_modify f : lenient (modify f).
Proof. intros s. exact I. Qed.

Lemma lenient_get_state : lenient get_state.
Proof. intros s. exact I. Qed.

Lemma lenient_emit e : lenient (emit e).
Proof. intros s. exact I. Qed.

Lemma lenient_ask {A} e (answer : nat -> A) : lenient (ask e answer).
Proof. intros s. exact I. Qed.

Lemma lenient_bind {A B} (m : M A) (f : A -> M B) :
  lenient m -> (forall a, lenient (f a)) -> lenient (bind m f).
Proof.
  intros Hm Hf s. unfold bind. specialize (Hm s).
  destruct (m s) as [[a|e|] s1]; simpl in *; auto. apply Hf.
Qed.

Lemma lenient_when c m : lenient m -> lenient (when c m).
Proof. intros H. destruct c; simpl; [exact H | apply lenient_ret]. Qed.

Lemma lenient_update_group n f : lenient (update_group n f).
Proof. intros s. unfold update_group. destruct (groups s !! n); exact I || reflexivity. Qed.

Lemma lenient_save_asg_tags n k v : lenient (save_asg_tags n k v).
Proof.
  unfold save_asg_tags. apply lenient_bind; [apply lenient_emit|].
  intros _. apply lenient_update_group.
Qed.

Lemma lenient_evict_pods pods : lenient (evict_pods env pods).
Proof.
  induction pods as [|pod pods IH]; simpl; [apply lenient_ret|].
  destruct (owned_by_daemonset pod); [exact IH|].
  apply lenient_bind; [apply lenient_ask|]. intros [|]; [exact IH|].
  now apply lenient_raise.
Qed.

Lemma lenient_drain_node node : lenient (drain_node env node).
Proof.
  unfold drain_node. apply lenient_bind; [apply lenient_ask|].
  intros [items|]; [apply lenient_evict_pods | now apply lenient_raise].
Qed.

Lemma resolve_node_name_found nodes id s :
  instance_to_node_cache s !! id = None -> scan_list nodes id <> "" ->
  resolve_node_name cfg env nodes id s
  = (Ret (scan_list nodes id),
     set_cache (<[id := scan_list nodes id]> (instance_to_node_cache s)) s).
Proof.
  intros Hc Hs. unfold resolve_node_name, bind, get_state. rewrite Hc.
  rewrite get_node_by_instance_id_hit by (lia || assumption). reflexivity.
Qed.

Lemma resolve_node_name_missing nodes id s :
  instance_to_node_cache s !! id = None -> scan_list nodes id = "" ->
  exists s', resolve_node_name cfg env nodes id s = (Raise AttributeError, s')
             /\ quiet any_call s s'.
Proof.
  intros Hc Hs. unfold resolve_node_name, bind, get_state. rewrite Hc.
  pose proof (get_node_by_instance_id_miss cfg env nodes id 3 5 s Hs) as [Hm _].
  pose proof (q_get_node_by_instance_id cfg env any_call health_is_any (NodeList nodes) id 3 5 s)
    as Q.
  destruct (get_node_by_instance_id cfg env (NodeList nodes) id 3 5 s) as [r s1].
  simpl in Hm, Q. subst r. eauto.
Qed.

Lemma resolve_node_name_lenient nodes id : lenient (resolve_node_name cfg env nodes id).
Proof.
  intros s. destruct (instance_to_node_cache s !! id) as [n|] eqn:Hc.
  - now rewrite (resolve_node_name_hit cfg env nodes id n s Hc).
  - destruct (string_dec (scan_list nodes id) "") as [Hs|Hs].
    + destruct (resolve_node_name_missing nodes id s Hc Hs) as (s' & -> & _). reflexivity.
    + now rewrite (resolve_node_name_found nodes id s Hc Hs).
Qed.

(** What follows the lookup of the node in the retirement of an instance. *)
Lemma retirement_steps_lenient name o node :
  lenient
    (modify (fun s => set_desired_asg_capacity (desired_asg_capacity s - 1) s) ;;;
     drain_node env node ;;;
     delete_node cfg node ;;;
     s <- get_state ;;
     save_asg_tags name (ASG_DESIRED_STATE_TAG cfg) (desired_asg_capacity s) ;;;
     if negb (ASG_USE_TERMINATION_POLICY cfg) then
       terminate_instance_in_asg env (InstanceId o) ;;;
       modify (fun s => set_running_updates (running_updates s + 1) s) ;;;
       when (num_truthy (BETWEEN_NODES_WAIT cfg)) (sleep (BETWEEN_NODES_WAIT cfg))
     else ret tt).
Proof.
  repeat first [ apply lenient_drain_node | apply lenient_save_asg_tags
               | apply lenient_modify | apply lenient_emit
               | apply lenient_get_state
               | apply lenient_ask | apply lenient_when | apply lenient_ret
               | match goal with |- lenient (if ?b then _ else _) => destruct b end
               | apply lenient_bind; [|intros ?] ].
Qed.

Lemma retire_instance_resolved name nodes excluded o node s s1 :
  resolve_node_name cfg env nodes (InstanceId o) s = (Ret node, s1) ->
  fst (retire_instance cfg env name nodes excluded o s) = Ret tt.
Proof.
  intros Hres. pose proof (resolve_node_name_Ret cfg env _ _ _ _ _ Hres) as Hc.
  unfold retire_instance, try_except. cbv zeta.
  rewrite (bind_run _ _ _ _ _ Hres).
  match goal with
  | |- context [bind (modify ?f) ?k s1] =>
      pose proof (retirement_steps_lenient name o node s1) as Hl;
      assert (F : frame any_call everywhere everywhere s1 (snd (bind (modify f) k s1)))
        by (assert (HF : preserves (frame any_call everywhere everywhere) (bind (modify f) k))
              by frame_auto; apply HF);
      destruct (bind (modify f) k s1) as [[[]|x|] sb]
  end; simpl in Hl, F; [reflexivity| |contradiction].
  unfold except_Exception. rewrite Hl.
  rewrite (bind_run _ _ _ _ _
             (resolve_node_name_hit cfg env excluded _ node sb (fr_cache _ _ _ _ _ F _ _ Hc))).
  reflexivity.
Qed.

(** X10.  Once the node of an instance is known (it is in the cache or is
    found among the included nodes), no failure of its retirement stops the
    run: whether the drain, the write of the tag or anything else in the
    retirement fails, the handler finds the instance in the cache, takes the
    node for an excluded one and the retirement returns. *)
Theorem retire_instance_passes_over_every_failure name nodes excluded o s :
  instance_to_node_cache s !! InstanceId o <> None
  \/ scan_list nodes (InstanceId o) <> "" ->
  fst (retire_instance cfg env name nodes excluded o s) = Ret tt.
Proof.
  intros H. destruct (instance_to_node_cache s !! InstanceId o) as [n|] eqn:Hc.
  - eapply retire_instance_resolved. apply (resolve_node_name_hit cfg env nodes _ n s Hc).
  - destruct H as [H|H]; [congruence|].
    eapply retire_instance_resolved. apply (resolve_node_name_found nodes _ s Hc H).
Qed.

Lemma retire_instance_Raise name nodes excluded o s e s' :
  retire_instance cfg env name nodes excluded o s = (Raise e, s') ->
  e = RollingUpdateException "Rolling update on ASG failed" name
  /\ instance_to_node_cache s !! InstanceId o = None
  /\ scan_list nodes (InstanceId o) = ""
  /\ scan_list excluded (InstanceId o) = "".
Proof.
  intros H.
  destruct (instance_to_node_cache s !! InstanceId o) as [n|] eqn:Hc.
  { pose proof (retire_instance_resolved name nodes excluded o n s s
                  (resolve_node_name_hit cfg env nodes _ n s Hc)) as E.
    rewrite H in E. discriminate. }
  destruct (string_dec (scan_list nodes (InstanceId o)) "") as [Hs|Hs].
  2: { pose proof (retire_instance_resolved name nodes excluded o _ s _
                     (resolve_node_name_found nodes _ s Hc Hs)) as E.
       rewrite H in E. discriminate. }
  destruct (resolve_node_name_missing nodes _ s Hc Hs) as (s1 & Hres & Q).
  unfold retire_instance, try_except in H. cbv zeta in H.
  rewrite (bind_run _ _ _ _ _ Hres) in H. cbn [except_Exception is_Exception] in H.
  assert (Hc1 : instance_to_node_cache s1 !! InstanceId o = None)
    by now rewrite (q_cache _ _ _ Q).
  destruct (string_dec (scan_list excluded (InstanceId o)) "") as [Hx|Hx].
  - destruct (resolve_node_name_missing excluded _ s1 Hc1 Hx) as (s2 & Hres2 & _).
    rewrite (bind_run _ _ _ _ _ Hres2) in H. cbn [except_all] in H.
    unfold raise in H. simplify_eq. auto.
  - rewrite (bind_run _ _ _ _ _ (resolve_node_name_found excluded _ s1 Hc1 Hx)) in H.
    discriminate.
Qed.

(** X11.  The retirement of an instance raises only for an instance without
    a node: one that is not in the cache and that no included and no
    excluded node carries.  What it raises is the [RollingUpdateException]
    of the group. *)
Theorem retire_instance_fails_only_without_a_node name nodes excluded o s e s' :
  retire_instance cfg env name nodes excluded o s = (Raise e, s') ->
  e = RollingUpdateException "Rolling update on ASG failed" name
  /\ instance_to_node_cache s !! InstanceId o = None
  /\ scan_list nodes (InstanceId o) = ""
  /\ scan_list excluded (InstanceId o) = "".
Proof. apply retire_instance_Raise. Qed.

Lemma cordon_instances_outcome nodes outs s :
  match fst (cordon_instances cfg env nodes outs s) with
  | Ret _ => True
  | Raise e => e = SystemExit 1
  | OutOfFuel => False
  end.
Proof.
  revert s. induction outs as [|o outs IH]; intros s; cbn [cordon_instances]; [exact I|].
  unfold bind at 1. unfold try_except.
  assert (Hl : lenient (node_name <- resolve_node_name cfg env nodes (InstanceId o) ;;
                        cordon_or_taint cfg node_name)).
  { apply lenient_bind; [apply resolve_node_name_lenient|]. intros n.
    unfold cordon_or_taint, cordon_node, taint_node. destruct (negb _); apply lenient_emit. }
  specialize (Hl s).
  destruct (bind (resolve_node_name cfg env nodes (InstanceId o)) _ s) as [[[]|x|] s1];
    simpl in Hl.
  - apply IH.
  - unfold except_Exception. rewrite Hl. reflexivity.
  - contradiction.
Qed.

(** X12.  The upfront cordon of run modes 2 and 3 either ends the process
    with status 1 or returns with the node name of every instance it was
    given in the cache; it raises nothing else. *)
Theorem cordon_instances_exits_or_caches_every_node nodes outs s :
  fst (cordon_instances cfg env nodes outs s) = Raise (SystemExit 1)
  \/ (fst (cordon_instances cfg env nodes outs s) = Ret tt
      /\ forall o, In o outs ->
           exists node,
             instance_to_node_cache (snd (cordon_instances cfg env nodes outs s))
               !! InstanceId o = Some node).
Proof.
  pose proof (cordon_instances_outcome nodes outs s) as H.
  destruct (cordon_instances cfg env nodes outs s) as [[[]|e|] s'] eqn:E; simpl in *.
  - right. split; [reflexivity|]. apply (cordon_instances_Ret cfg env _ _ _ _ E).
  - left. now subst e.
  - contradiction.
Qed.

(** X13.  In run modes 1 and 4 an outdated instance whose node is among the
    excluded nodes is drained all the same: the cordon step, which passes
    the node over, has stored its name in the cache, and the retirement step
    takes the name from there. *)
Theorem excluded_node_is_drained name nodes excluded o s :
  instance_to_node_cache s !! InstanceId o = None ->
  scan_list nodes (InstanceId o) = "" ->
  scan_list excluded (InstanceId o) <> "" ->
  In (EvListPods (scan_list excluded (InstanceId o)))
     (calls_between s (snd ((cordon_group cfg env nodes excluded [o] ;;;
                             retire_instance cfg env name nodes excluded o) s))).
Proof.
  intros Hc Hn Hx.
  destruct (resolve_node_name_missing nodes _ s Hc Hn) as (s1 & Hres1 & Q1).
  assert (Hc1 : instance_to_node_cache s1 !! InstanceId o = None)
    by now rewrite (q_cache _ _ _ Q1).
  pose proof (resolve_node_name_found excluded _ s1 Hc1 Hx) as Hres2.
  set (n := scan_list excluded (InstanceId o)) in *.
  set (s2 := set_cache (<[InstanceId o := n]> (instance_to_node_cache s1)) s1) in *.
  assert (E1 : cordon_group cfg env nodes excluded [o] s = (Ret tt, s2)).
  { cbn [cordon_group].
    assert (X : try_except
                  (node_name <- resolve_node_name cfg env nodes (InstanceId o) ;;
                   cordon_or_taint cfg node_name)
                  except_Exception
                  (fun _ => try_except
                              (resolve_node_name cfg env excluded (InstanceId o) ;;; ret tt)
                              except_Exception (fun _ => sys_exit 1)) s = (Ret tt, s2)).
    { unfold try_except. rewrite (bind_run _ _ _ _ _ Hres1).
      cbn [except_Exception is_Exception]. rewrite (bind_run _ _ _ _ _ Hres2). reflexivity. }
    rewrite (bind_run _ _ _ _ _ X). reflexivity. }
  rewrite (bind_run _ _ _ _ _ E1).
  apply emitted_calls_between.
  apply (emitted_widen s s2 (snd (retire_instance cfg env name nodes excluded o s2))
           (snd (retire_instance cfg env name nodes excluded o s2)));
    [| |apply extends_refl].
  - destruct (quiet_extends _ _ _ Q1) as [es Ees]. exists es. exact Ees.
  - eapply retire_instance_drains; [|apply surjective_pairing].
    subst s2. simpl. apply lookup_insert_eq.
Qed.

(** X14.  The wait before a retirement is decided when it is entered: below
    the cap it returns at once without a call, at or above the cap it only
    sleeps, however long it is left to run. *)
Theorem wait_for_slot_returns_at_once_or_never fuel s :
  wait_for_slot cfg fuel s
  = if running_updates s <? K8S_PARALLEL_NODES_COUNT cfg
    then (Ret tt, s)
    else (OutOfFuel, sleeps fuel s).
Proof.
  destruct (Z.ltb_spec (running_updates s) (K8S_PARALLEL_NODES_COUNT cfg)).
  - now apply wait_for_slot_free.
  - now apply wait_for_slot_blocked.
Qed.

Lemma dict_set_In_same {V} k (v : V) d : In (k, v) (dict_set k v d).
Proof.
  induction d as [|[k' v'] d IH]; simpl; [now left|].
  destruct (String.eqb_spec k' k) as [->|]; [now left | now right].
Qed.

Lemma dict_set_In_other {V} k (v : V) k' v' d :
  k <> k' -> In (k, v) d -> In (k, v) (dict_set k' v' d).
Proof.
  intros Hne. induction d as [|[k0 v0] d IH]; simpl; [tauto|]. intros [E|H].
  - simplify_eq. destruct (String.eqb_spec k k'); [contradiction | now left].
  - destruct (String.eqb k0 k'); right; auto.
Qed.

Lemma sort_inner_keeps {V} (plan : list (string * V)) group k v :
  NoDup (map fst plan) -> In (k, v) plan ->
  forall l sorted, incl l plan ->
    In (k, v) sorted \/ (In (k, v) l /\ str_in group k = true) ->
    In (k, v) (fold_left (fun sorted item =>
                            if str_in group (fst item)
                            then dict_set (fst item) (snd item) sorted else sorted)
                         l sorted).
Proof.
  intros Hnd Hin. induction l as [|[k' v'] l IH]; intros sorted Hincl H; simpl.
  - destruct H as [H|[[] _]]. exact H.
  - apply IH; [intros x Hx; apply Hincl; now right|].
    destruct H as [H|[[E|H] Hg]].
    + left. destruct (str_in group k'); [|exact H].
      destruct (string_dec k k') as [->|Hne].
      * assert (v' = v) as ->.
        { eapply NoDup_keys_eq; [exact Hnd | apply Hincl; now left | exact Hin]. }
        apply dict_set_In_same.
      * now apply dict_set_In_other.
    + simplify_eq. rewrite Hg. left. apply dict_set_In_same.
    + right. auto.
Qed.

Lemma sort_outer_keeps {V} (plan : list (string * V)) k v :
  NoDup (map fst plan) -> In (k, v) plan ->
  forall gs sorted,
    In (k, v) sorted \/ (exists g, In g gs /\ str_in g k = true) ->
    In (k, v) (fold_left
                 (fun sorted group =>
                    fold_left (fun sorted item =>
                                 if str_in group (fst item)
                                 then dict_set (fst item) (snd item) sorted else sorted)
                              plan sorted)
                 gs sorted).
Proof.
  intros Hnd Hin. induction gs as [|g gs IH]; intros sorted H; simpl.
  - destruct H as [H|(g & [] & _)]. exact H.
  - apply IH. destruct H as [H|(g' & [->|Hg'] & Hs)].
    + left. apply (sort_inner_keeps plan g k v Hnd Hin plan sorted (incl_refl _)). now left.
    + left. apply (sort_inner_keeps plan g' k v Hnd Hin plan sorted (incl_refl _)).
      right. auto.
    + right. eauto.
Qed.

(** X15.  The sorted plan holds exactly the groups of the plan whose name
    contains an entry of the worker group order, each one once and with its
    own list of outdated instances. *)
Theorem sort_asgs_selects_the_ordered_groups plan :
  NoDup (map fst plan) ->
  (forall item, In item (sort_asgs cfg plan) <->
                In item plan /\ in_worker_groups_order cfg (fst item) = true)
  /\ NoDup (map fst (sort_asgs cfg plan)).
Proof.
  intros Hnd. split; [|apply sort_asgs_NoDup].
  intros [k v]. split; [apply sort_asgs_In|].
  intros [Hin Ho]. unfold sort_asgs. apply sort_outer_keeps; auto.
  right. unfold in_worker_groups_order in Ho. apply existsb_exists in Ho. exact Ho.
Qed.

(** X16.  With [--plan] or [DRY_RUN] the tool reads the groups and stops:
    the only call is the one that fetches the groups; the autoscaler is not
    paused and nothing is scaled, cordoned or drained. *)
Theorem main_plan_only_reads_the_groups fuel cluster plan s :
  e_kubectl env = true -> plan || DRY_RUN cfg = true ->
  main cfg env fuel cluster plan s = (Ret tt, snd (emit (EvGetAsgs cluster) s)).
Proof.
  intros Hk Hp. unfold main. rewrite Hk. cbn [negb].
  unfold bind, get_asgs, ask, get_state, emit, modify, ret. simpl.
  rewrite Hp. destruct (RUN_MODE cfg =? 4); reflexivity.
Qed.

Lemma cordon_all_without_order nodes items s :
  K8S_WORKER_GROUPS_ORDER cfg = [] -> cordon_all cfg env nodes items s = (Ret tt, s).
Proof.
  intros H. induction items as [|[n [o a]] items IH]; simpl; [reflexivity|].
  unfold in_worker_groups_order. rewrite H. exact IH.
Qed.

(** X17.  With an empty worker group order a run in a mode other than 2
    does nothing to any group: it lists the nodes once and returns. *)
Theorem update_asgs_without_worker_groups fuel asgs cluster s :
  K8S_WORKER_GROUPS_ORDER cfg = [] -> RUN_MODE cfg <> 2 ->
  update_asgs cfg env fuel asgs cluster s
  = (Ret tt, snd (emit EvListNode (set_asg_state_dict ∅ (set_cache ∅ s)))).
Proof.
  intros Ho Hm. unfold update_asgs. cbv zeta. rewrite !bind_modify.
  replace (RUN_MODE cfg =? 2) with false by lia. cbn [when orb].
  unfold sort_asgs. rewrite Ho. cbn [fold_left process_groups].
  unfold bind at 1. cbn [ret]. unfold bind at 1.
  unfold get_k8s_nodes, ask, bind, get_state, emit, modify. simpl.
  destruct (EXCLUDE_NODE_LABEL_KEYS cfg); unfold ret; simpl;
    (destruct (RUN_MODE cfg =? 3); simpl; [rewrite cordon_all_without_order by exact Ho|]);
    reflexivity.
Qed.

Lemma scale_up_loop_single_step fuel name cl (p : bool) B T M C s :
  C < T -> B = 0 \/ T - C <= B ->
  scale_up_loop cfg env (S fuel) name cl (if p then true else false) B T M C None s
  = spec_scale_steps cfg env name cl p M C [T] s.
Proof.
  intros HCT HB. cbn [scale_up_loop spec_scale_steps].
  replace (if p then true else false) with p by now destruct p.
  unfold num_truthy. destruct (Z.eqb_spec B 0) as [HB0|HB0]; cbn [negb]; cbv beta iota zeta.
  - rewrite Z.eqb_refl. destruct (T >? M); reflexivity.
  - destruct (Z.geb_spec (C + B) T) as [Hge|Hlt]; [|lia].
    rewrite Z.eqb_refl. destruct (T >? M); reflexivity.
Qed.

(** X18.  A fresh rollout without batches ([BATCH_SIZE] 0, or a batch that
    covers all the outdated instances) is a single step: the suspensions
    are cleared, the three tags are written, the capacity is set to the
    target at once (max size follows only when the target exceeds it), the
    cluster health is validated once and the triple is returned. *)
Theorem scale_up_asg_without_batches_is_one_step fuel cl asg count s :
  tag_set env asg (ASG_DESIRED_STATE_TAG cfg) = false ->
  0 < count ->
  BATCH_SIZE cfg = 0 \/ count <= BATCH_SIZE cfg ->
  scale_up_asg cfg env (S fuel) cl asg count s
  = (modify_aws_autoscaling (AutoScalingGroupName asg) "resume" ;;;
     save_asg_tags (AutoScalingGroupName asg) (ASG_ORIG_CAPACITY_TAG cfg)
                   (DesiredCapacity asg) ;;;
     save_asg_tags (AutoScalingGroupName asg) (ASG_DESIRED_STATE_TAG cfg)
                   (DesiredCapacity asg + count) ;;;
     save_asg_tags (AutoScalingGroupName asg) (ASG_ORIG_MAX_CAPACITY_TAG cfg)
                   (MaxSize asg) ;;;
     spec_scale_steps cfg env (AutoScalingGroupName asg) cl (ASG_USE_TERMINATION_POLICY cfg)
                      (MaxSize asg) (DesiredCapacity asg) [DesiredCapacity asg + count] ;;;
     ret (DesiredCapacity asg + count, DesiredCapacity asg, MaxSize asg)) s.
Proof.
  intros Hfresh Hc HB. unfold scale_up_asg.
  replace (DesiredCapacity asg + count =? DesiredCapacity asg) with false by lia.
  unfold tag_set, get_asg_tag in *. rewrite Hfresh.
  assert (Eloop : forall s',
    scale_up_loop cfg env (S fuel) (AutoScalingGroupName asg) cl
      (if ASG_USE_TERMINATION_POLICY cfg then true else false) (BATCH_SIZE cfg)
      (DesiredCapacity asg + count) (MaxSize asg) (DesiredCapacity asg) None s'
    = spec_scale_steps cfg env (AutoScalingGroupName asg) cl (ASG_USE_TERMINATION_POLICY cfg)
        (MaxSize asg) (DesiredCapacity asg) [DesiredCapacity asg + count] s').
  { intros s'. apply scale_up_loop_single_step; lia. }
  unfold bind. msteps; try rewrite Eloop in *; mdone; congruence.
Qed.

Lemma scale_up_asg_target fuel cl asg count d o m s s' :
  scale_up_asg cfg env fuel cl asg count s = (Ret (d, o, m), s') ->
  if resumed cfg env asg count
  then tag_int env asg (ASG_DESIRED_STATE_TAG cfg) = Some d
  else d = DesiredCapacity asg + count.
Proof.
  unfold scale_up_asg, resumed, tag_set, tag_int, get_asg_tag. cbv zeta.
  intros H. apply bind_Ret in H as ([] & s1 & _ & H).
  replace (DesiredCapacity asg + count =? DesiredCapacity asg) with (count =? 0) in H
    by (destruct (Z.eqb_spec count 0),
          (Z.eqb_spec (DesiredCapacity asg + count) (DesiredCapacity asg)); lia || reflexivity).
  set (td := e_get_asg_tag env (Tags asg) (ASG_DESIRED_STATE_TAG cfg)) in *.
  set (to := e_get_asg_tag env (Tags asg) (ASG_ORIG_CAPACITY_TAG cfg)) in *.
  set (tm := e_get_asg_tag env (Tags asg) (ASG_ORIG_MAX_CAPACITY_TAG cfg)) in *.
  destruct (Z.eqb_spec count 0) as [Hz|Hz].
  - destruct (opt_truthy (get_Value td) && opt_truthy (get_Value to)
              && opt_truthy (get_Value tm)).
    + apply bind_Ret in H as (d' & s2 & Hd & H).
      apply bind_Ret in H as (o' & s3 & Ho & H).
      apply bind_Ret in H as (m' & s4 & Hm & H).
      unfold ret in H. simplify_eq. now apply int_of_Value_Ret in Hd as [-> _].
    + apply bind_Ret in H as ([] & s2 & _ & H).
      apply bind_Ret in H as ([] & s3 & _ & H).
      apply bind_Ret in H as ([] & s4 & _ & H).
      unfold ret in H. simplify_eq. lia.
  - destruct (opt_truthy (get_Value td)).
    + apply bind_Ret in H as (e' & s2 & _ & H).
      apply bind_Ret in H as ([] & s2' & _ & H).
      apply bind_Ret in H as (d' & s3' & Hd & H).
      apply bind_Ret in H as (o' & s3 & Ho & H).
      apply bind_Ret in H as (m' & s4 & Hm & H).
      unfold ret in H. simplify_eq. now apply int_of_Value_Ret in Hd as [-> _].
    + apply bind_Ret in H as ([] & s2 & _ & H).
      apply bind_Ret in H as ([] & s3 & _ & H).
      apply bind_Ret in H as ([] & s4 & _ & H).
      apply bind_Ret in H as ([] & s5 & _ & H).
      unfold ret in H. simplify_eq. reflexivity.
Qed.

(** X19.  The triple that [scale_up_asg] returns is (target, original
    capacity, original max size): for a resumed group the three numbers
    recorded in its tags, otherwise the capacity of the snapshot plus the
    count of outdated instances, and the capacity and max size of the
    snapshot. *)
Theorem scale_up_asg_returns_target_and_original_state fuel cl asg count d o m s s' :
  scale_up_asg cfg env fuel cl asg count s = (Ret (d, o, m), s') ->
  original_state cfg env asg count = Some (o, m)
  /\ (if resumed cfg env asg count
      then tag_int env asg (ASG_DESIRED_STATE_TAG cfg) = Some d
      else d = DesiredCapacity asg + count /\ o = DesiredCapacity asg /\ m = MaxSize asg).
Proof.
  intros H. pose proof (scale_up_asg_Ret cfg env _ _ _ _ _ _ _ _ _ H) as Ho.
  pose proof (scale_up_asg_target _ _ _ _ _ _ _ _ _ H) as Hd.
  split; [exact Ho|]. unfold original_state in Ho.
  destruct (resumed cfg env asg count); [exact Hd|]. simplify_eq. auto.
Qed.

Lemma frame_save_asg_tags_no_scale T D n k v :
  T n -> preserves (frame (fun e => ~ is_scale_call e) T D) (save_asg_tags n k v).
Proof.
  intros HT. unfold save_asg_tags. apply pres_bind; [exact (frame_trans _ _ _) | |].
  - apply frame_emit. simpl. tauto.
  - intros _. now apply frame_update_group.
Qed.

(** X20.  A group without outdated instances is never scaled by
    [scale_up_asg]: whatever its tags, no scaling call is made. *)
Theorem scale_up_asg_without_outdated_instances_never_scales fuel cl asg s :
  Forall (fun e => ~ is_scale_call e)
         (calls_between s (snd (scale_up_asg cfg env fuel cl asg 0 s))).
Proof.
  apply (frame_calls_between _ everywhere everywhere).
  assert (H : preserves (frame (fun e => ~ is_scale_call e) everywhere everywhere)
                (scale_up_asg cfg env fuel cl asg 0)); [|apply H].
  unfold scale_up_asg. cbv zeta. rewrite Z.add_0_r, Z.eqb_refl.
  apply pres_bind; [exact (frame_trans _ _ _) | apply frame_emit; simpl; tauto | intros _].
  destruct (_ && _).
  - repeat (apply pres_bind;
            [exact (frame_trans _ _ _) | apply quiet_to_frame, q_int_of_Value | intros ?]).
    apply pres_ret, frame_refl.
  - repeat (apply pres_bind;
            [exact (frame_trans _ _ _) | now apply frame_save_asg_tags_no_scale | intros ?]).
    apply pres_ret, frame_refl.
Qed.

End Orchestrator.

(** * The further properties on concrete clusters *)

Lemma get_node_by_instance_id_returns_the_first_scan_witness :
  "node-b" = scan_list [node_a; node_b] "i-0b" /\ "node-b" <> "" /\ cloud_fresh = cloud_fresh.
Proof.
  apply (get_node_by_instance_id_returns_the_first_scan (example_cfg 1 5 3 0 false)
           (example_env all_evictable []) [node_a; node_b] "i-0b" 3 5 cloud_fresh
           "node-b" cloud_fresh).
  vm_compute. reflexivity.
Defined.

Lemma get_node_by_instance_id_never_finds_after_refresh_witness :
  scan_list [node_a] "i-0b" = ""
  /\ fst (get_node_by_instance_id (example_cfg 1 5 3 0 false) (example_env all_evictable [])
            (NodeList [node_a]) "i-0b" 3 5 cloud_fresh) = Raise AttributeError
  /\ calls_between cloud_fresh
       (snd (get_node_by_instance_id (example_cfg 1 5 3 0 false)
               (example_env all_evictable []) (NodeList [node_a]) "i-0b" 3 5 cloud_fresh))
     = [EvSleep 5; EvListNode].
Proof.
  split; [reflexivity|].
  apply (get_node_by_instance_id_never_finds_after_refresh (example_cfg 1 5 3 0 false)
           (example_env all_evictable []) [node_a] "i-0b" 3 5 cloud_fresh).
  reflexivity.
Defined.

Lemma node_checks_fail_without_retries_witness :
  GLOBAL_MAX_RETRY (set_global_max_retry 1 (example_cfg 1 5 3 0 false)) <= 1
  /\ k8s_nodes_count (set_global_max_retry 1 (example_cfg 1 5 3 0 false))
       (example_env all_evictable []) 2 cloud_fresh = (Ret false, cloud_fresh)
  /\ k8s_nodes_ready (set_global_max_retry 1 (example_cfg 1 5 3 0 false))
       (example_env all_evictable []) cloud_fresh = (Ret false, cloud_fresh).
Proof.
  split; [simpl; lia|].
  apply (node_checks_fail_without_retries (set_global_max_retry 1 (example_cfg 1 5 3 0 false))
           (example_env all_evictable []) 2 cloud_fresh).
  simpl. lia.
Defined.

Lemma drain_node_evicts_all_but_daemonset_pods_witness :
  exists items,
    e_list_pods (example_env all_evictable []) (clock cloud_fresh) "node-a" = Some items
    /\ calls_between cloud_fresh
         (snd (drain_node (example_env all_evictable []) "node-a" cloud_fresh))
       = EvListPods "node-a"
         :: map (fun pod => EvEvict (pod_name pod) (pod_namespace pod))
                (List.filter (fun pod => negb (owned_by_daemonset pod)) items).
Proof.
  apply (drain_node_evicts_all_but_daemonset_pods (example_env all_evictable []) "node-a"
           cloud_fresh).
  vm_compute. reflexivity.
Defined.

Lemma drain_node_stops_at_the_first_failure_witness :
  exists e,
    (e_list_pods (example_env (fun _ => false) []) (clock cloud_fresh) "node-a" = None
     /\ e = Exception ("Failed to drain node " +:+ "node-a")
     /\ calls_between cloud_fresh
          (snd (drain_node (example_env (fun _ => false) []) "node-a" cloud_fresh))
        = [EvListPods "node-a"])
    \/ exists items before pod after,
         e_list_pods (example_env (fun _ => false) []) (clock cloud_fresh) "node-a"
         = Some items
         /\ List.filter (fun pod => negb (owned_by_daemonset pod)) items
            = before ++ pod :: after
         /\ (exists msg, e = Exception msg)
         /\ calls_between cloud_fresh
              (snd (drain_node (example_env (fun _ => false) []) "node-a" cloud_fresh))
            = EvListPods "node-a"
              :: map (fun pod => EvEvict (pod_name pod) (pod_namespace pod))
                     (before ++ [pod]).
Proof.
  eexists.
  apply (drain_node_stops_at_the_first_failure (example_env (fun _ => false) []) "node-a"
           cloud_fresh).
  vm_compute. reflexivity.
Defined.

Lemma validate_cluster_health_fails_without_node_retries_witness :
  fst (validate_cluster_health (set_global_max_retry 1 (example_cfg 1 5 3 0 false))
         (example_env all_evictable []) "workers-a" 2 "cluster" false "asg" cloud_fresh)
  = Raise (Exception "ASG healthcheck failed").
Proof.
  apply (validate_cluster_health_fails_without_node_retries
           (set_global_max_retry 1 (example_cfg 1 5 3 0 false))).
  simpl. lia.
Defined.

Lemma retire_instance_passes_over_every_failure_witness :
  fst (retire_instance (example_cfg 1 5 3 0 false) (example_env (fun _ => false) [])
         "workers-a" [node_a; node_b] [node_x] (mkInstance "i-0a") cloud_fresh) = Ret tt.
Proof.
  apply retire_instance_passes_over_every_failure.
  right. vm_compute. discriminate.
Defined.

Lemma retire_instance_fails_only_without_a_node_witness :
  RollingUpdateException "Rolling update on ASG failed" "workers-a"
  = RollingUpdateException "Rolling update on ASG failed" "workers-a"
  /\ instance_to_node_cache cloud_fresh !! InstanceId (mkInstance "i-0z") = None
  /\ scan_list [node_a; node_b] (InstanceId (mkInstance "i-0z")) = ""
  /\ scan_list [node_x] (InstanceId (mkInstance "i-0z")) = "".
Proof.
  apply (retire_instance_fails_only_without_a_node (example_cfg 1 5 3 0 false)
           (example_env all_evictable []) "workers-a" [node_a; node_b] [node_x]
           (mkInstance "i-0z") cloud_fresh _
           (snd (retire_instance (example_cfg 1 5 3 0 false) (example_env all_evictable [])
                   "workers-a" [node_a; node_b] [node_x] (mkInstance "i-0z") cloud_fresh))).
  vm_compute. reflexivity.
Defined.

Lemma excluded_node_is_drained_witness :
  In (EvListPods "node-x")
     (calls_between cloud_fresh
        (snd ((cordon_group (example_cfg 1 5 3 0 false) (example_env all_evictable [])
                 [node_a; node_b] [node_x] [mkInstance "i-0x"] ;;;
               retire_instance (example_cfg 1 5 3 0 false) (example_env all_evictable [])
                 "workers-a" [node_a; node_b] [node_x] (mkInstance "i-0x")) cloud_fresh))).
Proof.
  apply (excluded_node_is_drained (example_cfg 1 5 3 0 false) (example_env all_evictable [])
           "workers-a" [node_a; node_b] [node_x] (mkInstance "i-0x") cloud_fresh).
  - reflexivity.
  - reflexivity.
  - vm_compute. discriminate.
Defined.

Lemma sort_asgs_selects_the_ordered_groups_witness :
  (forall item,
     In item (sort_asgs (example_cfg 1 5 3 0 false)
                [("system", ([], asg_system)); ("workers-a", ([], asg_fresh))]) <->
     In item [("system", ([], asg_system)); ("workers-a", ([], asg_fresh))]
     /\ in_worker_groups_order (example_cfg 1 5 3 0 false) (fst item) = true)
  /\ NoDup (map fst (sort_asgs (example_cfg 1 5 3 0 false)
                       [("system", ([], asg_system)); ("workers-a", ([], asg_fresh))])).
Proof.
  apply (sort_asgs_selects_the_ordered_groups (example_cfg 1 5 3 0 false)).
  simpl. apply (bool_decide_unpack _). vm_compute. exact I.
Defined.

Lemma main_plan_only_reads_the_groups_witness :
  main (example_cfg 1 5 3 0 false) (example_env all_evictable [asg_fresh]) 1 "cluster" true
       cloud_fresh
  = (Ret tt, snd (emit (EvGetAsgs "cluster") cloud_fresh)).
Proof.
  apply (main_plan_only_reads_the_groups (example_cfg 1 5 3 0 false)
           (example_env all_evictable [asg_fresh]) 1 "cluster" true cloud_fresh);
    reflexivity.
Defined.

Lemma update_asgs_without_worker_groups_witness :
  update_asgs (set_worker_groups_order [] (example_cfg 1 5 3 0 false))
    (example_env all_evictable []) 1 [asg_fresh] "cluster" cloud_fresh
  = (Ret tt, snd (emit EvListNode (set_asg_state_dict ∅ (set_cache ∅ cloud_fresh)))).
Proof.
  apply (update_asgs_without_worker_groups
           (set_worker_groups_order [] (example_cfg 1 5 3 0 false))).
  - reflexivity.
  - simpl. lia.
Defined.

Lemma scale_up_asg_without_batches_is_one_step_witness :
  scale_up_asg (example_cfg 1 5 3 0 false) (example_env all_evictable []) 1 "cluster"
    asg_fresh 2 cloud_fresh
  = (modify_aws_autoscaling "workers-a" "resume" ;;;
     save_asg_tags "workers-a" "orig" 2 ;;;
     save_asg_tags "workers-a" "desired" (2 + 2) ;;;
     save_asg_tags "workers-a" "orig_max" 2 ;;;
     spec_scale_steps (example_cfg 1 5 3 0 false) (example_env all_evictable [])
       "workers-a" "cluster" false 2 2 [2 + 2] ;;;
     ret (2 + 2, 2, 2)) cloud_fresh.
Proof.
  apply (scale_up_asg_without_batches_is_one_step (example_cfg 1 5 3 0 false)
           (example_env all_evictable []) 0 "cluster" asg_fresh 2 cloud_fresh).
  - reflexivity.
  - lia.
  - left. reflexivity.
Defined.

Lemma scale_up_asg_returns_target_and_original_state_witness :
  original_state (example_cfg 1 5 3 0 false) (example_env all_evictable []) asg_resumed 2
  = Some (2, 2)
  /\ (if resumed (example_cfg 1 5 3 0 false) (example_env all_evictable []) asg_resumed 2
      then tag_int (example_env all_evictable []) asg_resumed
             (ASG_DESIRED_STATE_TAG (example_cfg 1 5 3 0 false)) = Some 4
      else 4 = DesiredCapacity asg_resumed + 2 /\ 2 = DesiredCapacity asg_resumed
           /\ 2 = MaxSize asg_resumed).
Proof.
  apply (scale_up_asg_returns_target_and_original_state (example_cfg 1 5 3 0 false)
           (example_env all_evictable []) 1 "cluster" asg_resumed 2 4 2 2 cloud_resumed
           (snd (scale_up_asg (example_cfg 1 5 3 0 false) (example_env all_evictable []) 1
                   "cluster" asg_resumed 2 cloud_resumed))).
  vm_compute. reflexivity.
Defined.

(** * The node checks over the listings of a run *)

Lemma existsb_seq_shift (f : nat -> bool) a n :
  existsb f (seq (S a) n) = existsb (fun i => f (S i)) (seq a n).
Proof.
  revert a. induction n as [|n IH]; intros a; simpl; [reflexivity|]. now rewrite IH.
Qed.

Lemma existsb_pointwise {A} (f g : A -> bool) l :
  (forall x, f x = g x) -> existsb f l = existsb g l.
Proof. intros H. induction l as [|x l IH]; simpl; [reflexivity|]. now rewrite H, IH. Qed.

Section NodeChecks.
Context (cfg : Config) (env : Env).

Lemma get_k8s_nodes_run s :
  exists excluded,
    get_k8s_nodes cfg env s
    = (Ret (included_nodes cfg (e_list_node env (clock s)), excluded),
       snd (emit EvListNode s)).
Proof.
  unfold get_k8s_nodes, included_nodes, ask, bind, get_state. simpl.
  destruct (EXCLUDE_NODE_LABEL_KEYS cfg); unfold ret; eauto.
Qed.

Lemma k8s_nodes_count_loop_spec d wait :
  forall fuel rc s, fuel = Z.to_nat (GLOBAL_MAX_RETRY cfg - rc) ->
    fst (k8s_nodes_count_loop cfg env fuel d (GLOBAL_MAX_RETRY cfg) wait rc false s)
    = Ret (existsb (fun i => d <=? Z.of_nat (length (included_nodes cfg
                                 (e_list_node env (clock s + 2 * i)%nat))))
                   (seq 0 fuel)).
Proof.
  induction fuel as [|fuel IH]; intros rc s Hf; simpl.
  - destruct (Z.ltb_spec rc (GLOBAL_MAX_RETRY cfg)); [lia | reflexivity].
  - destruct (Z.ltb_spec rc (GLOBAL_MAX_RETRY cfg)); [|lia].
    destruct (get_k8s_nodes_run s) as [excluded E]. unfold bind at 1. rewrite E. cbn [fst].
    replace (clock s + 0)%nat with (clock s) by lia.
    destruct (Z.ltb_spec (Z.of_nat (length (included_nodes cfg (e_list_node env (clock s))))) d)
      as [Hlt|Hge].
    + replace (d <=? _) with false by lia. cbn [orb].
      unfold bind, sleep, emit, modify. rewrite IH by lia. simpl. f_equal.
      rewrite existsb_seq_shift. apply existsb_pointwise. intros i.
      do 5 f_equal. lia.
    + replace (d <=? _) with true by lia. reflexivity.
Qed.

(** X22.  [k8s_nodes_count] lists the nodes up to [GLOBAL_MAX_RETRY - 1]
    times, with a sleep after each listing that falls short, and answers
    [True] exactly when one of these listings has at least the desired
    number of included nodes; excluded nodes are not counted. *)
Theorem k8s_nodes_count_succeeds_on_a_full_listing d s :
  fst (k8s_nodes_count cfg env d s)
  = Ret (existsb (fun i => d <=? Z.of_nat (length (included_nodes cfg
                               (e_list_node env (clock s + 2 * i)%nat))))
                 (seq 0 (Z.to_nat (GLOBAL_MAX_RETRY cfg - 1)))).
Proof. unfold k8s_nodes_count. apply k8s_nodes_count_loop_spec. reflexivity. Qed.

Lemma k8s_nodes_ready_loop_spec wait :
  forall fuel rc s, fuel = Z.to_nat (GLOBAL_MAX_RETRY cfg - rc) ->
    fst (k8s_nodes_ready_loop cfg env fuel (GLOBAL_MAX_RETRY cfg) wait rc false s)
    = Ret (existsb (fun i => all_nodes_healthy (included_nodes cfg
                                 (e_list_node env (clock s + 2 * i)%nat)))
                   (seq 0 fuel)).
Proof.
  induction fuel as [|fuel IH]; intros rc s Hf; simpl.
  - destruct (Z.ltb_spec rc (GLOBAL_MAX_RETRY cfg)); [lia | reflexivity].
  - destruct (Z.ltb_spec rc (GLOBAL_MAX_RETRY cfg)); [|lia].
    destruct (get_k8s_nodes_run s) as [excluded E]. unfold bind at 1. rewrite E. cbn [fst].
    replace (clock s + 0)%nat with (clock s) by lia.
    destruct (all_nodes_healthy (included_nodes cfg (e_list_node env (clock s)))).
    + reflexivity.
    + cbn [orb]. unfold bind, sleep, emit, modify. rewrite IH by lia. simpl. f_equal.
      rewrite existsb_seq_shift. apply existsb_pointwise. intros i.
      do 3 f_equal. lia.
Qed.

Lemma all_nodes_healthy_spec nodes :
  all_nodes_healthy nodes = true <->
  forall node, In node nodes -> ~ In ("Ready", "False") (conditions node).
Proof.
  unfold all_nodes_healthy. rewrite forallb_forall. split; intros H node Hn.
  - specialize (H node Hn). rewrite forallb_forall in H. intros Hc.
    specialize (H _ Hc). discriminate.
  - apply forallb_forall. intros [t st] Hc. unfold condition_not_ready. simpl.
    destruct (String.eqb_spec t "Ready") as [->|]; [|reflexivity].
    destruct (String.eqb_spec st "False") as [->|]; [|reflexivity].
    destruct (H node Hn Hc).
Qed.

(** X23.  [k8s_nodes_ready] lists the nodes up to [GLOBAL_MAX_RETRY - 1]
    times and answers [True] exactly when in one of these listings no
    included node has a [Ready] condition with status ["False"]: a node whose
    readiness is unknown, or that reports no [Ready] condition, passes, and
    excluded nodes are not looked at. *)
Theorem k8s_nodes_ready_succeeds_on_a_healthy_listing s :
  fst (k8s_nodes_ready cfg env s)
  = Ret (existsb (fun i => all_nodes_healthy (included_nodes cfg
                               (e_list_node env (clock s + 2 * i)%nat)))
                 (seq 0 (Z.to_nat (GLOBAL_MAX_RETRY cfg - 1))))
  /\ forall nodes,
       all_nodes_healthy nodes = true <->
       forall node, In node nodes -> ~ In ("Ready", "False") (conditions node).
Proof.
  split; [|apply all_nodes_healthy_spec].
  unfold k8s_nodes_ready. apply k8s_nodes_ready_loop_spec. reflexivity.
Qed.

End NodeChecks.

(** * Every run mode drains *)

Section EveryModeDrains.
Context (cfg : Config) (env : Env).

Local Notation "'everywhere'" := (fun _ : string => True).
Local Notation "'nowhere'" := (fun _ : string => False).
Local Hint Extern 1 => exact I : frames.

Lemma cordon_group_Ret nodes excluded outs s s' :
  cordon_group cfg env nodes excluded outs s = (Ret tt, s') ->
  forall o, In o outs -> exists node, instance_to_node_cache s' !! InstanceId o = Some node.
Proof.
  revert s. induction outs as [|o outs IH]; intros s H x Hx; [destruct Hx|].
  cbn [cordon_group] in H.
  apply bind_Ret in H as ([] & s1 & H1 & H2).
  destruct Hx as [<-|Hx]; [|eauto].
  assert (F2 : frame any_call everywhere everywhere s1 s').
  { eapply preserves_run; [|exact H2]. apply f_cordon_group. }
  apply try_except_Ret in H1 as [H1|(e & s0 & _ & _ & H1)].
  - apply bind_Ret in H1 as (node & s0 & H0 & H1).
    exists node. eapply fr_cache; [exact F2|].
    eapply fr_cache;
      [exact (preserves_run _ _ _ _ _ (f_cordon_or_taint cfg everywhere everywhere node) H1)|].
    eapply resolve_node_name_Ret; eauto.
  - apply try_except_Ret in H1 as [H1|(e' & s0' & _ & _ & H1)]; [|discriminate].
    apply bind_Ret in H1 as (node & s0' & H0 & H1).
    unfold ret in H1. simplify_eq.
    exists node. eapply fr_cache; [exact F2|]. eapply resolve_node_name_Ret; eauto.
Qed.

Lemma process_group_drains_in_mode fuel cl nodes excluded item s s' :
  process_group cfg env fuel cl nodes excluded item s = (Ret tt, s') ->
  forall o, In o (fst (snd item)) ->
    RUN_MODE cfg = 1 \/ RUN_MODE cfg = 4
    \/ (exists node, instance_to_node_cache s !! InstanceId o = Some node) ->
    exists node, instance_to_node_cache s' !! InstanceId o = Some node
                 /\ emitted s s' (EvListPods node).
Proof.
  intros H o Ho Hm. unfold process_group in H. cbv zeta in H.
  apply bind_Ret in H as ([] & s1 & H1 & H).
  apply bind_Ret in H as ([] & s2 & H2 & H3).
  assert (F1 : frame any_call everywhere everywhere s s1)
    by (eapply preserves_run; [|exact H1]; frame_auto).
  assert (F2 : frame any_call everywhere everywhere s1 s2)
    by (eapply preserves_run; [|exact H2]; frame_auto).
  assert (F3 : frame any_call everywhere everywhere s2 s').
  { eapply preserves_run; [|exact H3]. apply f_retire_group. exact I. }
  assert (Hc : exists node, instance_to_node_cache s2 !! InstanceId o = Some node).
  { destruct Hm as [Hm|[Hm|[node Hn]]].
    - rewrite Hm in H2. cbn [Z.eqb Pos.eqb orb when] in H2.
      apply (cordon_group_Ret _ _ _ _ _ H2 o Ho).
    - rewrite Hm in H2. cbn [Z.eqb Pos.eqb orb when] in H2.
      apply (cordon_group_Ret _ _ _ _ _ H2 o Ho).
    - exists node. eapply fr_cache; [exact F2|]. eapply fr_cache; eauto. }
  destruct Hc as [node Hn]. exists node. split; [eapply fr_cache; eauto|].
  eapply emitted_widen;
    [exact (frame_extends _ _ _ _ _ (frame_trans _ _ _ _ _ _ F1 F2)) | | apply extends_refl].
  eapply retire_group_drains; eauto.
Qed.

Lemma process_groups_drain_in_mode fuel cl nodes excluded items s s' :
  process_groups cfg env fuel cl nodes excluded items s = (Ret tt, s') ->
  forall item o, In item items -> In o (fst (snd item)) ->
    RUN_MODE cfg = 1 \/ RUN_MODE cfg = 4
    \/ (exists node, instance_to_node_cache s !! InstanceId o = Some node) ->
    exists node, instance_to_node_cache s' !! InstanceId o = Some node
                 /\ emitted s s' (EvListPods node).
Proof.
  revert s. induction items as [|i items IH]; intros s H item o Hi Ho Hm; [destruct Hi|].
  cbn [process_groups] in H.
  apply bind_Ret in H as ([] & s1 & H1 & H2).
  assert (F1 : frame any_call everywhere everywhere s s1).
  { eapply preserves_run; [|exact H1]. apply f_process_group; exact I. }
  assert (F2 : frame any_call everywhere everywhere s1 s').
  { eapply preserves_run; [|exact H2]. apply f_process_groups. intros; repeat split. }
  destruct Hi as [<-|Hi].
  - destruct (process_group_drains_in_mode _ _ _ _ _ _ _ H1 o Ho Hm) as (node & Hn & He).
    exists node. split; [eapply fr_cache; eauto|].
    eapply emitted_widen; [apply extends_refl | exact He | exact (frame_extends _ _ _ _ _ F2)].
  - destruct (IH s1 H2 item o Hi Ho) as (node & Hn & He).
    { destruct Hm as [Hm|[Hm|[node Hn]]]; auto.
      right. right. exists node. eapply fr_cache; eauto. }
    exists node. split; [exact Hn|].
    eapply emitted_widen; [exact (frame_extends _ _ _ _ _ F1) | exact He | apply extends_refl].
Qed.

(** X21.  In each of the four run modes a run that completes has started the
    drain for every outdated instance of every group of the sorted plan: the
    instance has a node name in the cache and the pods of that node have
    been listed for eviction. *)
Theorem completed_run_drains_every_outdated_instance fuel asgs cluster s s' :
  1 <= RUN_MODE cfg <= 4 ->
  update_asgs cfg env fuel asgs cluster s = (Ret tt, s') ->
  forall name outs asg outdated,
    In (name, (outs, asg)) (sort_asgs cfg (plan_of cfg env asgs)) ->
    In outdated outs ->
    exists node,
      instance_to_node_cache s' !! InstanceId outdated = Some node
      /\ In (EvListPods node) (calls_between s s').
Proof.
  intros Hmode H name outs asg o Hin Ho.
  unfold update_asgs in H. cbv zeta in H.
  change (if RUN_MODE cfg =? 4 then plan_asgs_older_nodes env asgs else plan_asgs env asgs)
    with (plan_of cfg env asgs) in H.
  rewrite !bind_modify in H.
  set (s0 := set_asg_state_dict ∅ (set_cache ∅ s)) in H.
  apply bind_Ret in H as ([] & s1 & H1 & H).
  apply bind_Ret in H as (listed & s2 & H2 & H).
  apply bind_Ret in H as ([] & s3 & H3 & H4).
  destruct (sort_asgs_In _ _ _ Hin) as [Hplan Horder].
  assert (F1 : frame any_call everywhere everywhere s0 s1).
  { eapply preserves_run; [|exact H1]. apply pres_when; [apply frame_refl|].
    apply f_scale_up_all. intros; split; exact I. }
  assert (F2 : frame any_call everywhere everywhere s1 s2).
  { eapply preserves_run; [|exact H2].
    apply quiet_to_frame, (q_get_k8s_nodes cfg env any_call health_is_any). }
  assert (F3 : frame any_call everywhere everywhere s2 s3).
  { eapply preserves_run; [|exact H3]. frame_auto. }
  assert (Hm : RUN_MODE cfg = 1 \/ RUN_MODE cfg = 4
               \/ exists node, instance_to_node_cache s3 !! InstanceId o = Some node).
  { assert (Hc : RUN_MODE cfg = 1 \/ RUN_MODE cfg = 4 \/ RUN_MODE cfg = 2 \/ RUN_MODE cfg = 3)
      by lia.
    destruct Hc as [Hc|[Hc|Hc]]; auto. right. right.
    assert (E : (RUN_MODE cfg =? 2) || (RUN_MODE cfg =? 3) = true)
      by (destruct Hc as [-> | ->]; reflexivity).
    rewrite E in H3. cbn [when] in H3.
    exact (cordon_all_Ret cfg env _ _ _ _ H3 _ o Hplan Horder Ho). }
  destruct (process_groups_drain_in_mode _ _ _ _ _ _ _ H4 _ o Hin Ho Hm) as (node & Hn & He).
  exists node. split; [exact Hn|].
  apply emitted_calls_between.
  eapply emitted_widen; [|exact He|apply extends_refl].
  apply extends_trans with s0; [exists []; reflexivity|].
  exact (frame_extends _ _ _ _ _
           (frame_trans _ _ _ _ _ _ (frame_trans _ _ _ _ _ _ F1 F2) F3)).
Qed.

End EveryModeDrains.

Lemma completed_run_drains_every_outdated_instance_witness :
  exists node,
    instance_to_node_cache
      (snd (update_asgs (example_cfg 1 5 3 0 false) (example_env all_evictable [])
              1 [asg_fresh] "cluster" cloud_fresh))
      !! "i-0a" = Some node
    /\ In (EvListPods node)
          (calls_between cloud_fresh
             (snd (update_asgs (example_cfg 1 5 3 0 false) (example_env all_evictable [])
                     1 [asg_fresh] "cluster" cloud_fresh))).
Proof.
  apply (completed_run_drains_every_outdated_instance (example_cfg 1 5 3 0 false)
           (example_env all_evictable []) 1 [asg_fresh] "cluster" cloud_fresh
           (snd (update_asgs (example_cfg 1 5 3 0 false) (example_env all_evictable [])
                   1 [asg_fresh] "cluster" cloud_fresh)))
    with (name := "workers-a") (outs := [mkInstance "i-0a"; mkInstance "i-0b"])
         (asg := asg_fresh) (outdated := mkInstance "i-0a").
  - simpl. lia.
  - vm_compute. reflexivity.
  - vm_compute. left. reflexivity.
  - simpl. left. reflexivity.
Defined.

(** * What a run leaves alone *)

Section Untouched.
Context (cfg : Config) (env : Env).

Local Notation "'everywhere'" := (fun _ : string => True).

Lemma update_asgs_frame (T : string -> Prop) fuel asgs cluster s :
  (RUN_MODE cfg = 2 ->
   forall item, In item (plan_of cfg env asgs) -> T (fst item)) ->
  (forall item, In item (sort_asgs cfg (plan_of cfg env asgs)) -> T (fst item)) ->
  forall g, ~ T g ->
    groups (snd (update_asgs cfg env fuel asgs cluster s)) !! g = groups s !! g.
Proof.
  intros Hplan Hsorted g Hg.
  unfold update_asgs. cbv zeta.
  change (if RUN_MODE cfg =? 4 then plan_asgs_older_nodes env asgs else plan_asgs env asgs)
    with (plan_of cfg env asgs).
  rewrite !bind_modify.
  set (s0 := set_asg_state_dict ∅ (set_cache ∅ s)).
  change (groups s) with (groups s0).
  match goal with
  | |- groups (snd (?m s0)) !! g = _ =>
      assert (F : preserves (frame any_call T everywhere) m)
  end.
  { apply pres_bind; [exact (frame_trans _ _ _) | | intros _].
    - destruct (Z.eqb_spec (RUN_MODE cfg) 2) as [Hm|Hm]; cbn [when].
      + apply f_scale_up_all. intros item Hi. split; [|exact I].
        rewrite <- (plan_of_key cfg env asgs item Hi). now apply Hplan.
      + apply pres_ret, frame_refl.
    - apply pres_bind; [exact (frame_trans _ _ _) | | intros listed].
      + apply quiet_to_frame, (q_get_k8s_nodes cfg env any_call health_is_any).
      + apply pres_bind; [exact (frame_trans _ _ _) | | intros _].
        * apply pres_when; [apply frame_refl | apply f_cordon_all].
        * apply f_process_groups. intros item Hi.
          pose proof (Hsorted item Hi) as HT. repeat split; auto.
          destruct (sort_asgs_In cfg _ _ Hi) as [Hp _].
          now rewrite <- (plan_of_key cfg env asgs item Hp). }
  apply (fr_groups _ _ _ _ _ (F s0) g Hg).
Qed.

(** X24.  Whatever its outcome, a run leaves alone every group that is not
    in the plan: its capacity, max size and tags are what they were. *)
Theorem update_asgs_touches_planned_groups_only fuel asgs cluster s g :
  (forall outs asg, ~ In (g, (outs, asg)) (plan_of cfg env asgs)) ->
  groups (snd (update_asgs cfg env fuel asgs cluster s)) !! g = groups s !! g.
Proof.
  intros Hg.
  apply (update_asgs_frame (fun n => exists v, In (n, v) (plan_of cfg env asgs))).
  - intros _ [n v] Hi. exists v. exact Hi.
  - intros [n v] Hi. exists v. apply (sort_asgs_In cfg _ _ Hi).
  - intros [[outs asg] Hv]. exact (Hg outs asg Hv).
Qed.

(** X25.  In the run modes other than 2 a run, whatever its outcome, leaves
    alone every group whose name contains no entry of the worker group
    order. *)
Theorem update_asgs_leaves_unordered_groups_alone fuel asgs cluster s g :
  RUN_MODE cfg <> 2 ->
  in_worker_groups_order cfg g = false ->
  groups (snd (update_asgs cfg env fuel asgs cluster s)) !! g = groups s !! g.
Proof.
  intros Hm Hg.
  apply (update_asgs_frame (fun n => in_worker_groups_order cfg n = true)).
  - intros E. contradiction.
  - intros item Hi. apply (sort_asgs_In cfg _ _ Hi).
  - rewrite Hg. discriminate.
Qed.

(** X26.  [modify_k8s_autoscaler] returns, ends the process with status 1 (a
    failed read other than 404, an unknown action, a failed patch) or stops
    on the comparison of a missing replica count with 0; it raises nothing
    else. *)
Theorem modify_k8s_autoscaler_returns_or_exits action s :
  fst (modify_k8s_autoscaler cfg env action s) = Ret tt
  \/ fst (modify_k8s_autoscaler cfg env action s) = Raise (SystemExit 1)
  \/ (fst (modify_k8s_autoscaler cfg env action s) = Raise TypeError
      /\ e_read_deployment env (clock s) = Deployment None).
Proof.
  unfold modify_k8s_autoscaler, is_autoscaler_running, bind, ask, get_state, emit, modify.
  simpl.
  destruct (e_read_deployment env (clock s)) as [[n|]| |]; simpl; auto.
  destruct (0 <? n); simpl; auto.
  destruct (String.eqb action "pause"); simpl.
  - destruct (e_patch_deployment env _); simpl; auto.
  - destruct (String.eqb action "resume"); simpl; auto.
    destruct (e_patch_deployment env _); simpl; auto.
Qed.

End Untouched.

Lemma update_asgs_touches_planned_groups_only_witness :
  groups (snd (update_asgs (example_cfg 2 5 3 0 false) (example_env all_evictable []) 1
                 [asg_fresh] "cluster" cloud_system)) !! "system"
  = groups cloud_system !! "system".
Proof.
  apply (update_asgs_touches_planned_groups_only (example_cfg 2 5 3 0 false)
           (example_env all_evictable []) 1 [asg_fresh] "cluster" cloud_system "system").
  intros outs asg H. vm_compute in H. destruct H as [H|[]]. discriminate.
Defined.

Lemma update_asgs_leaves_unordered_groups_alone_witness :
  groups (snd (update_asgs (example_cfg 1 5 3 0 false) (example_env all_evictable []) 1
                 [asg_system] "cluster" cloud_system)) !! "system"
  = groups cloud_system !! "system".
Proof.
  apply (update_asgs_leaves_unordered_groups_alone (example_cfg 1 5 3 0 false)
           (example_env all_evictable []) 1 [asg_system] "cluster" cloud_system "system").
  - simpl. lia.
  - reflexivity.
Defined.

(** * The capacity controller on a resumed group *)

Section ResumedGroup.
Context (cfg : Config) (env : Env).

(** With the desired-capacity tag of an earlier run and a positive count of
    outdated instances, [scale_up_asg] is its resume branch. *)
Lemma scale_up_asg_resumed fuel cluster_name asg count :
  0 < count ->
  tag_set env asg (ASG_DESIRED_STATE_TAG cfg) = true ->
  scale_up_asg cfg env fuel cluster_name asg count
  = (modify_aws_autoscaling (AutoScalingGroupName asg) "resume" ;;;
     expected <- int_of_Value (get_asg_tag env (Tags asg) (ASG_DESIRED_STATE_TAG cfg)) ;;
     validate_cluster_health cfg env (AutoScalingGroupName asg) expected cluster_name
                             (ASG_USE_TERMINATION_POLICY cfg) "regular" ;;;
     d <- int_of_Value (get_asg_tag env (Tags asg) (ASG_DESIRED_STATE_TAG cfg)) ;;
     o <- int_of_Value (get_asg_tag env (Tags asg) (ASG_ORIG_CAPACITY_TAG cfg)) ;;
     m <- int_of_Value (get_asg_tag env (Tags asg) (ASG_ORIG_MAX_CAPACITY_TAG cfg)) ;;
     ret (d, o, m)).
Proof.
  intros Hc Hset. unfold scale_up_asg.
  replace (DesiredCapacity asg + count =? DesiredCapacity asg) with false by lia.
  unfold tag_set, get_asg_tag in *. rewrite Hset.
  now destruct (ASG_USE_TERMINATION_POLICY cfg).
Qed.

(** C4, amended.  A group that enters [scale_up_asg] with the
    desired-capacity tag of an earlier run and a positive count of outdated
    instances is not scaled, whatever the outcome: no scaling call is made
    and the groups of the cloud are left as they are.  When the three tags
    carry the numbers [d], [o] and [m], the stale suspensions are cleared,
    the cluster health is validated against [d], and when the validation
    returns the recorded triple [(d, o, m)] is returned.  And whenever
    [scale_up_asg] returns, the three tags carry numbers and it has returned
    this triple after this validation. *)
Theorem scale_up_asg_resumed_is_not_rescaled fuel cluster_name asg count s :
  0 < count ->
  tag_set env asg (ASG_DESIRED_STATE_TAG cfg) = true ->
  let run := scale_up_asg cfg env fuel cluster_name asg count s in
  let validated d m :=
    (modify_aws_autoscaling (AutoScalingGroupName asg) "resume" ;;;
     validate_cluster_health cfg env (AutoScalingGroupName asg) d cluster_name
                             (ASG_USE_TERMINATION_POLICY cfg) "regular" ;;;
     m) s in
  Forall (fun e => ~ is_scale_call e) (calls_between s (snd run))
  /\ groups (snd run) = groups s
  /\ (forall d o m,
        tag_int env asg (ASG_DESIRED_STATE_TAG cfg) = Some d ->
        tag_int env asg (ASG_ORIG_CAPACITY_TAG cfg) = Some o ->
        tag_int env asg (ASG_ORIG_MAX_CAPACITY_TAG cfg) = Some m ->
        run = validated d (ret (d, o, m)))
  /\ (forall triple,
        fst run = Ret triple ->
        exists d o m,
          tag_int env asg (ASG_DESIRED_STATE_TAG cfg) = Some d
          /\ tag_int env asg (ASG_ORIG_CAPACITY_TAG cfg) = Some o
          /\ tag_int env asg (ASG_ORIG_MAX_CAPACITY_TAG cfg) = Some m
          /\ triple = (d, o, m)
          /\ run = validated d (ret (d, o, m))).
Proof.
  intros Hc Hset run validated.
  assert (Q : quiet (fun e => ~ is_scale_call e) s (snd run)).
  { unfold run. rewrite scale_up_asg_resumed by assumption.
    match goal with
    | |- quiet _ s (snd (?m s)) => assert (H : preserves (quiet (fun e => ~ is_scale_call e)) m)
    end.
    { unfold modify_aws_autoscaling. frame_auto; try apply q_int_of_Value.
      apply q_validate_cluster_health, health_call_not_scale. }
    apply H. }
  assert (E : forall d o m,
        tag_int env asg (ASG_DESIRED_STATE_TAG cfg) = Some d ->
        tag_int env asg (ASG_ORIG_CAPACITY_TAG cfg) = Some o ->
        tag_int env asg (ASG_ORIG_MAX_CAPACITY_TAG cfg) = Some m ->
        run = validated d (ret (d, o, m))).
  { intros d o m Hd Ho Hm. unfold run, validated.
    rewrite scale_up_asg_resumed by assumption.
    rewrite (int_of_Value_tag _ _ _ _ Hd), (int_of_Value_tag _ _ _ _ Ho),
      (int_of_Value_tag _ _ _ _ Hm).
    unfold bind, ret; msteps; mdone. }
  split; [exact (quiet_calls_between _ _ _ Q)|].
  split; [exact (q_groups _ _ _ Q)|].
  split; [exact E|].
  intros triple Hret.
  destruct run as [r s'] eqn:Hrun. simpl in Hret. subst r.
  unfold run in Hrun. rewrite scale_up_asg_resumed in Hrun by assumption.
  apply bind_Ret in Hrun as ([] & s1 & _ & Hrun).
  apply bind_Ret in Hrun as (d & s2 & Hd & Hrun).
  apply bind_Ret in Hrun as ([] & s3 & _ & Hrun).
  apply bind_Ret in Hrun as (d' & s4 & Hd' & Hrun).
  apply bind_Ret in Hrun as (o & s5 & Ho & Hrun).
  apply bind_Ret in Hrun as (m & s6 & Hm & Hrun).
  apply int_of_Value_Ret in Hd as [Hd _].
  apply int_of_Value_Ret in Hd' as [Hd' _].
  apply int_of_Value_Ret in Ho as [Ho _].
  apply int_of_Value_Ret in Hm as [Hm _].
  exists d, o, m. repeat split; try assumption.
  - unfold get_asg_tag in *. unfold ret in Hrun. congruence.
  - apply E; assumption.
Qed.

End ResumedGroup.

(** C4, counterexample.  The group carries the desired-capacity tag of an
    earlier run, but not the two tags of its original state, and has two
    outdated instances: after the validation of the cluster health the
    conversion of the missing tag value raises, and no triple is returned. *)
Lemma scale_up_asg_resumed_returns_no_triple :
  let cfg := example_cfg 1 5 3 0 false in
  let env := example_env all_evictable [] in
  let run := scale_up_asg cfg env 1 "cluster" asg_partial 2 cloud_partial in
  tag_set env asg_partial (ASG_DESIRED_STATE_TAG cfg) = true
  /\ fst run = Raise TypeError
  /\ events (snd run)
     = [EvModifyAutoscaling "workers-a" "resume"; EvSleep 1; EvIsAsgScaled "workers-a" 4;
        EvIsAsgHealthy "workers-a"; EvCountInstances "cluster" false; EvListNode; EvListNode].
Proof. vm_compute. auto. Qed.

Lemma scale_up_asg_resumed_is_not_rescaled_witness :
  let cfg := example_cfg 1 5 3 0 false in
  let env := example_env all_evictable [] in
  let run := scale_up_asg cfg env 1 "cluster" asg_resumed 2 cloud_resumed in
  Forall (fun e => ~ is_scale_call e) (calls_between cloud_resumed (snd run))
  /\ groups (snd run) = groups cloud_resumed
  /\ run = (modify_aws_autoscaling "workers-a" "resume" ;;;
            validate_cluster_health cfg env "workers-a" 4 "cluster" false "regular" ;;;
            ret (4, 2, 2)) cloud_resumed
  /\ fst run = Ret (4, 2, 2).
Proof.
  intros cfg env run.
  destruct (scale_up_asg_resumed_is_not_rescaled cfg env 1 "cluster" asg_resumed 2
              cloud_resumed) as (H1 & H2 & H3 & H4); [lia | reflexivity |].
  split; [exact H1|]. split; [exact H2|].
  split; [apply (H3 4 2 2); reflexivity|].
  vm_compute. reflexivity.
Defined.

(** * The health validator against the specification *)

Section Polls.
Context (cfg : Config) (env : Env).

(** The two node checks of the code are polls of the listing. *)
Lemma k8s_nodes_count_loop_polls d wait :
  forall fuel rc s, fuel = Z.to_nat (GLOBAL_MAX_RETRY cfg - rc) ->
    k8s_nodes_count_loop cfg env fuel d (GLOBAL_MAX_RETRY cfg) wait rc false s
    = poll_nodes cfg env fuel wait (fun nodes => d <=? Z.of_nat (length nodes)) s.
Proof.
  induction fuel as [|fuel IH]; intros rc s Hf; simpl.
  - destruct (Z.ltb_spec rc (GLOBAL_MAX_RETRY cfg)); [lia | reflexivity].
  - destruct (Z.ltb_spec rc (GLOBAL_MAX_RETRY cfg)); [|lia].
    unfold bind. destruct (get_k8s_nodes cfg env s) as [[listed|e|] s1]; try reflexivity.
    destruct (Z.ltb_spec (Z.of_nat (length (fst listed))) d).
    + replace (d <=? _) with false by lia. unfold sleep, emit, modify. apply IH. lia.
    + replace (d <=? _) with true by lia. reflexivity.
Qed.

Lemma k8s_nodes_ready_loop_polls wait :
  forall fuel rc s, fuel = Z.to_nat (GLOBAL_MAX_RETRY cfg - rc) ->
    k8s_nodes_ready_loop cfg env fuel (GLOBAL_MAX_RETRY cfg) wait rc false s
    = poll_nodes cfg env fuel wait all_nodes_healthy s.
Proof.
  induction fuel as [|fuel IH]; intros rc s Hf; simpl.
  - destruct (Z.ltb_spec rc (GLOBAL_MAX_RETRY cfg)); [lia | reflexivity].
  - destruct (Z.ltb_spec rc (GLOBAL_MAX_RETRY cfg)); [|lia].
    unfold bind. destruct (get_k8s_nodes cfg env s) as [[listed|e|] s1]; try reflexivity.
    destruct (all_nodes_healthy (fst listed)); [reflexivity|].
    unfold sleep, emit, modify. apply IH. lia.
Qed.

Lemma poll_nodes_ext wait accept accept' :
  (forall t, accept (included_nodes cfg (e_list_node env t))
             = accept' (included_nodes cfg (e_list_node env t))) ->
  forall listings s,
    poll_nodes cfg env listings wait accept s = poll_nodes cfg env listings wait accept' s.
Proof.
  intros H. induction listings as [|n IH]; intros s; simpl; [reflexivity|].
  destruct (get_k8s_nodes_run cfg env s) as [excluded E].
  unfold bind. rewrite E. cbn [fst]. rewrite H.
  destruct (accept' _); [reflexivity|]. apply IH.
Qed.

Lemma definite_nodes_ready nodes :
  (forall node, In node nodes -> definite_readiness node) ->
  all_nodes_healthy nodes = all_counted_nodes_ready nodes.
Proof.
  intros H. unfold all_nodes_healthy, all_counted_nodes_ready.
  induction nodes as [|node nodes IH]; simpl; [reflexivity|].
  rewrite IH by (intros; apply H; now right). f_equal.
  rewrite (H node) by now left.
  induction (conditions node) as [|c cs IHc]; simpl; [reflexivity|].
  rewrite IHc. now destruct (condition_not_ready c).
Qed.

Lemma validate_loop_checks asg_name cap cluster predictive (c3 : Z -> M bool) (c4 : M bool) :
  (forall d s, k8s_nodes_count cfg env d s = c3 d s) ->
  (forall s, k8s_nodes_ready cfg env s = c4 s) ->
  forall n rc s, n = Z.to_nat (CLUSTER_HEALTH_RETRY cfg - rc) ->
    validate_cluster_health_loop cfg env n asg_name cap cluster predictive rc s
    = spec_validate n (CLUSTER_HEALTH_WAIT cfg)
        [ is_asg_scaled env asg_name cap;
          is_asg_healthy env asg_name;
          (d <- count_all_cluster_instances env cluster predictive ;; c3 d);
          c4 ] s.
Proof.
  intros H3 H4. induction n as [|n IH]; intros rc s Hn.
  - simpl. destruct (Z.ltb_spec rc (CLUSTER_HEALTH_RETRY cfg)); [lia | reflexivity].
  - cbn [validate_cluster_health_loop spec_validate].
    destruct (Z.ltb_spec rc (CLUSTER_HEALTH_RETRY cfg)); [|lia].
    unfold checks_pass, bind.
    repeat (mstep; cbn [negb]; cbv beta iota; try rewrite H3 in *; try rewrite H4 in * );
      mdone; try congruence; apply IH; lia.
Qed.

(** X27.  On a cluster whose counted nodes always report a definite
    readiness, the health validator is the validator of the specification:
    up to [CLUSTER_HEALTH_RETRY] attempts, each one after a sleep of
    [CLUSTER_HEALTH_WAIT]; an attempt evaluates, in this order, that the
    group has scaled, that its instances are healthy, that the cluster has
    the expected node count and that all counted nodes are ready, and stops
    at the first check that fails; the first attempt whose four checks pass
    ends the validation with success; when the attempts are used up the
    validation raises.  It always returns or raises. *)
Theorem validate_cluster_health_meets_spec_on_definite_nodes
    asg_name expected cluster_name predictive kind s :
  (forall t node, In node (included_nodes cfg (e_list_node env t)) ->
                  definite_readiness node) ->
  validate_cluster_health cfg env asg_name expected cluster_name predictive kind s
  = spec_validate (Z.to_nat (CLUSTER_HEALTH_RETRY cfg)) (CLUSTER_HEALTH_WAIT cfg)
                  (health_checks cfg env asg_name expected cluster_name predictive) s
  /\ fst (validate_cluster_health cfg env asg_name expected cluster_name predictive kind s)
     <> OutOfFuel.
Proof.
  intros Hdef. split; [|apply validate_cluster_health_returns].
  unfold validate_cluster_health, health_checks. cbv zeta.
  apply validate_loop_checks; [| |f_equal; lia].
  - intros d s'. unfold k8s_nodes_count. apply k8s_nodes_count_loop_polls. reflexivity.
  - intros s'. unfold k8s_nodes_ready.
    rewrite k8s_nodes_ready_loop_polls by reflexivity.
    apply poll_nodes_ext. intros t. apply definite_nodes_ready, Hdef.
Qed.

End Polls.

(** C6, at the failing input.  The group has scaled, its instances are
    healthy and the cluster has the two expected nodes, but the readiness of
    one of the two counted nodes is unknown.  The validator returns with
    success in its first attempt: its fourth check only looks for a [Ready]
    condition with status ["False"].  The validator of the specification,
    whose fourth check asks every counted node for a [Ready] condition with
    status ["True"], uses up its attempts and raises. *)
Theorem validate_cluster_health_accepts_unready_node :
  let cfg := example_cfg 1 5 3 0 false in
  let env := with_nodes (fun _ => [node_a; node_lost]) (example_env all_evictable []) in
  let run := validate_cluster_health cfg env "workers-a" 2 "cluster" false "asg" cloud_fresh in
  fst run = Ret tt
  /\ events (snd run)
     = [EvSleep 1; EvIsAsgScaled "workers-a" 2; EvIsAsgHealthy "workers-a";
        EvCountInstances "cluster" false; EvListNode; EvListNode]
  /\ (forall t, included_nodes cfg (e_list_node env t) = [node_a; node_lost])
  /\ conditions node_lost = [("Ready", "Unknown")]
  /\ all_counted_nodes_ready [node_a; node_lost] = false
  /\ fst (k8s_nodes_ready cfg env cloud_fresh) = Ret true
  /\ fst (spec_validate (Z.to_nat (CLUSTER_HEALTH_RETRY cfg)) (CLUSTER_HEALTH_WAIT cfg)
            (health_checks cfg env "workers-a" 2 "cluster" false) cloud_fresh)
     = Raise (Exception "ASG healthcheck failed").
Proof. vm_compute. auto 10. Qed.

(** * Whole runs *)

Section WholeRuns.
Context (cfg : Config) (env : Env).

Lemma sort_asgs_keeps plan item :
  NoDup (map fst plan) -> In item plan -> in_worker_groups_order cfg (fst item) = true ->
  In item (sort_asgs cfg plan).
Proof.
  intros Hnd Hin Ho. destruct item as [k v]. unfold sort_asgs. apply sort_outer_keeps; auto.
  right. unfold in_worker_groups_order in Ho. apply existsb_exists in Ho. exact Ho.
Qed.

(** C1, amended.  In run mode 2 the drain phase does run.  A run that
    completes has made the upfront scale-up of every group of the plan, then
    the upfront cordon of the groups in the worker group order, and then the
    main loop over the sorted plan.  For every group of the plan whose name
    contains an entry of the worker group order: every outdated instance has
    a node, which is cordoned or tainted in the upfront part and whose drain
    is started in the main loop (its pods are listed for eviction); and at
    the end of the run the group is back at its original desired capacity
    and max size, without the three state tags. *)
Theorem run_mode_2_drains_ordered_groups fuel asgs cluster s s' :
  RUN_MODE cfg = 2 ->
  update_asgs cfg env fuel asgs cluster s = (Ret tt, s') ->
  exists s1 listed s2 s3,
    scale_up_all cfg env fuel cluster (plan_asgs env asgs)
                 (set_asg_state_dict ∅ (set_cache ∅ s)) = (Ret tt, s1)
    /\ get_k8s_nodes cfg env s1 = (Ret listed, s2)
    /\ cordon_all cfg env (fst listed) (plan_asgs env asgs) s2 = (Ret tt, s3)
    /\ process_groups cfg env fuel cluster (fst listed) (snd listed)
                      (sort_asgs cfg (plan_asgs env asgs)) s3 = (Ret tt, s')
    /\ calls_between s s' = calls_between s s3 ++ calls_between s3 s'
    /\ forall name outs asg,
         In (name, (outs, asg)) (plan_asgs env asgs) ->
         in_worker_groups_order cfg name = true ->
         (forall outdated, In outdated outs ->
            exists node,
              instance_to_node_cache s' !! InstanceId outdated = Some node
              /\ In (EvPatchNode node (cordon_patch cfg) (DRY_RUN cfg)) (calls_between s s3)
              /\ In (EvListPods node) (calls_between s3 s'))
         /\ exists o m,
              original_state cfg env asg (Z.of_nat (length outs)) = Some (o, m)
              /\ group_restored cfg s' name o m.
Proof.
  intros Hmode H.
  destruct (update_asgs_mode_2_phases cfg env fuel asgs cluster s s' Hmode H)
    as (s1 & listed & s2 & s3 & H1 & H2 & H3 & H4 & Hsplit & Hdrain).
  exists s1, listed, s2, s3. repeat (split; [assumption|]).
  intros name outs asg Hplan Horder.
  assert (Hsorted : In (name, (outs, asg)) (sort_asgs cfg (plan_asgs env asgs))).
  { apply sort_asgs_keeps; [apply plan_with_NoDup | exact Hplan | exact Horder]. }
  split.
  - intros o Ho. exact (Hdrain _ o Hsorted Ho).
  - apply (update_asgs_restores_sorted_groups cfg env fuel asgs cluster s s' H).
    unfold plan_of. rewrite Hmode. exact Hsorted.
Qed.

(** X28.  In every run mode, a run that completes leaves every group of
    the plan whose name contains an entry of the worker group order with its
    original desired capacity and max size and without the three state
    tags. *)
Theorem completed_run_restores_every_ordered_group fuel asgs cluster s s' :
  update_asgs cfg env fuel asgs cluster s = (Ret tt, s') ->
  forall name outs asg,
    In (name, (outs, asg)) (plan_of cfg env asgs) ->
    in_worker_groups_order cfg name = true ->
    exists o m,
      original_state cfg env asg (Z.of_nat (length outs)) = Some (o, m)
      /\ group_restored cfg s' name o m.
Proof.
  intros H name outs asg Hplan Horder.
  apply (update_asgs_restores_sorted_groups cfg env fuel asgs cluster s s' H).
  apply sort_asgs_keeps; [apply plan_of_NoDup | exact Hplan | exact Horder].
Qed.

End WholeRuns.

Lemma run_mode_2_drains_ordered_groups_witness :
  let cfg := example_cfg 2 5 3 0 false in
  let env := example_env all_evictable [] in
  let s' := snd (update_asgs cfg env 1 [asg_fresh] "cluster" cloud_fresh) in
  exists upfront later,
    calls_between cloud_fresh s' = upfront ++ later
    /\ (exists node,
          instance_to_node_cache s' !! "i-0b" = Some node
          /\ In (EvPatchNode node Unschedulable false) upfront
          /\ In (EvListPods node) later)
    /\ group_restored cfg s' "workers-a" 2 2.
Proof.
  intros cfg env s'.
  destruct (run_mode_2_drains_ordered_groups cfg env 1 [asg_fresh] "cluster" cloud_fresh s'
              eq_refl ltac:(vm_compute; reflexivity))
    as (s1 & listed & s2 & s3 & _ & _ & _ & _ & Hsplit & Hgroups).
  destruct (Hgroups "workers-a" [mkInstance "i-0a"; mkInstance "i-0b"] asg_fresh
              ltac:(vm_compute; left; reflexivity) eq_refl) as [Hd (o & m & Ho & Hr)].
  exists (calls_between cloud_fresh s3), (calls_between s3 s').
  split; [exact Hsplit|]. split.
  - apply (Hd (mkInstance "i-0b")). simpl. right. left. reflexivity.
  - vm_compute in Ho. injection Ho as <- <-. exact Hr.
Defined.

Lemma completed_run_restores_every_ordered_group_witness :
  let cfg := example_cfg 1 5 3 0 false in
  let env := example_env all_evictable [] in
  group_restored cfg (snd (update_asgs cfg env 1 [asg_fresh] "cluster" cloud_fresh))
                 "workers-a" 2 2.
Proof.
  intros cfg env.
  destruct (completed_run_restores_every_ordered_group cfg env 1 [asg_fresh] "cluster"
              cloud_fresh (snd (update_asgs cfg env 1 [asg_fresh] "cluster" cloud_fresh))
              ltac:(vm_compute; reflexivity)
              "workers-a" [mkInstance "i-0a"; mkInstance "i-0b"] asg_fresh
              ltac:(vm_compute; left; reflexivity) eq_refl) as (o & m & Ho & Hr).
  vm_compute in Ho. injection Ho as <- <-. exact Hr.
Defined.

Lemma validate_cluster_health_meets_spec_on_definite_nodes_witness :
  let cfg := example_cfg 1 5 3 0 false in
  let env := example_env all_evictable [] in
  validate_cluster_health cfg env "workers-a" 2 "cluster" false "asg" cloud_fresh
  = spec_validate 3 1 (health_checks cfg env "workers-a" 2 "cluster" false) cloud_fresh
  /\ fst (validate_cluster_health cfg env "workers-a" 2 "cluster" false "asg" cloud_fresh)
     <> OutOfFuel.
Proof.
  intros cfg env.
  apply (validate_cluster_health_meets_spec_on_definite_nodes cfg env "workers-a" 2 "cluster"
           false "asg" cloud_fresh).
  intros t node Hin. vm_compute in Hin.
  destruct Hin as [<-|[<-|[]]]; reflexivity.
Defined.
